(** * Wordy: the dictionary manager, embedded and verified

    A shallow embedding of [src/dictionary_manager.py] (class
    [DictionaryManager]): the format sniffer, the ingestion pipeline, the
    prefix search, the directory scanner and the history and favorites
    ledgers, over an explicit model of the SQLite store the class keeps.

    Conventions of the embedding:
    - Python [str] values are [string]s whose characters are the code points
      below 256; [str.lower], [str.strip] and SQLite's [LOWER]/[LIKE] are
      written out for that alphabet.
    - Python [bytes] values are [list byte].
    - Python [int] arguments are [Z]; row ids and counts are [nat].
    - each table is the list of its rows in rowid order.
    - a method of the class is a function on the [world] (store, session
      pointer, file system, decoder trace), in a small state monad.
    - the calls of [import_bgl] on its connection can raise, as the
      environment decides; an exception rolls the transaction back. *)

From Stdlib Require Import ZArith Lia Bool Strings.Ascii Strings.Byte.
From Stdlib Require Import Sorting.Sorted Sorting.Permutation.
From stdpp Require Import base decidable option list strings pretty sorting gmap.

Local Open Scope Z_scope.
Local Open Scope nat_scope.

(** ** Python text *)

Module Text.

Definition code (c : ascii) : nat := nat_of_ascii c.

(** [str.isspace] on one character: the code points below 256 that Python
    classifies as whitespace. *)
Definition isspace (c : ascii) : bool :=
  let n := code c in
  ((9 <=? n) && (n <=? 13)) || ((28 <=? n) && (n <=? 32))
  || (n =? 133) || (n =? 160).

Definition is_ascii_upper (c : ascii) : bool :=
  let n := code c in (65 <=? n) && (n <=? 90).

(** SQLite's built-in [LOWER] folds the 26 ASCII capitals only. *)
Definition sql_lower_char (c : ascii) : ascii :=
  if is_ascii_upper c then ascii_of_nat (code c + 32) else c.

(** [str.lower] on one character: the ASCII capitals and the Latin-1
    capitals U+00C0..U+00DE, U+00D7 (the multiplication sign) apart. *)
Definition lower_char (c : ascii) : ascii :=
  let n := code c in
  if is_ascii_upper c then ascii_of_nat (n + 32)
  else if (192 <=? n) && (n <=? 222) && negb (n =? 215)
       then ascii_of_nat (n + 32)
       else c.

Fixpoint map (f : ascii -> ascii) (s : string) : string :=
  match s with
  | EmptyString => EmptyString
  | String c s' => String (f c) (map f s')
  end.

Definition lower (s : string) : string := map lower_char s.
Definition sql_lower (s : string) : string := map sql_lower_char s.

Fixpoint lstrip (s : string) : string :=
  match s with
  | EmptyString => EmptyString
  | String c s' => if isspace c then lstrip s' else s
  end.

Definition rstrip (s : string) : string :=
  String.rev (lstrip (String.rev s)).

(** [s.strip()] *)
Definition strip (s : string) : string := rstrip (lstrip s).

(** Truth value of a [str]: non-empty. *)
Definition truthy (s : string) : bool :=
  match s with EmptyString => false | String _ _ => true end.

(** [s.startswith(p)] *)
Fixpoint startswith (p s : string) : bool :=
  match p, s with
  | EmptyString, _ => true
  | String a p', String b s' => Ascii.eqb a b && startswith p' s'
  | String _ _, EmptyString => false
  end.

(** [s.endswith(p)] *)
Definition endswith (p s : string) : bool :=
  startswith (String.rev p) (String.rev s).

(** [s.replace(a, b)] for one-character [a] and [b]. *)
Definition replace (a b : ascii) (s : string) : string :=
  map (fun c => if Ascii.eqb c a then b else c) s.

(** [k in s]: [k] occurs in [s] as a substring. *)
Fixpoint contains (k s : string) : bool :=
  startswith k s
  || match s with
     | EmptyString => false
     | String _ s' => contains k s'
     end.

End Text.

(** ** Python bytes *)

Module Bytes.

(** [l.startswith(p)] *)
Fixpoint startswith (p l : list byte) : bool :=
  match p, l with
  | [], _ => true
  | a :: p', b :: l' => Byte.eqb a b && startswith p' l'
  | _ :: _, [] => false
  end.

(** [k in l] *)
Fixpoint contains (k l : list byte) : bool :=
  startswith k l
  || match l with
     | [] => false
     | _ :: l' => contains k l'
     end.

(** What the two tests decide. *)
Definition is_prefix (p l : list byte) : Prop := exists t, l = p ++ t.
Definition occurs_in (k l : list byte) : Prop :=
  exists h t, l = h ++ k ++ t.

End Bytes.

(** ** pathlib's lexical path operations (POSIX flavour) *)

Module Path.

Definition slash : ascii := "/"%char.
Definition dot : ascii := "."%char.

(** [split_at c s]: the part of [s] before the first [c] and, when there
    is one, the part after it. *)
Fixpoint split_at (c : ascii) (s : string) : string * option string :=
  match s with
  | EmptyString => (EmptyString, None)
  | String a s' =>
      if Ascii.eqb a c then (EmptyString, Some s')
      else let '(h, t) := split_at c s' in (String a h, t)
  end.

(** [Path(p).name]: the final component. *)
Definition name (p : string) : string :=
  String.rev (fst (split_at slash (String.rev p))).

(** Everything up to and including the last separator. *)
Definition parent_prefix (p : string) : string :=
  match snd (split_at slash (String.rev p)) with
  | None => EmptyString
  | Some r => String.rev (String slash r)
  end.

(** [name.rfind('.')] with pathlib's test [0 < i < len(name) - 1]: the
    stem and the suffix of a file name. *)
Definition stem_suffix (n : string) : string * string :=
  match split_at dot (String.rev n) with
  | (_, None) => (n, EmptyString)
  | (rext, Some rstem) =>
      if Text.truthy rstem && Text.truthy rext
      then (String.rev rstem, String dot (String.rev rext))
      else (n, EmptyString)
  end.

(** [Path(p).stem] and [Path(p).suffix] *)
Definition stem (p : string) : string := fst (stem_suffix (name p)).
Definition suffix (p : string) : string := snd (stem_suffix (name p)).

(** [Path(p).with_suffix(ext)], for a path with a non-empty name. *)
Definition with_suffix (p ext : string) : string :=
  String.app (parent_prefix p) (String.app (stem p) ext).

End Path.

(** ** The SQLite store *)

Module Sql.

(** Rows of the four tables of [_init_db].  [created_at] of
    [dictionaries] is written by a column default and read by no method;
    it is left out. *)
Record dictionary := {
  d_id : nat;
  d_name : string;
  d_source_path : string;
  d_word_count : nat;
  d_is_encrypted : bool
}.

Record entry := {
  e_id : nat;
  e_dictionary_id : nat;
  e_word : string;
  e_definition : string
}.

Record history := {
  h_id : nat;
  h_query : string;
  h_dictionary_id : option nat;   (* NULL is [None] *)
  h_searched_at : Z
}.

Record favorite := {
  f_id : nat;
  f_word : string;
  f_definition : string;
  f_dictionary_id : option nat;   (* NULL is [None] *)
  f_added_at : Z
}.

(** The database file: each table in rowid order, and for each
    AUTOINCREMENT key the largest rowid the table ever held
    ([sqlite_sequence]). *)
Record database := {
  dictionaries : list dictionary;
  entries : list entry;
  search_history : list history;
  favorites : list favorite;
  seq_dictionaries : nat;
  seq_entries : nat;
  seq_search_history : nat;
  seq_favorites : nat
}.

(** The store right after [_init_db] on a new file. *)
Definition empty : database :=
  {| dictionaries := []; entries := []; search_history := [];
     favorites := []; seq_dictionaries := 0; seq_entries := 0;
     seq_search_history := 0; seq_favorites := 0 |}.

(** [PRAGMA foreign_keys]: SQLite leaves foreign-key enforcement off
    unless a connection turns it on, and no connection of the source
    does. *)
Definition foreign_keys : bool := false.

(** AUTOINCREMENT: one more than the largest rowid that ever existed in
    the table. *)
Definition next_rowid (seq : nat) (ids : list nat) : nat :=
  S (Nat.max seq (foldr Nat.max 0 ids)).

(** [column = ?] against a bound parameter: a comparison with NULL is
    never true. *)
Definition eq_param (column : option nat) (param : option nat) : bool :=
  match column, param with
  | Some a, Some b => Nat.eqb a b
  | _, _ => false
  end.

(** [LIKE] without ESCAPE.  SQLite reads both operands as C strings: what
    follows a U+0000 in the pattern or in the text is not looked at. *)
Fixpoint c_string (s : string) : string :=
  match s with
  | EmptyString => EmptyString
  | String c s' =>
      if Ascii.eqb c Ascii.zero then EmptyString else String c (c_string s')
  end.

(** The comparison itself: [%] matches any run of characters, [_] any one
    character, every other character itself up to ASCII case. *)
Definition percent : ascii := "%"%char.
Definition underscore : ascii := "_"%char.

Fixpoint pattern_compare (pattern : string) : string -> bool :=
  match pattern with
  | EmptyString =>
      fun s => negb (Text.truthy s)
  | String c p' =>
      if Ascii.eqb c percent then
        fix any (s : string) : bool :=
          pattern_compare p' s
          || match s with
             | EmptyString => false
             | String _ s' => any s'
             end
      else if Ascii.eqb c underscore then
        fun s =>
          match s with
          | EmptyString => false
          | String _ s' => pattern_compare p' s'
          end
      else
        fun s =>
          match s with
          | EmptyString => false
          | String d s' =>
              Ascii.eqb (Text.sql_lower_char c) (Text.sql_lower_char d)
              && pattern_compare p' s'
          end
  end.

Definition like (pattern s : string) : bool :=
  pattern_compare (c_string pattern) (c_string s).

(** [ORDER BY]: a stable sort of the rows in rowid order (SQL leaves the
    order of rows with equal keys open; rowid order is what the index
    scan yields). *)
Fixpoint insert_by {A} (le : A -> A -> bool) (x : A) (l : list A) : list A :=
  match l with
  | [] => [x]
  | y :: l' => if le x y then x :: l else y :: insert_by le x l'
  end.

Definition order_by {A} (le : A -> A -> bool) (l : list A) : list A :=
  foldr (insert_by le) [] l.

(** [LIMIT ?]: a negative bound is no bound. *)
Definition limit {A} (n : Z) (l : list A) : list A :=
  if (n <? 0)%Z then l else take (Z.to_nat n) l.

(** [SELECT DISTINCT] on a single text column: one row per value. *)
Definition distinct (l : list string) : list string := remove_dups l.

(** *** Statements on [dictionaries] *)

(** Deleting rows of [dictionaries]: with foreign keys enforced the
    entries of the deleted rows go with them (ON DELETE CASCADE) and the
    ledgers' references are set to NULL; without, nothing else moves. *)
Definition delete_dictionaries (fk : bool) (gone : list nat)
    (db : database) : database :=
  let is_gone (i : nat) := existsb (Nat.eqb i) gone in
  let null_if_gone (o : option nat) :=
    match o with
    | Some i => if is_gone i then None else Some i
    | None => None
    end in
  {| dictionaries :=
       List.filter (fun d => negb (is_gone (d_id d))) (dictionaries db);
     entries :=
       if fk
       then List.filter (fun e => negb (is_gone (e_dictionary_id e)))
              (entries db)
       else entries db;
     search_history :=
       if fk
       then List.map (fun h =>
              {| h_id := h_id h; h_query := h_query h;
                 h_dictionary_id := null_if_gone (h_dictionary_id h);
                 h_searched_at := h_searched_at h |}) (search_history db)
       else search_history db;
     favorites :=
       if fk
       then List.map (fun f =>
              {| f_id := f_id f; f_word := f_word f;
                 f_definition := f_definition f;
                 f_dictionary_id := null_if_gone (f_dictionary_id f);
                 f_added_at := f_added_at f |}) (favorites db)
       else favorites db;
     seq_dictionaries := seq_dictionaries db;
     seq_entries := seq_entries db;
     seq_search_history := seq_search_history db;
     seq_favorites := seq_favorites db |}.

(** [INSERT OR REPLACE INTO dictionaries (name, source_path, word_count,
    is_encrypted) VALUES (?, ?, ?, 0)]: the rows that hold the UNIQUE
    [name] already are deleted, then the row is inserted under a new
    rowid. *)
Definition new_dictionary_id (db : database) : nat :=
  next_rowid (seq_dictionaries db) (List.map d_id (dictionaries db)).

Definition replace_dictionary (fk : bool) (name source_path : string)
    (word_count : nat) (db : database) : database :=
  let clash :=
    List.map d_id
      (List.filter (fun d => String.eqb (d_name d) name) (dictionaries db)) in
  let id := new_dictionary_id db in
  let db1 := delete_dictionaries fk clash db in
  {| dictionaries :=
       dictionaries db1 ++
       [ {| d_id := id; d_name := name; d_source_path := source_path;
            d_word_count := word_count; d_is_encrypted := false |} ];
     entries := entries db1;
     search_history := search_history db1;
     favorites := favorites db1;
     seq_dictionaries := id;
     seq_entries := seq_entries db1;
     seq_search_history := seq_search_history db1;
     seq_favorites := seq_favorites db1 |}.

(** [SELECT id FROM dictionaries WHERE name = ?], [fetchone()] *)
Definition select_dictionary_id (name : string) (db : database) : option nat :=
  match List.filter (fun d => String.eqb (d_name d) name) (dictionaries db) with
  | [] => None
  | d :: _ => Some (d_id d)
  end.

(** [SELECT 1 FROM dictionaries WHERE id = ?], [fetchone()] *)
Definition exists_dictionary (id : nat) (db : database) : bool :=
  existsb (fun d => Nat.eqb (d_id d) id) (dictionaries db).

(** [SELECT id, name, word_count FROM dictionaries ORDER BY name] *)
Definition select_dictionaries (db : database) : list (nat * string * nat) :=
  List.map (fun d => (d_id d, d_name d, d_word_count d))
    (order_by (fun a b => String.leb (d_name a) (d_name b)) (dictionaries db)).

(** [SELECT source_path FROM dictionaries] *)
Definition select_source_paths (db : database) : list string :=
  List.map d_source_path (dictionaries db).

(** *** Statements on [entries] *)

Definition with_entries (rows : list entry) (seq : nat) (db : database)
    : database :=
  {| dictionaries := dictionaries db; entries := rows;
     search_history := search_history db; favorites := favorites db;
     seq_dictionaries := seq_dictionaries db; seq_entries := seq;
     seq_search_history := seq_search_history db;
     seq_favorites := seq_favorites db |}.

(** [DELETE FROM entries WHERE dictionary_id = ?] *)
Definition delete_entries (dict_id : nat) (db : database) : database :=
  with_entries
    (List.filter (fun e => negb (Nat.eqb (e_dictionary_id e) dict_id))
       (entries db))
    (seq_entries db) db.

(** [INSERT INTO entries (dictionary_id, word, definition) VALUES (?, ?, ?)] *)
Definition insert_entry (dict_id : nat) (wd : string * string)
    (db : database) : database :=
  let id := next_rowid (seq_entries db) (List.map e_id (entries db)) in
  with_entries
    (entries db ++
     [ {| e_id := id; e_dictionary_id := dict_id;
          e_word := fst wd; e_definition := snd wd |} ])
    id db.

(** [executemany] of the insert over a batch, in order. *)
Definition insert_entries (dict_id : nat) (batch : list (string * string))
    (db : database) : database :=
  fold_left (fun acc wd => insert_entry dict_id wd acc) batch db.

(** The rows of [WHERE dictionary_id = ? AND LOWER(word) LIKE ? ORDER BY
    word]. *)
Definition matching_entries (dict_id : option nat) (pattern : string)
    (db : database) : list entry :=
  order_by (fun a b => String.leb (e_word a) (e_word b))
    (List.filter
       (fun e => eq_param (Some (e_dictionary_id e)) dict_id
                 && like pattern (Text.sql_lower (e_word e)))
       (entries db)).

(** [SELECT word, definition FROM entries WHERE dictionary_id = ? AND
    LOWER(word) LIKE ? ORDER BY word LIMIT ?] *)
Definition select_entries (dict_id : option nat) (pattern : string)
    (lim : Z) (db : database) : list (string * string) :=
  limit lim
    (List.map (fun e => (e_word e, e_definition e))
       (matching_entries dict_id pattern db)).

(** [SELECT DISTINCT word FROM entries WHERE dictionary_id = ? AND
    LOWER(word) LIKE ? ORDER BY word LIMIT ?] *)
Definition select_distinct_words (dict_id : option nat) (pattern : string)
    (lim : Z) (db : database) : list string :=
  limit lim
    (distinct (List.map e_word (matching_entries dict_id pattern db))).

(** *** Statements on [search_history] *)

Definition with_history (rows : list history) (seq : nat) (db : database)
    : database :=
  {| dictionaries := dictionaries db; entries := entries db;
     search_history := rows; favorites := favorites db;
     seq_dictionaries := seq_dictionaries db; seq_entries := seq_entries db;
     seq_search_history := seq;
     seq_favorites := seq_favorites db |}.

(** [INSERT INTO search_history (query, dictionary_id) VALUES (?, ?)];
    [searched_at] defaults to the clock reading [now]. *)
Definition new_history (db : database) (query : string)
    (dict_id : option nat) (now : Z) : history :=
  {| h_id := next_rowid (seq_search_history db)
               (List.map h_id (search_history db));
     h_query := query; h_dictionary_id := dict_id; h_searched_at := now |}.

Definition insert_history (query : string) (dict_id : option nat) (now : Z)
    (db : database) : database :=
  let row := new_history db query dict_id now in
  with_history (search_history db ++ [row]) (h_id row) db.

(** [... ORDER BY searched_at DESC] *)
Definition newer (a b : history) : bool :=
  (h_searched_at b <=? h_searched_at a)%Z.

Definition newest_first (rows : list history) : list history :=
  order_by newer rows.

(** [DELETE FROM search_history WHERE id NOT IN (SELECT id FROM
    search_history ORDER BY searched_at DESC LIMIT 100)] *)
Definition prune_history (db : database) : database :=
  let keep := List.map h_id (limit 100 (newest_first (search_history db))) in
  with_history
    (List.filter (fun h => existsb (Nat.eqb (h_id h)) keep)
       (search_history db))
    (seq_search_history db) db.

(** [SELECT query, searched_at FROM search_history ORDER BY searched_at
    DESC LIMIT ?] *)
Definition select_history (lim : Z) (db : database) : list (string * Z) :=
  limit lim
    (List.map (fun h => (h_query h, h_searched_at h))
       (newest_first (search_history db))).

(** [DELETE FROM search_history] *)
Definition delete_history (db : database) : database :=
  with_history [] (seq_search_history db) db.

(** *** Statements on [favorites] *)

Definition with_favorites (rows : list favorite) (seq : nat) (db : database)
    : database :=
  {| dictionaries := dictionaries db; entries := entries db;
     search_history := search_history db; favorites := rows;
     seq_dictionaries := seq_dictionaries db; seq_entries := seq_entries db;
     seq_search_history := seq_search_history db;
     seq_favorites := seq |}.

(** The rows of [WHERE word = ? AND dictionary_id = ?]. *)
Definition is_favorite_row (word : string) (dict_id : option nat)
    (f : favorite) : bool :=
  String.eqb (f_word f) word && eq_param (f_dictionary_id f) dict_id.

(** [SELECT 1 FROM favorites WHERE word = ? AND dictionary_id = ?],
    [fetchone()]: is there a row. *)
Definition exists_favorite (word : string) (dict_id : option nat)
    (db : database) : bool :=
  existsb (is_favorite_row word dict_id) (favorites db).

(** [INSERT INTO favorites (word, definition, dictionary_id) VALUES (?, ?,
    ?)]; [added_at] defaults to the clock reading [now]. *)
Definition new_favorite (db : database) (word definition : string)
    (dict_id : option nat) (now : Z) : favorite :=
  {| f_id := next_rowid (seq_favorites db) (List.map f_id (favorites db));
     f_word := word; f_definition := definition;
     f_dictionary_id := dict_id; f_added_at := now |}.

Definition insert_favorite (word definition : string)
    (dict_id : option nat) (now : Z) (db : database) : database :=
  let row := new_favorite db word definition dict_id now in
  with_favorites (favorites db ++ [row]) (f_id row) db.

(** [DELETE FROM favorites WHERE word = ? AND dictionary_id = ?], with the
    cursor's [rowcount]. *)
Definition delete_favorite (word : string) (dict_id : option nat)
    (db : database) : nat * database :=
  (List.length (List.filter (is_favorite_row word dict_id) (favorites db)),
   with_favorites
     (List.filter (fun f => negb (is_favorite_row word dict_id f))
        (favorites db))
     (seq_favorites db) db).

(** [SELECT word, definition, added_at FROM favorites ORDER BY added_at
    DESC LIMIT ?] *)
Definition select_favorites (lim : Z) (db : database)
    : list (string * string * Z) :=
  limit lim
    (List.map (fun f => (f_word f, f_definition f, f_added_at f))
       (order_by (fun a b => (f_added_at b <=? f_added_at a)%Z)
          (favorites db))).

End Sql.

(** ** The external collaborators *)

(** One record of the decoder's entry sequence ([entry.isData()],
    [entry.s_word], [entry.defi]). *)
Record glossary_entry := {
  isData : bool;
  s_word : string;
  defi : string
}.

(** What the decoder does with a file: [Glossary.directRead] raises, or it
    returns and iterating the glossary yields [items] and then either stops
    or raises. *)
Inductive decode_outcome :=
| DirectReadRaises (message : string)
| Decoded (items : list glossary_entry) (iteration_raises : option string).

(** [open(path, "rb")] and reading the file: its content, or the text of
    the exception. *)
Inductive read_outcome :=
| ReadOk (content : list byte)
| ReadRaises (message : string).

(** An exception, as the [except] clause of [import_bgl] reports it:
    [type(e).__name__] and [str(e)]. *)
Record exception := {
  exn_type : string;
  exn_text : string
}.

(** The operating system, the decoder library and the SQLite library, as
    the manager sees them.  [FS] is the state of the file system. *)
Class Env := {
  FS : Type;
  (** [os.path.abspath] *)
  os_path_abspath : string -> string;
  (** [os.path.exists], [Path.exists] *)
  os_path_exists : FS -> string -> bool;
  (** [open(path, "rb")] followed by a read *)
  open_rb : FS -> string -> read_outcome;
  (** [Path.resolve] *)
  path_resolve : FS -> string -> string;
  (** [Path.absolute] *)
  path_absolute : string -> string;
  (** [shutil.copy2 src dst]: the new file system, or [None] when it raises *)
  shutil_copy2 : FS -> string -> string -> option FS;
  (** [Glossary().directRead(path, formatName="BabylonBgl")] and the
      iteration over the glossary *)
  glossary_read : FS -> string -> decode_outcome;
  (** [Path.iterdir], as the paths it yields; [None] when it raises *)
  path_iterdir : FS -> string -> option (list string);
  (** [Path.is_file] *)
  path_is_file : FS -> string -> bool;
  (** What SQLite does with the [n]-th call on the connection that
      [import_bgl] opens ([sqlite3.connect] itself, each [execute], each
      row of [executemany], [commit]), the file system being [fs] and the
      rows, as the connection sees them, [db]: [Some e] when the call
      raises [e] (the database is locked, the disk is full, ...), [None]
      when it goes through.  The other methods catch nothing of what
      SQLite raises; their runs here are those in which it raises
      nothing. *)
  sqlite_fault : FS -> Sql.database -> nat -> option exception
}.

(** ** The format sniffer *)

Module Sniffer.

Definition nl : string := String "010"%char EmptyString.

Definition sig_std_a : list byte := [x00; x01].
Definition sig_std_b : list byte := [x01; x00].
(** [b"BAB"] *)
Definition sig_BAB : list byte := [x42; x41; x42].
Definition sig_bom_le : list byte := [xff; xfe].
Definition sig_bom_be : list byte := [xfe; xff].
(** [b"hFarsi"], [b"Aryanpur"], [b"BGL"], [b"\x1f\x8b"] *)
Definition sig_hFarsi : list byte := [x68; x46; x61; x72; x73; x69].
Definition sig_Aryanpur : list byte :=
  [x41; x72; x79; x61; x6e; x70; x75; x72].
Definition sig_BGL : list byte := [x42; x47; x4c].
Definition sig_gzip : list byte := [x1f; x8b].
Definition vendor_sigs : list (list byte) :=
  [sig_hFarsi; sig_Aryanpur; sig_BGL; sig_gzip].

Definition msg_unencrypted : string := "Unencrypted BGL detected".
Definition msg_encrypted : string :=
  "ENCRYPTED: Commercial Babylon dictionary (DRM protected)".
Definition msg_likely : string :=
  "LIKELY ENCRYPTED: Persian commercial dictionary (Aryanpur/hFarsi)".
Definition msg_unknown : string := "Unknown format - may be unencrypted".
Definition msg_error (e : string) : string :=
  String.app "Error checking header: " e.

Definition std_header (header : list byte) : bool :=
  Bytes.startswith sig_std_a header || Bytes.startswith sig_std_b header.

(** The body of the [with open(...)] block, on [header = f.read(32)]. *)
Definition check_header (header : list byte) : bool * string :=
  if std_header header then (false, msg_unencrypted)
  else if Bytes.contains sig_BAB header
          || Bytes.contains sig_bom_le (take 4 header)
          || Bytes.contains sig_bom_be (take 4 header)
  then (true, msg_encrypted)
  else if existsb (fun sig => Bytes.contains sig header) vendor_sigs
          && negb (std_header header)
  then (true, msg_likely)
  else (false, msg_unknown).

(** [DictionaryManager._is_encrypted_bgl] *)
Definition _is_encrypted_bgl `{Env} (fs : FS) (file_path : string)
    : bool * string :=
  match open_rb fs file_path with
  | ReadOk content => check_header (take 32 content)
  | ReadRaises e => (false, msg_error e)
  end.

(** The sniffer's verdicts, as the specification names them. *)
Inductive verdict := Clear | LikelyEncrypted | Encrypted.

Definition verdict_of (r : bool * string) : verdict :=
  match r with
  | (false, _) => Clear
  | (true, reason) =>
      if Text.startswith "LIKELY" reason then LikelyEncrypted else Encrypted
  end.

End Sniffer.

(** ** The manager *)

Module Manager.

Import Sniffer.

(** What a method can read and change: the file system, the database
    file at [self.db_path], the session pointer [self.current_dict_id],
    and the paths handed to the decoder so far (newest last). *)
Record world `{Env} := {
  w_fs : FS;
  w_db : Sql.database;
  current_dict_id : option nat;
  decoder_calls : list string
}.

(** A new manager on a new database file. *)
Definition init `{Env} (fs : FS) : world :=
  {| w_fs := fs; w_db := Sql.empty; current_dict_id := None;
     decoder_calls := [] |}.

(** *** A state monad over the world *)

Definition M `{Env} (A : Type) : Type := world -> A * world.

Definition ret `{Env} {A} (a : A) : M A := fun w => (a, w).

Definition bind `{Env} {A B} (m : M A) (k : A -> M B) : M B :=
  fun w => let '(a, w') := m w in k a w'.

Notation "x <- m ;; k" := (bind m (fun x => k))
  (at level 100, m at next level, right associativity).
Notation "m ;;; k" := (bind m (fun _ => k))
  (at level 100, right associativity).

Definition gets `{Env} {A} (f : world -> A) : M A := fun w => (f w, w).

Definition set_fs `{Env} (fs : FS) : M unit :=
  fun w => (tt, {| w_fs := fs; w_db := w_db w;
                   current_dict_id := current_dict_id w;
                   decoder_calls := decoder_calls w |}).

Definition set_current `{Env} (id : option nat) : M unit :=
  fun w => (tt, {| w_fs := w_fs w; w_db := w_db w;
                   current_dict_id := id;
                   decoder_calls := decoder_calls w |}).

(** [conn.execute] of a statement that writes, and the commit. *)
Definition execute `{Env} (stmt : Sql.database -> Sql.database) : M unit :=
  fun w => (tt, {| w_fs := w_fs w; w_db := stmt (w_db w);
                   current_dict_id := current_dict_id w;
                   decoder_calls := decoder_calls w |}).

(** The world with other rows in the store. *)
Definition with_db `{Env} (db : Sql.database) (w : world) : world :=
  {| w_fs := w_fs w; w_db := db; current_dict_id := current_dict_id w;
     decoder_calls := decoder_calls w |}.

(** [conn.execute] of a SELECT, and the fetch. *)
Definition query `{Env} {A} (stmt : Sql.database -> A) : M A :=
  gets (fun w => stmt (w_db w)).

(** The call of the decoder, recorded. *)
Definition decode `{Env} (path : string) : M decode_outcome :=
  fun w => (glossary_read (w_fs w) path,
            {| w_fs := w_fs w; w_db := w_db w;
               current_dict_id := current_dict_id w;
               decoder_calls := decoder_calls w ++ [path] |}).

(** Truth value of [self.current_dict_id]: [None] and [0] are false. *)
Definition id_truthy (o : option nat) : bool :=
  match o with
  | Some (S _) => true
  | _ => false
  end.

(** *** Messages of [import_bgl] *)

(** Characters above U+00FF in the literals of the source are kept as
    their UTF-8 bytes. *)
Definition msg_not_found (p : string) : string :=
  String.app "File not found: " p.

Definition msg_extension : string :=
  "File must have .bgl extension (case-insensitive check)".

Definition msg_encryption_detected (hint : string) : string :=
  String.concat EmptyString
    [ "🔒 ENCRYPTION DETECTED"; nl; nl;
      "File appears to be a commercial encrypted dictionary ("; hint; ").";
      nl; nl;
      "⚠️  Babylon's Persian dictionaries (Aryanpur Pro, hFarsi Advanced) use proprietary DRM";
      nl;
      "that cannot be legally decrypted by third-party tools."; nl; nl;
      "✅ WORKING ALTERNATIVES:"; nl;
      "   • Use FREE unencrypted dictionaries from: https://github.com/ilius/pyglossary/wiki/BGL";
      nl;
      "   • Convert StarDict format (.dict.dz + .idx) using pyglossary"; nl;
      "   • Export definitions via Babylon's official software first" ].

Definition msg_decryption_failed : string :=
  String.concat EmptyString
    [ "🔒 DECRYPTION FAILED"; nl; nl;
      "This is a commercial encrypted Babylon dictionary."; nl;
      "No legal tool can decrypt these files."; nl; nl;
      "✅ Get FREE Persian dictionaries:"; nl;
      "   https://github.com/kiomarszadeh/Persian-Dictionary" ].

Definition msg_parsing (e : string) : string :=
  String.app "BGL parsing error: " e.

Definition msg_reading (e : string) : string :=
  String.app "Error reading entries: " e.

Definition msg_no_entries : string :=
  "Dictionary contains no entries (likely encrypted or corrupted)".

Definition msg_no_valid : string :=
  "No valid entries after cleaning (encoding issues)".

(** [f"Import failed: {type(e).__name__}: {str(e)}"] *)
Definition msg_import_failed (e : exception) : string :=
  String.concat EmptyString
    [ "Import failed: "; exn_type e; ": "; exn_text e ].

(** What [fetchone()[0]] raises when no row was found. *)
Definition type_error : exception :=
  {| exn_type := "TypeError";
     exn_text := "'NoneType' object is not subscriptable" |}.

(** [f"{n:,}"]: decimal digits in groups of three. *)
Fixpoint group3 (k : nat) (rdigits : string) : string :=
  match rdigits with
  | EmptyString => EmptyString
  | String c r =>
      if k =? 3 then String ","%char (String c (group3 1 r))
      else String c (group3 (S k) r)
  end.

Definition format_thousands (n : nat) : string :=
  String.rev (group3 0 (String.rev (pretty n))).

Definition msg_imported (count : nat) (dict_name : string) : string :=
  String.concat EmptyString
    [ "✅ Imported "; format_thousands count; " entries from '";
      dict_name; "'" ].

Definition encryption_keywords : list string :=
  ["encrypt"; "password"; "drm"; "protected"].

(** *** Steps of [import_bgl] *)

(** [Path(bgl_path).stem.replace(" ", "_").replace(".", "_").replace("-",
    "_")] *)
Definition derive_name (bgl_path : string) : string :=
  Text.replace "-"%char "_"%char
    (Text.replace "."%char "_"%char
       (Text.replace " "%char "_"%char (Path.stem bgl_path))).

(** The block under "Normalize extension to lowercase": the path the
    decoder is given. *)
Definition normalize_extension `{Env} (bgl_path : string) : M string :=
  if negb (String.eqb bgl_path (Text.lower bgl_path)) then
    fs <- gets w_fs ;;
    let normalized_path := path_resolve fs (Path.with_suffix bgl_path ".bgl") in
    if negb (os_path_exists fs normalized_path) then
      match shutil_copy2 fs bgl_path normalized_path with
      | Some fs' => set_fs fs' ;;; ret normalized_path
      | None => ret bgl_path
      end
    else ret bgl_path
  else ret bgl_path.

(** The loop over the glossary: data records are skipped, pairs with an
    empty word or definition dropped. *)
Definition collect (items : list glossary_entry) : list (string * string) :=
  List.map (fun e => (s_word e, defi e))
    (List.filter
       (fun e => negb (isData e) && Text.truthy (s_word e)
                 && Text.truthy (defi e))
       items).

(** The cleaning loop.  [str()] of a [str] is the string itself and does
    not raise. *)
Definition clean (pairs : list (string * string)) : list (string * string) :=
  List.filter (fun wd => Text.truthy (fst wd) && Text.truthy (snd wd))
    (List.map (fun wd => (Text.strip (fst wd), Text.strip (snd wd))) pairs).

(** One call on the open connection: SQLite raises, and the call has
    written nothing, or the statement runs on the rows the connection
    sees.  Until the commit these are the connection's own, uncommitted
    rows. *)
Definition statement `{Env} (n : nat) (stmt : Sql.database -> Sql.database)
    : M (option exception) :=
  fs <- gets w_fs ;;
  db <- query (fun db => db) ;;
  match sqlite_fault fs db n with
  | Some e => ret (Some e)
  | None => execute stmt ;;; ret None
  end.

(** [conn.executemany]: the statement once for each row, as the calls [n],
    [n + 1], ..., up to the first that raises; the rows before it have
    been written. *)
Fixpoint executemany `{Env} {A} (n : nat)
    (stmt : A -> Sql.database -> Sql.database) (rows : list A)
    : M (option exception) :=
  match rows with
  | [] => ret None
  | row :: rest =>
      r <- statement n (stmt row) ;;
      match r with
      | Some e => ret (Some e)
      | None => executemany (S n) stmt rest
      end
  end.

(** A step inside [try]: on an exception the handler, otherwise the
    rest. *)
Definition or_else `{Env} {A} (step : M (option exception))
    (handler : exception -> M A) (rest : M A) : M A :=
  r <- step ;;
  match r with
  | Some e => handler e
  | None => rest
  end.

(** The block under "Import into main DB": the calls on the connection in
    order, numbered from 0.  An exception leaves the [with] block, the
    connection rolls back what it has written so far, and the [except]
    clause of [import_bgl] answers. *)
Definition store `{Env} (dict_name bgl_path : string)
    (cleaned : list (string * string)) : M (bool * string) :=
  db0 <- query (fun db => db) ;;
  let failed (e : exception) : M (bool * string) :=
    execute (fun _ => db0) ;;; ret (false, msg_import_failed e) in
  (* sqlite3.connect *)
  or_else (statement 0 (fun db => db)) failed (
  or_else
    (statement 1
       (Sql.replace_dictionary Sql.foreign_keys dict_name bgl_path
          (List.length cleaned))) failed (
  (* the SELECT *)
  or_else (statement 2 (fun db => db)) failed (
  found <- query (Sql.select_dictionary_id dict_name) ;;
  match found with
  | None => failed type_error
  | Some dict_id =>
      or_else (statement 3 (Sql.delete_entries dict_id)) failed (
      or_else (executemany 4 (Sql.insert_entry dict_id) cleaned) failed (
      (* conn.commit() *)
      or_else (statement (4 + List.length cleaned) (fun db => db)) failed (
      set_current (Some dict_id) ;;;
      ret (true, msg_imported (List.length cleaned) dict_name))))
  end))).

(** [DictionaryManager.import_bgl].  The temporary directory the source
    opens around the decoding is created and removed without being
    used. *)
Definition import_bgl `{Env} (bgl_path : string) : M (bool * string) :=
  let bgl_path := os_path_abspath bgl_path in
  fs <- gets w_fs ;;
  if negb (os_path_exists fs bgl_path) then
    ret (false, msg_not_found bgl_path)
  else if negb (Text.endswith ".bgl" (Text.lower bgl_path)) then
    ret (false, msg_extension)
  else
    let '(is_encrypted, hint) := _is_encrypted_bgl fs bgl_path in
    if is_encrypted then ret (false, msg_encryption_detected hint)
    else
      let dict_name := derive_name bgl_path in
      bgl_path <- normalize_extension bgl_path ;;
      outcome <- decode bgl_path ;;
      match outcome with
      | DirectReadRaises e =>
          let err := Text.lower e in
          if existsb (fun k => Text.contains k err) encryption_keywords
          then ret (false, msg_decryption_failed)
          else ret (false, msg_parsing e)
      | Decoded _ (Some e) => ret (false, msg_reading e)
      | Decoded items None =>
          let entries := collect items in
          match entries with
          | [] => ret (false, msg_no_entries)
          | _ :: _ =>
              let cleaned := clean entries in
              match cleaned with
              | [] => ret (false, msg_no_valid)
              | _ :: _ => store dict_name bgl_path cleaned
              end
          end
      end.

(** *** Search and suggestions *)

(** Default values of the [limit] arguments. *)
Definition search_limit : Z := 20.
Definition suggestions_limit : Z := 10.
Definition history_limit : Z := 20.
Definition favorites_limit : Z := 50.

(** [DictionaryManager.search] *)
Definition search `{Env} (q : string) (limit : Z) : M (list (string * string)) :=
  cur <- gets current_dict_id ;;
  if negb (id_truthy cur) || negb (Text.truthy (Text.strip q)) then ret []
  else
    let q := Text.lower (Text.strip q) in
    query (Sql.select_entries cur (String.app q "%") limit).

(** [DictionaryManager.get_suggestions] *)
Definition get_suggestions `{Env} (prefix : string) (limit : Z) : M (list string) :=
  cur <- gets current_dict_id ;;
  if negb (id_truthy cur) || negb (Text.truthy (Text.strip prefix)) then ret []
  else
    let prefix := Text.lower (Text.strip prefix) in
    query (Sql.select_distinct_words cur (String.app prefix "%") limit).

(** [DictionaryManager.get_dictionaries] *)
Definition get_dictionaries `{Env} : M (list (nat * string * nat)) :=
  query Sql.select_dictionaries.

(** [DictionaryManager.set_active_dictionary] *)
Definition set_active_dictionary `{Env} (dict_id : nat) : M bool :=
  found <- query (Sql.exists_dictionary dict_id) ;;
  if found then set_current (Some dict_id) ;;; ret true
  else ret false.

(** *** The directory scanner *)

Inductive status := StError | StInfo | StSkip | StSuccess.

(** One result dictionary; the two one-record answers carry no ["file"]
    key. *)
Record scan_result := {
  r_file : option string;
  r_status : status;
  r_message : string
}.

Definition msg_dir_not_found (directory : string) : string :=
  String.app "Directory not found: " directory.
Definition msg_no_files : string := "No BGL files found in directory".
Definition msg_already : string := "Already imported".

(** The files the scan considers: [f.is_file() and f.suffix.lower() ==
    ".bgl"]. *)
Definition eligible `{Env} (fs : FS) (f : string) : bool :=
  path_is_file fs f && String.eqb (Text.lower (Path.suffix f)) ".bgl".

(** The body of [for file_path in files]. *)
Definition scan_file `{Env} (existing_paths : gset string)
    (file_path : string) : M scan_result :=
  let abs_path := path_absolute file_path in
  let file_name := Path.name file_path in
  if decide (abs_path ∈ existing_paths) then
    ret {| r_file := Some file_name; r_status := StSkip;
           r_message := msg_already |}
  else
    r <- import_bgl file_path ;;
    ret {| r_file := Some file_name;
           r_status := if fst r then StSuccess else StError;
           r_message := snd r |}.

Fixpoint scan_files `{Env} (existing_paths : gset string)
    (files : list string) : M (list scan_result) :=
  match files with
  | [] => ret []
  | file_path :: rest =>
      r <- scan_file existing_paths file_path ;;
      rs <- scan_files existing_paths rest ;;
      ret (r :: rs)
  end.

(** [DictionaryManager.scan_and_import]; [None] when [iterdir] raises,
    which the method does not catch. *)
Definition scan_and_import `{Env} (directory : string)
    : M (option (list scan_result)) :=
  fs <- gets w_fs ;;
  if negb (os_path_exists fs directory) then
    ret (Some [ {| r_file := None; r_status := StError;
                   r_message := msg_dir_not_found directory |} ])
  else
    match path_iterdir fs directory with
    | None => ret None
    | Some listing =>
        let files := List.filter (eligible fs) listing in
        match files with
        | [] => ret (Some [ {| r_file := None; r_status := StInfo;
                               r_message := msg_no_files |} ])
        | _ :: _ =>
            paths <- query Sql.select_source_paths ;;
            rs <- scan_files (list_to_set paths) files ;;
            ret (Some rs)
        end
    end.

(** *** History *)

(** [DictionaryManager.add_to_history]; [now] is the clock reading the
    insert stores. *)
Definition add_to_history `{Env} (now : Z) (q : string) : M unit :=
  if negb (Text.truthy (Text.strip q)) then ret tt
  else
    cur <- gets current_dict_id ;;
    execute (Sql.insert_history (Text.strip q) cur now) ;;;
    execute Sql.prune_history.

(** [DictionaryManager.get_history] *)
Definition get_history `{Env} (limit : Z) : M (list (string * Z)) :=
  query (Sql.select_history limit).

(** [DictionaryManager.clear_history] *)
Definition clear_history `{Env} : M unit :=
  execute Sql.delete_history.

(** *** Favorites *)

(** [DictionaryManager.add_to_favorites]; [now] is the clock reading the
    insert stores. *)
Definition add_to_favorites `{Env} (now : Z) (word definition : string)
    : M bool :=
  cur <- gets current_dict_id ;;
  found <- query (Sql.exists_favorite word cur) ;;
  if found then ret false
  else
    execute (Sql.insert_favorite word definition cur now) ;;;
    ret true.

(** [DictionaryManager.remove_from_favorites] *)
Definition remove_from_favorites `{Env} (word : string) : M bool :=
  cur <- gets current_dict_id ;;
  rowcount <- query (fun db => fst (Sql.delete_favorite word cur db)) ;;
  execute (fun db => snd (Sql.delete_favorite word cur db)) ;;;
  ret (0 <? rowcount).

(** [DictionaryManager.get_favorites] *)
Definition get_favorites `{Env} (limit : Z) : M (list (string * string * Z)) :=
  query (Sql.select_favorites limit).

(** [DictionaryManager.is_favorite] *)
Definition is_favorite `{Env} (word : string) : M bool :=
  cur <- gets current_dict_id ;;
  query (Sql.exists_favorite word cur).

(** Running a method: its answer and the world it leaves. *)
Definition answer `{Env} {A} (m : M A) (w : world) : A := fst (m w).
Definition after `{Env} {A} (m : M A) (w : world) : world := snd (m w).

End Manager.

(** ** The specification's rules, in its own words *)

Module Spec.

Import Sniffer Manager.

(** The byte strings of the rules, spelled here on their own.  The
    specification gives the two headers of rule 1 and the byte-order mark
    [FE FF] of its scenario; the vendor marker and the regional-vendor
    fragments it leaves unnamed, and they are written as the texts they
    are. *)
Definition header_00_01 : list byte := [x00; x01].
Definition header_01_00 : list byte := [x01; x00].
Definition vendor_marker : list byte := String.list_byte_of_string "BAB".
Definition byte_order_marks : list (list byte) := [[xff; xfe]; [xfe; xff]].
Definition regional_fragments : list (list byte) :=
  [ String.list_byte_of_string "hFarsi";
    String.list_byte_of_string "Aryanpur";
    String.list_byte_of_string "BGL";
    [x1f; x8b] ].

(** Rule 1: the prefix starts with [00 01] or [01 00]. *)
Definition standard_header (h : list byte) : Prop :=
  Bytes.is_prefix header_00_01 h \/ Bytes.is_prefix header_01_00 h.

(** Rule 2: the vendor signature occurs in the prefix, or a byte-order
    mark in its first four bytes. *)
Definition vendor_or_bom (h : list byte) : Prop :=
  Bytes.occurs_in vendor_marker h
  \/ exists bom, In bom byte_order_marks /\ Bytes.occurs_in bom (take 4 h).

(** Rule 3: one of the regional-vendor fragments occurs in the prefix. *)
Definition regional_fragment (h : list byte) : Prop :=
  exists sig, In sig regional_fragments /\ Bytes.occurs_in sig h.

(** The rules in order, the first that applies deciding; a failed read is
    [Clear]. *)
Inductive sniff : read_outcome -> verdict -> Prop :=
| sniff_read_failure e :
    sniff (ReadRaises e) Clear
| sniff_standard content :
    standard_header (take 32 content) ->
    sniff (ReadOk content) Clear
| sniff_encrypted content :
    ~ standard_header (take 32 content) ->
    vendor_or_bom (take 32 content) ->
    sniff (ReadOk content) Encrypted
| sniff_likely content :
    ~ standard_header (take 32 content) ->
    ~ vendor_or_bom (take 32 content) ->
    regional_fragment (take 32 content) ->
    sniff (ReadOk content) LikelyEncrypted
| sniff_unknown content :
    ~ standard_header (take 32 content) ->
    ~ vendor_or_bom (take 32 content) ->
    ~ regional_fragment (take 32 content) ->
    sniff (ReadOk content) Clear.

(** The result record of one scanned file. *)
Definition skipped (f : string) : scan_result :=
  {| r_file := Some (Path.name f); r_status := StSkip;
     r_message := msg_already |}.

Definition ingested (f : string) (outcome : bool * string) : scan_result :=
  {| r_file := Some (Path.name f);
     r_status := if fst outcome then StSuccess else StError;
     r_message := snd outcome |}.

(** A scan of [files] from world [w]: a file whose absolute path is among
    the [recorded] source paths is skipped and the world stays as it is;
    every other file goes through [import_bgl], in the world its
    predecessors left, and whatever comes out is its record. *)
Inductive scan `{Env} (recorded : list string)
  : list string -> world -> list scan_result -> world -> Prop :=
| scan_done w :
    scan recorded [] w [] w
| scan_skip f files w rs w' :
    In (path_absolute f) recorded ->
    scan recorded files w rs w' ->
    scan recorded (f :: files) w (skipped f :: rs) w'
| scan_ingest f files w rs w' :
    ~ In (path_absolute f) recorded ->
    scan recorded files (after (import_bgl f) w) rs w' ->
    scan recorded (f :: files) w
      (ingested f (answer (import_bgl f) w) :: rs) w'.

(** The history table as a ledger: the primary key is a key, and the
    cap of 100 records holds. *)
Definition ledger_ok (db : Sql.database) : Prop :=
  List.NoDup (List.map Sql.h_id (Sql.search_history db))
  /\ List.length (Sql.search_history db) <= 100.

(** A sequence of [add_to_history] calls, each with the clock reading at
    its time. *)
Fixpoint record_all `{Env} (calls : list (Z * string)) : M unit :=
  match calls with
  | [] => ret tt
  | (now, q) :: rest => add_to_history now q ;;; record_all rest
  end.

(** Newest first. *)
Definition newer_or_same (a b : string * Z) : Prop := (snd b <= snd a)%Z.

(** The store after the three statements of a successful ingestion, for
    the dictionary [name] read from [source] with the batch [cleaned]. *)
Definition ingested_db (name source : string)
    (cleaned : list (string * string)) (db : Sql.database) : Sql.database :=
  Sql.insert_entries (Sql.new_dictionary_id db) cleaned
    (Sql.delete_entries (Sql.new_dictionary_id db)
       (Sql.replace_dictionary Sql.foreign_keys name source
          (List.length cleaned) db)).

(** Every entry refers to a dictionary id that has been handed out: the
    state of a store that only the manager has written to. *)
Definition entries_refer_back (db : Sql.database) : Prop :=
  Forall (fun e => Sql.e_dictionary_id e < Sql.new_dictionary_id db)
    (Sql.entries db).

(** What a row of [entries] holds besides its rowid. *)
Definition entry_content (e : Sql.entry) : nat * (string * string) :=
  (Sql.e_dictionary_id e, (Sql.e_word e, Sql.e_definition e)).

(** The separator rule of the name derivation: [.], [-] and the space
    become [_]. *)
Definition separator (c : ascii) : ascii :=
  if Ascii.eqb c "."%char || Ascii.eqb c "-"%char || Ascii.eqb c " "%char
  then "_"%char else c.

(** A text without the two pattern characters of LIKE. *)
Fixpoint wildcard_free (s : string) : bool :=
match s with
| EmptyString => true
| String c s' =>
    negb (Ascii.eqb c Sql.percent) && negb (Ascii.eqb c Sql.underscore)
    && wildcard_free s'
end.

(** A text without U+0000. *)
Fixpoint nul_free (s : string) : bool :=
match s with
| EmptyString => true
| String c s' => negb (Ascii.eqb c Ascii.zero) && nul_free s'
end.

(** Ascending by word. *)
Definition word_le (a b : string * string) : Prop :=
String.leb (fst a) (fst b) = true.

(** [lower(word).startswith(lower(trim(q)))] *)
Definition prefix_match (q word : string) : bool :=
  Text.startswith (Text.lower (Text.strip q)) (Text.lower word).

End Spec.

(** ** A small machine to run the manager on

    An in-memory file system (an association list from absolute paths to
    contents, directories implied by the paths) and a decoder given by a
    table. *)

Module Machine.

Definition files := list (string * list byte).

Fixpoint lookup (fs : files) (p : string) : option (list byte) :=
  match fs with
  | [] => None
  | (q, c) :: fs' => if String.eqb q p then Some c else lookup fs' p
  end.

Definition in_dir (d p : string) : bool :=
  String.eqb (Path.parent_prefix p) (String.app d "/").

Definition is_dir (fs : files) (d : string) : bool :=
  existsb (fun e => in_dir d (fst e)) fs.

Definition env_with (decoder : string -> decode_outcome)
    (fault : nat -> option exception) : Env :=
  {| FS := files;
     os_path_abspath := fun p => p;
     os_path_exists :=
       fun fs p => match lookup fs p with
                   | Some _ => true
                   | None => is_dir fs p
                   end;
     open_rb :=
       fun fs p => match lookup fs p with
                   | Some c => ReadOk c
                   | None => ReadRaises "[Errno 2] No such file or directory"
                   end;
     path_resolve := fun _ p => p;
     path_absolute := fun p => p;
     shutil_copy2 :=
       fun fs src dst => match lookup fs src with
                         | Some c => Some ((dst, c) :: fs)
                         | None => None
                         end;
     glossary_read := fun _ p => decoder p;
     path_iterdir :=
       fun fs d => if is_dir fs d
                   then Some (List.map fst (List.filter (fun e => in_dir d (fst e)) fs))
                   else None;
     path_is_file :=
       fun fs p => match lookup fs p with Some _ => true | None => false end;
     sqlite_fault := fun _ _ n => fault n
  |}.

(** The machine on which SQLite raises nothing. *)
Definition env (decoder : string -> decode_outcome) : Env :=
  env_with decoder (fun _ => None).

Definition item (w d : string) : glossary_entry :=
  {| isData := false; s_word := w; defi := d |}.

(** A clear header, and one that starts with FE FF. *)
Definition clear_bytes : list byte := [x00; x01; x12; x34].
Definition bom_bytes : list byte := [xfe; xff; x12; x34].

(** A decoder that knows one glossary of two entries, under two paths. *)
Definition decoder1 (p : string) : decode_outcome :=
  if String.eqb p "/d/farsi-basic.bgl" || String.eqb p "/d/new.bgl"
  then Decoded [item "salam" "hello"; item " ab " "water "] None
  else DirectReadRaises "cannot read".

Definition fs1 : files :=
  [ ("/d/farsi-basic.bgl", clear_bytes);
    ("/d/locked.bgl", bom_bytes);
    ("/d/locked.txt", bom_bytes);
    ("/d/new.bgl", clear_bytes) ].

(** The machine with that decoder, and a new manager on [fs1]. *)
Definition E1 : Env := env decoder1.
Definition w0 : @Manager.world E1 := @Manager.init E1 fs1.

(** The world after ingesting the first file: dictionary 1 is active. *)
Definition w1 : @Manager.world E1 :=
  Manager.after (Manager.import_bgl (H := E1) "/d/farsi-basic.bgl") w0.

(** The world after ingesting the same file, unchanged, once more. *)
Definition w2 : @Manager.world E1 :=
  Manager.after (Manager.import_bgl (H := E1) "/d/farsi-basic.bgl") w1.

(** 101 searches, one a second, the third of them blank. *)
Definition calls101 : list (Z * string) :=
  List.map (fun i => (Z.of_nat i, if i =? 2 then "  " else "salam"))
    (List.seq 0 101).

(** The world after one recorded search. *)
Definition w_searched : @Manager.world E1 :=
  Manager.after (Manager.add_to_history (H := E1) 1%Z "salam") w0.

(** A directory with one dictionary and one other file, and the world
    after the dictionary has been ingested. *)
Definition fs2 : files :=
  [ ("/d/farsi-basic.bgl", clear_bytes); ("/d/notes.txt", clear_bytes) ].
Definition u1 : @Manager.world E1 :=
  Manager.after (Manager.import_bgl (H := E1) "/d/farsi-basic.bgl")
    (@Manager.init E1 fs2).

(** The machine with that decoder on which the [n]-th call of the
    ingestion's transaction finds the disk full, and the world [w1] on
    it. *)
Definition disk_full : exception :=
  {| exn_type := "OperationalError";
     exn_text := "database or disk is full" |}.
Definition F1 (n : nat) : Env :=
  env_with decoder1 (fun k => if k =? n then Some disk_full else None).
Definition f1 (n : nat) : @Manager.world (F1 n) :=
  @Manager.Build_world (F1 n) fs1 (Manager.w_db w1) (Some 1) [].

(** A machine whose decoder does the same thing with every file, and a new
    manager on [fs1] over it. *)
Definition stub (o : decode_outcome) : Env := env (fun _ => o).
Definition s0 (o : decode_outcome) : @Manager.world (stub o) :=
  @Manager.init (stub o) fs1.

End Machine.

(** ** The window's handler of a finished scan ([src/main.py])

    The part of [ModernDictApp._on_scan_finished] that computes: the count
    of imported files and the lines of the warning.  The widgets it then
    writes to are left out, and a line is kept as the two values its text
    is formatted from, [e['file']] and [e['message']]. *)

Module Ui.

(** [sum(1 for r in results if r['status'] == 'success')] *)
Definition import_count (results : list Manager.scan_result) : nat :=
  List.length
    (List.filter
       (fun r => match Manager.r_status r with
                 | Manager.StSuccess => true
                 | _ => false
                 end)
       results).

(** [[r for r in results if r['status'] == 'error']] *)
Definition errors (results : list Manager.scan_result)
    : list Manager.scan_result :=
  List.filter
    (fun r => match Manager.r_status r with
              | Manager.StError => true
              | _ => false
              end)
    results.

(** The comprehension over [errors] that reads [e['file']] and
    [e['message']] of each: [None] when a record has no ["file"] key and
    the subscript raises [KeyError]. *)
Fixpoint lines (errs : list Manager.scan_result)
    : option (list (string * string)) :=
  match errs with
  | [] => Some []
  | e :: rest =>
      match Manager.r_file e with
      | None => None
      | Some file =>
          match lines rest with
          | None => None
          | Some ls => Some ((file, Manager.r_message e) :: ls)
          end
      end
  end.

(** What the handler does about errors: nothing when there are none, a
    warning with its lines, or the [KeyError]. *)
Inductive report :=
| NoWarning
| Warning (ls : list (string * string))
| RaisesKeyError.

Definition on_scan_finished (results : list Manager.scan_result)
    : nat * report :=
  (import_count results,
   match errors results with
   | [] => NoWarning
   | e :: rest =>
       match lines (e :: rest) with
       | Some ls => Warning ls
       | None => RaisesKeyError
       end
   end).

End Ui.

(** ** Conditions on the store and on text, for the further properties *)

Module Inv.

(** The constraints of the schema on [dictionaries] and [entries]: the
    name is UNIQUE, the ids are primary keys. *)
Definition store_ok (db : Sql.database) : Prop :=
  List.NoDup (List.map Sql.d_name (Sql.dictionaries db))
  /\ List.NoDup (List.map Sql.d_id (Sql.dictionaries db))
  /\ List.NoDup (List.map Sql.e_id (Sql.entries db)).

(** A text that is not empty and has no whitespace at either end. *)
Definition trimmed (s : string) : Prop :=
  s <> EmptyString /\ Text.strip s = s.

(** [k] occurs in [s]. *)
Definition occurs (k s : string) : Prop :=
  exists h t, s = String.app h (String.app k t).

(** The (word, dictionary) pairs of the favorites that refer to a
    dictionary. *)
Fixpoint favorite_keys (rows : list Sql.favorite) : list (string * nat) :=
  match rows with
  | [] => []
  | f :: rows' =>
      match Sql.f_dictionary_id f with
      | Some i => (Sql.f_word f, i) :: favorite_keys rows'
      | None => favorite_keys rows'
      end
  end.

(** No word is a favorite twice under one dictionary. *)
Definition favorites_unique (db : Sql.database) : Prop :=
  List.NoDup (favorite_keys (Sql.favorites db)).

(** Every favorite that refers to a dictionary refers to an id that has
    been handed out: the state of a store that only the manager has
    written to. *)
Definition favorites_refer_back (db : Sql.database) : Prop :=
  Forall (fun f => match Sql.f_dictionary_id f with
                   | Some i => i < Sql.new_dictionary_id db
                   | None => True
                   end) (Sql.favorites db).

(** The active-dictionary pointer is unset or refers to a row of
    [dictionaries]. *)
Definition pointer_ok `{Env} (w : Manager.world) : Prop :=
  match Manager.current_dict_id w with
  | None => True
  | Some i => exists d, In d (Sql.dictionaries (Manager.w_db w))
                        /\ Sql.d_id d = i
  end.

(** Ascending by name. *)
Definition name_le (a b : nat * string * nat) : Prop :=
  String.leb (snd (fst a)) (snd (fst b)) = true.

(** One call on the favorites: a dictionary is chosen, then a word is
    added or removed. *)
Inductive favorite_call :=
| Choose (dict_id : nat)
| Add (now : Z) (word definition : string)
| Remove (word : string).

Definition run_call `{Env} (c : favorite_call) : Manager.M unit :=
  match c with
  | Choose i => Manager.bind (Manager.set_active_dictionary i)
                  (fun _ => Manager.ret tt)
  | Add now w d => Manager.bind (Manager.add_to_favorites now w d)
                     (fun _ => Manager.ret tt)
  | Remove w => Manager.bind (Manager.remove_from_favorites w)
                  (fun _ => Manager.ret tt)
  end.

Fixpoint run_calls `{Env} (cs : list favorite_call) : Manager.M unit :=
  match cs with
  | [] => Manager.ret tt
  | c :: rest => Manager.bind (run_call c) (fun _ => run_calls rest)
  end.

End Inv.

(** * Properties *)

(** ** Bytes: the tests decide what they are named after *)

Lemma bytes_startswith_spec (p l : list byte) :
  Bytes.startswith p l = true <-> Bytes.is_prefix p l.
Proof.
  revert l. induction p as [|a p IH]; intros l; simpl.
  - split; [intros _; exists l; reflexivity | reflexivity].
  - destruct l as [|b l].
    + split; [discriminate | intros [t Ht]; discriminate Ht].
    + rewrite andb_true_iff, IH. split.
      * intros [Hab [t Ht]]. apply Byte.byte_dec_bl in Hab. subst.
        exists t. reflexivity.
      * intros [t Ht]. injection Ht as -> ->. split.
        -- apply Byte.byte_dec_lb. reflexivity.
        -- exists t. reflexivity.
Qed.

Lemma bytes_contains_spec (k l : list byte) :
  Bytes.contains k l = true <-> Bytes.occurs_in k l.
Proof.
  induction l as [|b l IH]; simpl.
  - rewrite orb_false_r, bytes_startswith_spec. split.
    + intros [t Ht]. exists [], t. exact Ht.
    + intros [h [t Ht]]. destruct h as [|x h]; [|discriminate Ht].
      exists t. exact Ht.
  - rewrite orb_true_iff, bytes_startswith_spec, IH. split.
    + intros [[t Ht] | [h [t Ht]]].
      * exists [], t. exact Ht.
      * exists (b :: h), t. simpl. rewrite Ht. reflexivity.
    + intros [h [t Ht]]. destruct h as [|x h].
      * left. exists t. exact Ht.
      * right. injection Ht as _ Ht. exists h, t. exact Ht.
Qed.

Lemma std_header_spec (h : list byte) :
  Sniffer.std_header h = true <-> Spec.standard_header h.
Proof.
  unfold Sniffer.std_header, Spec.standard_header.
  rewrite orb_true_iff, !bytes_startswith_spec. reflexivity.
Qed.

Lemma vendor_or_bom_spec (h : list byte) :
  Bytes.contains Sniffer.sig_BAB h
  || Bytes.contains Sniffer.sig_bom_le (take 4 h)
  || Bytes.contains Sniffer.sig_bom_be (take 4 h) = true
  <-> Spec.vendor_or_bom h.
Proof.
  unfold Spec.vendor_or_bom.
  rewrite !orb_true_iff, !bytes_contains_spec. split.
  - intros [[Hv | Hle] | Hbe].
    + left. exact Hv.
    + right. exists [xff; xfe]. split; [left; reflexivity|exact Hle].
    + right. exists [xfe; xff]. split; [right; left; reflexivity|exact Hbe].
  - intros [Hv | [bom [[<- | [<- | []]] Hb]]].
    + left. left. exact Hv.
    + left. right. exact Hb.
    + right. exact Hb.
Qed.

Lemma regional_fragment_spec (h : list byte) :
  existsb (fun sig => Bytes.contains sig h) Sniffer.vendor_sigs = true
  <-> Spec.regional_fragment h.
Proof.
  unfold Spec.regional_fragment. rewrite existsb_exists. split.
  - intros [sig [Hin Hc]]. exists sig. split; [exact Hin|].
    apply bytes_contains_spec, Hc.
  - intros [sig [Hin Hc]]. exists sig. split; [exact Hin|].
    apply bytes_contains_spec, Hc.
Qed.

(** The signatures are the byte strings of the source. *)
Example signatures_spelled :
  Sniffer.sig_BAB = String.list_byte_of_string "BAB"
  /\ Sniffer.sig_hFarsi = String.list_byte_of_string "hFarsi"
  /\ Sniffer.sig_Aryanpur = String.list_byte_of_string "Aryanpur"
  /\ Sniffer.sig_BGL = String.list_byte_of_string "BGL".
Proof. repeat split. Qed.

(** The verdict of the header check, rule by rule. *)
Lemma check_header_verdict (h : list byte) :
  Sniffer.verdict_of (Sniffer.check_header h) =
    if Sniffer.std_header h then Sniffer.Clear
    else if Bytes.contains Sniffer.sig_BAB h
            || Bytes.contains Sniffer.sig_bom_le (take 4 h)
            || Bytes.contains Sniffer.sig_bom_be (take 4 h)
         then Sniffer.Encrypted
         else if existsb (fun sig => Bytes.contains sig h) Sniffer.vendor_sigs
              then Sniffer.LikelyEncrypted
              else Sniffer.Clear.
Proof.
  unfold Sniffer.check_header.
  destruct (Sniffer.std_header h) eqn:Hstd; [reflexivity|].
  destruct (Bytes.contains Sniffer.sig_BAB h
            || Bytes.contains Sniffer.sig_bom_le (take 4 h)
            || Bytes.contains Sniffer.sig_bom_be (take 4 h)); [reflexivity|].
  destruct (existsb _ Sniffer.vendor_sigs); reflexivity.
Qed.

(** C4. The sniffer follows the rules of the specification in order, the
    first that applies deciding: a prefix that starts with [00 01] or
    [01 00] is Clear; otherwise the vendor signature in the prefix or a
    byte-order mark in its first four bytes make it Encrypted; otherwise a
    regional-vendor fragment in the prefix makes it LikelyEncrypted;
    otherwise it is Clear; and a failed read is Clear.  The verdict of
    [_is_encrypted_bgl] is the one verdict these rules allow. *)
Theorem C4_sniffer_rules `{Env} (fs : FS) (path : string) (v : Sniffer.verdict) :
  Spec.sniff (open_rb fs path) v
  <-> v = Sniffer.verdict_of (Sniffer._is_encrypted_bgl fs path).
Proof.
  unfold Sniffer._is_encrypted_bgl.
  destruct (open_rb fs path) as [content | e].
  - rewrite check_header_verdict.
    pose proof (std_header_spec (take 32 content)) as Hs.
    pose proof (vendor_or_bom_spec (take 32 content)) as Hv.
    pose proof (regional_fragment_spec (take 32 content)) as Hr.
    destruct (Sniffer.std_header (take 32 content)).
    { split.
      - inversion 1; subst; try reflexivity;
          match goal with
          | HN : ~ Spec.standard_header _ |- _ =>
              exfalso; apply HN, Hs; reflexivity
          end.
      - intros ->. apply Spec.sniff_standard, Hs. reflexivity. }
    assert (Hns : ~ Spec.standard_header (take 32 content))
      by (intros Hc; apply Hs in Hc; discriminate Hc).
    destruct (Bytes.contains Sniffer.sig_BAB (take 32 content)
              || Bytes.contains Sniffer.sig_bom_le (take 4 (take 32 content))
              || Bytes.contains Sniffer.sig_bom_be (take 4 (take 32 content))).
    { assert (Hvb : Spec.vendor_or_bom (take 32 content))
        by (apply Hv; reflexivity).
      split.
      - inversion 1; subst; try reflexivity; contradiction.
      - intros ->. apply Spec.sniff_encrypted; assumption. }
    assert (Hnv : ~ Spec.vendor_or_bom (take 32 content))
      by (intros Hc; apply Hv in Hc; discriminate Hc).
    destruct (existsb _ Sniffer.vendor_sigs).
    { assert (Hrf : Spec.regional_fragment (take 32 content))
        by (apply Hr; reflexivity).
      split.
      - inversion 1; subst; try reflexivity; contradiction.
      - intros ->. apply Spec.sniff_likely; assumption. }
    assert (Hnr : ~ Spec.regional_fragment (take 32 content))
      by (intros Hc; apply Hr in Hc; discriminate Hc).
    split.
    + inversion 1; subst; try reflexivity; contradiction.
    + intros ->. apply Spec.sniff_unknown; assumption.
  - split.
    + inversion 1. reflexivity.
    + intros ->. constructor.
Qed.

(** The rules at work: a standard header wins over a vendor marker behind
    it; [FE FF] at the start is Encrypted, behind the fourth byte it is
    not; a fragment alone is LikelyEncrypted; nothing known is Clear. *)
Example sniffer_run :
  List.map (fun h => Sniffer.verdict_of (Sniffer.check_header h))
    [ [x00; x01; x42; x41; x42];
      [xfe; xff; x12; x34];
      [x12; x34; x56; xfe; xff];
      [x12; x42; x47; x4c];
      [x12; x34];
      [] ]
  = [ Sniffer.Clear; Sniffer.Encrypted; Sniffer.Clear;
      Sniffer.LikelyEncrypted; Sniffer.Clear; Sniffer.Clear ].
Proof. reflexivity. Qed.

(** ** Running the monad *)

Ltac run :=
  cbv beta iota zeta delta
    [Manager.answer Manager.after Manager.bind Manager.ret Manager.gets
     Manager.query Manager.execute Manager.set_current Manager.set_fs
     Manager.decode] in *;
  cbn [fst snd] in *.

Lemma world_eta `{Env} (w : Manager.world) :
  {| Manager.w_fs := Manager.w_fs w; Manager.w_db := Manager.w_db w;
     Manager.current_dict_id := Manager.current_dict_id w;
     Manager.decoder_calls := Manager.decoder_calls w |} = w.
Proof. destruct w; reflexivity. Qed.

(** ** Ingestion: the encryption check *)

Lemma verdict_not_clear (r : bool * string) :
  Sniffer.verdict_of r = Sniffer.Encrypted
  \/ Sniffer.verdict_of r = Sniffer.LikelyEncrypted ->
  fst r = true.
Proof.
  destruct r as [[|] reason]; simpl; [reflexivity|].
  intros [Hc | Hc]; discriminate Hc.
Qed.

(** C3. The sniffer is the second step of the pipeline: it runs on the
    files that passed the first, which exist and carry the [.bgl]
    extension.  For every such file whose sniffer verdict is Encrypted or
    LikelyEncrypted, ingestion fails at once with the encryption-detected
    message built from the sniffer's reason, and the world is left exactly
    as it was: the decoder trace has not grown (the decoder was not
    called), and the store, the session pointer and the file system are
    unchanged. *)
Theorem C3_encrypted_rejected `{Env} (w : Manager.world) (path : string) :
  os_path_exists (Manager.w_fs w) (os_path_abspath path) = true ->
  Text.endswith ".bgl" (Text.lower (os_path_abspath path)) = true ->
  Sniffer.verdict_of
    (Sniffer._is_encrypted_bgl (Manager.w_fs w) (os_path_abspath path))
    = Sniffer.Encrypted
  \/ Sniffer.verdict_of
       (Sniffer._is_encrypted_bgl (Manager.w_fs w) (os_path_abspath path))
     = Sniffer.LikelyEncrypted ->
  Manager.import_bgl path w =
    ((false,
      Manager.msg_encryption_detected
        (snd (Sniffer._is_encrypted_bgl (Manager.w_fs w)
                (os_path_abspath path)))),
     w).
Proof.
  intros Hex Hext Hv. apply verdict_not_clear in Hv.
  unfold Manager.import_bgl. run. rewrite Hex, Hext. cbn [negb].
  destruct (Sniffer._is_encrypted_bgl _ _) as [b hint].
  cbn [fst snd] in *. subst b. reflexivity.
Qed.

Lemma C3_encrypted_rejected_witness :
  Manager.import_bgl (H := Machine.E1) "/d/locked.bgl" Machine.w0 =
    ((false, Manager.msg_encryption_detected Sniffer.msg_encrypted),
     Machine.w0)
  /\ Manager.decoder_calls
       (Manager.after (Manager.import_bgl (H := Machine.E1) "/d/locked.bgl")
          Machine.w0) = [].
Proof.
  assert (Hr : Manager.import_bgl (H := Machine.E1) "/d/locked.bgl" Machine.w0 =
    ((false, Manager.msg_encryption_detected Sniffer.msg_encrypted),
     Machine.w0)).
  { apply (C3_encrypted_rejected (H := Machine.E1) Machine.w0 "/d/locked.bgl").
    - reflexivity.
    - reflexivity.
    - left. reflexivity. }
  split; [exact Hr|].
  unfold Manager.after. rewrite Hr. reflexivity.
Defined.

(** The first step comes first: a file with the same bytes under a name
    that does not end in [.bgl] is turned away by the extension check, and
    the sniffer is not asked. *)
Example extension_check_comes_first :
  Manager.import_bgl (H := Machine.E1) "/d/locked.txt" Machine.w0
  = ((false, Manager.msg_extension), Machine.w0).
Proof. reflexivity. Qed.

(** ** Search without an active dictionary or with a blank query *)

(** C7. Whatever the query, [search] and [get_suggestions] answer with the
    empty list when no dictionary is active; they answer with the empty
    list when the query is blank after trimming; and neither changes the
    world. *)
Theorem C7_search_guards `{Env} (w : Manager.world) (q : string) (limit : Z) :
  (Manager.current_dict_id w = None ->
     Manager.answer (Manager.search q limit) w = []
     /\ Manager.answer (Manager.get_suggestions q limit) w = [])
  /\ (Text.strip q = EmptyString ->
        Manager.answer (Manager.search q limit) w = []
        /\ Manager.answer (Manager.get_suggestions q limit) w = [])
  /\ Manager.after (Manager.search q limit) w = w
  /\ Manager.after (Manager.get_suggestions q limit) w = w.
Proof.
  unfold Manager.search, Manager.get_suggestions. run.
  split; [|split; [|split]].
  - intros ->. split; reflexivity.
  - intros ->. rewrite orb_true_r. split; reflexivity.
  - destruct (negb _ || negb _); reflexivity.
  - destruct (negb _ || negb _); reflexivity.
Qed.

Lemma C7_search_guards_witness :
  (Manager.current_dict_id Machine.w0 = None
   /\ Manager.answer (Manager.search (H := Machine.E1) "salam" 20) Machine.w0
      = []
   /\ Manager.answer (Manager.get_suggestions (H := Machine.E1) "salam" 20)
        Machine.w0 = [])
  /\ (Manager.current_dict_id Machine.w1 = Some 1
      /\ Text.strip "  " = EmptyString
      /\ Manager.answer (Manager.search (H := Machine.E1) "  " 20) Machine.w1
         = []
      /\ Manager.answer (Manager.get_suggestions (H := Machine.E1) "  " 20)
           Machine.w1 = []).
Proof.
  split.
  - split; [reflexivity|].
    exact (proj1 (C7_search_guards (H := Machine.E1) Machine.w0 "salam" 20)
             eq_refl).
  - split; [reflexivity|]. split; [reflexivity|].
    exact (proj1 (proj2
             (C7_search_guards (H := Machine.E1) Machine.w1 "  " 20))
             eq_refl).
Defined.

(** ** Favorites *)

Lemma eq_param_some (a b : nat) :
  Sql.eq_param (Some a) (Some b) = true <-> a = b.
Proof. simpl. apply Nat.eqb_eq. Qed.

Lemma eq_param_null (column : option nat) :
  Sql.eq_param column None = false.
Proof. destruct column; reflexivity. Qed.

Lemma is_favorite_row_null (word : string) (f : Sql.favorite) :
  Sql.is_favorite_row word None f = false.
Proof.
  unfold Sql.is_favorite_row. rewrite eq_param_null. apply andb_false_r.
Qed.

Lemma filter_all {A} (p : A -> bool) (l : list A) :
  (forall x, In x l -> p x = true) -> List.filter p l = l.
Proof.
  induction l as [|a l IH]; intros Hp; simpl; [reflexivity|].
  rewrite (Hp a (or_introl eq_refl)). f_equal.
  apply IH. intros x Hx. apply Hp. right. exact Hx.
Qed.

Lemma filter_none {A} (p : A -> bool) (l : list A) :
  (forall x, In x l -> p x = false) -> List.filter p l = [].
Proof.
  induction l as [|a l IH]; intros Hp; simpl; [reflexivity|].
  rewrite (Hp a (or_introl eq_refl)).
  apply IH. intros x Hx. apply Hp. right. exact Hx.
Qed.

Lemma with_favorites_same (db : Sql.database) :
  Sql.with_favorites (Sql.favorites db) (Sql.seq_favorites db) db = db.
Proof. destruct db; reflexivity. Qed.

Lemma exists_favorite_false (word : string) (id : nat) (db : Sql.database) :
  Forall (fun f => ~ (Sql.f_word f = word /\ Sql.f_dictionary_id f = Some id))
    (Sql.favorites db) ->
  Sql.exists_favorite word (Some id) db = false.
Proof.
  unfold Sql.exists_favorite. intros Hall.
  induction Hall as [|f l Hf _ IH]; simpl; [reflexivity|].
  rewrite IH, orb_false_r. unfold Sql.is_favorite_row.
  destruct (String.eqb_spec (Sql.f_word f) word) as [Hw|]; [|reflexivity].
  destruct (Sql.f_dictionary_id f) as [a|]; [|reflexivity].
  simpl. apply Nat.eqb_neq. intros ->. apply Hf. split; [exact Hw|reflexivity].
Qed.

(** C6. With a dictionary active and the word not yet a favorite under it,
    the first [add_to_favorites(w, d)] answers [True] and appends exactly
    one row; the second answers [False] and leaves the world, and so the
    number of favorites rows, as the first call left it. *)
Theorem C6_favorite_added_once `{Env} (w : Manager.world) (id : nat)
    (now1 now2 : Z) (word definition : string) :
  Manager.current_dict_id w = Some id ->
  Forall (fun f => ~ (Sql.f_word f = word /\ Sql.f_dictionary_id f = Some id))
    (Sql.favorites (Manager.w_db w)) ->
  let w1 := Manager.after (Manager.add_to_favorites now1 word definition) w in
  Manager.answer (Manager.add_to_favorites now1 word definition) w = true
  /\ Sql.favorites (Manager.w_db w1) =
       Sql.favorites (Manager.w_db w)
       ++ [Sql.new_favorite (Manager.w_db w) word definition (Some id) now1]
  /\ Manager.add_to_favorites now2 word definition w1 = (false, w1)
  /\ List.length
       (Sql.favorites
          (Manager.w_db
             (Manager.after (Manager.add_to_favorites now2 word definition) w1)))
     = S (List.length (Sql.favorites (Manager.w_db w))).
Proof.
  intros Hcur Hfresh w1.
  assert (Hfirst : Manager.add_to_favorites now1 word definition w =
            (true,
             {| Manager.w_fs := Manager.w_fs w;
                Manager.w_db :=
                  Sql.insert_favorite word definition (Some id) now1
                    (Manager.w_db w);
                Manager.current_dict_id := Some id;
                Manager.decoder_calls := Manager.decoder_calls w |})).
  { unfold Manager.add_to_favorites. run. rewrite Hcur.
    rewrite (exists_favorite_false word id _ Hfresh). cbn beta iota.
    rewrite Hcur. reflexivity. }
  assert (Hsecond : Manager.add_to_favorites now2 word definition w1 =
            (false, w1)).
  { subst w1. unfold Manager.after. rewrite Hfirst. cbn [snd].
    unfold Manager.add_to_favorites. run. cbn.
    unfold Sql.exists_favorite. cbn.
    rewrite existsb_app. cbn. unfold Sql.is_favorite_row at 2. cbn.
    rewrite String.eqb_refl, Nat.eqb_refl. cbn.
    rewrite orb_true_r. reflexivity. }
  split; [|split; [|split]].
  - unfold Manager.answer. rewrite Hfirst. reflexivity.
  - subst w1. unfold Manager.after. rewrite Hfirst. reflexivity.
  - exact Hsecond.
  - unfold Manager.after at 1. rewrite Hsecond. cbn [snd].
    subst w1. unfold Manager.after. rewrite Hfirst. cbn.
    rewrite length_app. cbn. lia.
Qed.

Lemma C6_favorite_added_once_witness :
  Manager.answer
    (Manager.add_to_favorites (H := Machine.E1) 5%Z "salam" "hello") Machine.w1
  = true
  /\ Manager.answer
       (Manager.add_to_favorites (H := Machine.E1) 6%Z "salam" "hello")
       (Manager.after
          (Manager.add_to_favorites (H := Machine.E1) 5%Z "salam" "hello")
          Machine.w1)
     = false.
Proof.
  pose proof (C6_favorite_added_once (H := Machine.E1) Machine.w1 1 5%Z 6%Z
                "salam" "hello" eq_refl (List.Forall_nil _)) as Hc.
  cbv zeta in Hc. destruct Hc as [H1 [_ [H2 _]]].
  split; [exact H1|].
  unfold Manager.answer. rewrite H2. reflexivity.
Defined.

Lemma exists_favorite_null (word : string) (db : Sql.database) :
  Sql.exists_favorite word None db = false.
Proof.
  unfold Sql.exists_favorite.
  induction (Sql.favorites db) as [|f l IH]; simpl; [reflexivity|].
  rewrite is_favorite_row_null, IH. reflexivity.
Qed.

Lemma delete_favorite_null (word : string) (db : Sql.database) :
  Sql.delete_favorite word None db = (0, db).
Proof.
  unfold Sql.delete_favorite. f_equal.
  - rewrite filter_none; [reflexivity|].
    intros f _. apply is_favorite_row_null.
  - rewrite filter_all.
    + apply with_favorites_same.
    + intros f _. rewrite is_favorite_row_null. reflexivity.
Qed.

(** One [add_to_favorites] with the session pointer unset. *)
Lemma add_to_favorites_null `{Env} (w : Manager.world) (now : Z)
    (word definition : string) :
  Manager.current_dict_id w = None ->
  Manager.add_to_favorites now word definition w =
    (true,
     {| Manager.w_fs := Manager.w_fs w;
        Manager.w_db :=
          Sql.insert_favorite word definition None now (Manager.w_db w);
        Manager.current_dict_id := None;
        Manager.decoder_calls := Manager.decoder_calls w |}).
Proof.
  intros Hcur. unfold Manager.add_to_favorites. run. rewrite Hcur.
  rewrite exists_favorite_null. cbn beta iota. rewrite Hcur. reflexivity.
Qed.

(** C10. With no dictionary active the pointer is bound as NULL, and a
    comparison with NULL never holds: every [add_to_favorites(w, d)]
    answers [True] and appends a row with a NULL dictionary reference, so a
    second add of the same word appends a second row for it;
    [is_favorite] answers [False] for every word, and
    [remove_from_favorites] answers [False] and removes nothing. *)
Theorem C10_favorites_without_dictionary `{Env} (w : Manager.world)
    (now1 now2 : Z) (word d1 d2 other : string) :
  Manager.current_dict_id w = None ->
  let w1 := Manager.after (Manager.add_to_favorites now1 word d1) w in
  let w2 := Manager.after (Manager.add_to_favorites now2 word d2) w1 in
  Manager.answer (Manager.add_to_favorites now1 word d1) w = true
  /\ Manager.answer (Manager.add_to_favorites now2 word d2) w1 = true
  /\ Sql.favorites (Manager.w_db w2) =
       Sql.favorites (Manager.w_db w)
       ++ [ Sql.new_favorite (Manager.w_db w) word d1 None now1;
            Sql.new_favorite (Manager.w_db w1) word d2 None now2 ]
  /\ Manager.is_favorite other w = (false, w)
  /\ Manager.is_favorite other w2 = (false, w2)
  /\ Manager.remove_from_favorites other w = (false, w)
  /\ Manager.remove_from_favorites other w2 = (false, w2).
Proof.
  intros Hcur w1 w2.
  pose proof (add_to_favorites_null w now1 word d1 Hcur) as H1.
  assert (Hcur1 : Manager.current_dict_id w1 = None).
  { subst w1. unfold Manager.after. rewrite H1. reflexivity. }
  pose proof (add_to_favorites_null w1 now2 word d2 Hcur1) as H2.
  assert (Hcur2 : Manager.current_dict_id w2 = None).
  { subst w2. unfold Manager.after. rewrite H2. reflexivity. }
  assert (Hfav : forall (v : Manager.world),
            Manager.current_dict_id v = None ->
            Manager.is_favorite other v = (false, v)).
  { intros v Hv. unfold Manager.is_favorite. run. rewrite Hv.
    rewrite exists_favorite_null. reflexivity. }
  assert (Hrem : forall (v : Manager.world),
            Manager.current_dict_id v = None ->
            Manager.remove_from_favorites other v = (false, v)).
  { intros [fs db cur calls] Hv. cbn in Hv. subst cur.
    unfold Manager.remove_from_favorites. run.
    cbn [Manager.w_db Manager.current_dict_id Manager.w_fs
         Manager.decoder_calls].
    rewrite delete_favorite_null. reflexivity. }
  split; [|split; [|split; [|split; [|split; [|split]]]]].
  - unfold Manager.answer. rewrite H1. reflexivity.
  - unfold Manager.answer. rewrite H2. reflexivity.
  - subst w2. unfold Manager.after at 1. rewrite H2. cbn.
    subst w1. unfold Manager.after at 1. rewrite H1. cbn.
    rewrite <- app_assoc. reflexivity.
  - apply Hfav, Hcur.
  - apply Hfav, Hcur2.
  - apply Hrem, Hcur.
  - apply Hrem, Hcur2.
Qed.

Lemma C10_favorites_without_dictionary_witness :
  Manager.current_dict_id Machine.w0 = None
  /\ List.length
       (Sql.favorites
          (Manager.w_db
             (Manager.after
                (Manager.add_to_favorites (H := Machine.E1) 2%Z "salam" "hello")
                (Manager.after
                   (Manager.add_to_favorites (H := Machine.E1) 1%Z "salam"
                      "hello")
                   Machine.w0)))) = 2
  /\ Manager.answer (Manager.is_favorite (H := Machine.E1) "salam")
       (Manager.after
          (Manager.add_to_favorites (H := Machine.E1) 2%Z "salam" "hello")
          (Manager.after
             (Manager.add_to_favorites (H := Machine.E1) 1%Z "salam" "hello")
             Machine.w0)) = false.
Proof.
  pose proof (C10_favorites_without_dictionary (H := Machine.E1) Machine.w0
                1%Z 2%Z "salam" "hello" "hello" "salam" eq_refl) as Hc.
  cbv zeta in Hc. destruct Hc as [_ [_ [Hrows [_ [Hfav _]]]]].
  split; [reflexivity|]. split.
  - rewrite Hrows. reflexivity.
  - unfold Manager.answer. rewrite Hfav. reflexivity.
Defined.

(** ** ORDER BY and LIMIT *)

Section OrderBy.

Context {A : Type} (le : A -> A -> bool).

Let R (a b : A) : Prop := le a b = true.

Lemma insert_by_perm (x : A) (l : list A) :
  Permutation (Sql.insert_by le x l) (x :: l).
Proof.
  induction l as [|y l IH]; simpl; [reflexivity|].
  destruct (le x y); [reflexivity|].
  rewrite IH. apply perm_swap.
Qed.

Lemma order_by_perm (l : list A) : Permutation (Sql.order_by le l) l.
Proof.
  induction l as [|x l IH]; simpl; [reflexivity|].
  rewrite insert_by_perm, IH. reflexivity.
Qed.

Lemma order_by_length (l : list A) :
  List.length (Sql.order_by le l) = List.length l.
Proof. apply Permutation_length, order_by_perm. Qed.

Lemma order_by_In (l : list A) (x : A) :
  In x (Sql.order_by le l) <-> In x l.
Proof.
  split; apply Permutation_in;
    [apply order_by_perm | symmetry; apply order_by_perm].
Qed.

Hypothesis le_total : forall a b, le a b = true \/ le b a = true.

Lemma insert_by_hd (y x : A) (l : list A) :
  R y x -> HdRel R y l -> HdRel R y (Sql.insert_by le x l).
Proof.
  intros Hyx Hhd. destruct l as [|z l]; simpl.
  - constructor. exact Hyx.
  - destruct (le x z); constructor; [exact Hyx|].
    inversion Hhd; assumption.
Qed.

Lemma insert_by_sorted (x : A) (l : list A) :
  Sorted R l -> Sorted R (Sql.insert_by le x l).
Proof.
  induction 1 as [|y l Hs IH Hhd]; simpl.
  - repeat constructor.
  - destruct (le x y) eqn:Hxy.
    + constructor; [constructor; assumption|]. constructor. exact Hxy.
    + constructor; [exact IH|]. apply insert_by_hd; [|exact Hhd].
      destruct (le_total x y) as [Hc|Hc]; [congruence|exact Hc].
Qed.

(** The rows come out in order. *)
Lemma order_by_sorted (l : list A) : Sorted R (Sql.order_by le l).
Proof.
  induction l as [|x l IH]; simpl; [constructor|].
  apply insert_by_sorted, IH.
Qed.

Hypothesis le_trans :
  forall a b c, le a b = true -> le b c = true -> le a c = true.

Lemma order_by_strongly_sorted (l : list A) :
  StronglySorted R (Sql.order_by le l).
Proof.
  apply Sorted_StronglySorted; [|apply order_by_sorted].
  intros a b c. apply le_trans.
Qed.

End OrderBy.

Lemma limit_length {A} (n : Z) (l : list A) :
  List.length (Sql.limit n l) <= List.length l.
Proof.
  unfold Sql.limit. destruct (n <? 0)%Z; [lia|].
  rewrite length_take. lia.
Qed.

Lemma limit_length_bound {A} (n : Z) (l : list A) :
  (0 <= n)%Z -> List.length (Sql.limit n l) <= Z.to_nat n.
Proof.
  intros Hn. unfold Sql.limit.
  destruct (Z.ltb_spec n 0) as [Hneg|_]; [lia|].
  rewrite length_take. lia.
Qed.

Lemma limit_length_Z {A} (n : Z) (l : list A) :
  (0 <= n)%Z -> (Z.of_nat (List.length (Sql.limit n l)) <= n)%Z.
Proof. intros Hn. pose proof (limit_length_bound n l Hn). lia. Qed.

Lemma limit_nonneg {A} (n : Z) (l : list A) :
  (0 <= n)%Z -> Sql.limit n l = take (Z.to_nat n) l.
Proof.
  intros Hn. unfold Sql.limit.
  destruct (Z.ltb_spec n 0) as [Hneg|_]; [lia|reflexivity].
Qed.

Lemma limit_In {A} (n : Z) (l : list A) (x : A) :
  In x (Sql.limit n l) -> In x l.
Proof.
  unfold Sql.limit. destruct (n <? 0)%Z; [tauto|].
  intros Hx. rewrite <- (take_drop (Z.to_nat n) l).
  apply in_or_app. left. exact Hx.
Qed.

Lemma StronglySorted_take {A} (R : A -> A -> Prop) (k : nat) (l : list A) :
  StronglySorted R l -> StronglySorted R (take k l).
Proof.
  intros Hs. rewrite <- (take_drop k l) in Hs.
  apply StronglySorted_app in Hs. tauto.
Qed.

Lemma limit_strongly_sorted {A} (R : A -> A -> Prop) (n : Z) (l : list A) :
  StronglySorted R l -> StronglySorted R (Sql.limit n l).
Proof.
  unfold Sql.limit. destruct (n <? 0)%Z; [tauto|].
  apply StronglySorted_take.
Qed.

Lemma StronglySorted_map {A B} (f : A -> B) (R : B -> B -> Prop)
    (l : list A) :
  StronglySorted (fun a b => R (f a) (f b)) l ->
  StronglySorted R (List.map f l).
Proof.
  induction 1 as [|a l Hs IH Hall]; simpl; constructor; [exact IH|].
  apply List.Forall_map. exact Hall.
Qed.

(** ** The history ledger *)

Lemma newer_total (a b : Sql.history) :
  Sql.newer a b = true \/ Sql.newer b a = true.
Proof. unfold Sql.newer. rewrite !Z.leb_le. lia. Qed.

Lemma newer_trans (a b c : Sql.history) :
  Sql.newer a b = true -> Sql.newer b c = true -> Sql.newer a c = true.
Proof. unfold Sql.newer. rewrite !Z.leb_le. lia. Qed.

Lemma newest_first_sorted (rows : list Sql.history) :
  StronglySorted (fun a b => Sql.newer a b = true) (Sql.newest_first rows).
Proof.
  apply (order_by_strongly_sorted Sql.newer newer_total newer_trans).
Qed.

Lemma next_rowid_above (seq : nat) (ids : list nat) (i : nat) :
  In i ids -> i < Sql.next_rowid seq ids.
Proof.
  unfold Sql.next_rowid. induction ids as [|j ids IH]; simpl; [tauto|].
  intros [-> | Hi]; [lia|]. specialize (IH Hi). lia.
Qed.

Lemma next_rowid_fresh (seq : nat) (ids : list nat) :
  ~ In (Sql.next_rowid seq ids) ids.
Proof. intros Hin. apply (next_rowid_above seq) in Hin. lia. Qed.

Lemma NoDup_map_filter {A B} (f : A -> B) (p : A -> bool) (l : list A) :
  List.NoDup (List.map f l) -> List.NoDup (List.map f (List.filter p l)).
Proof.
  induction l as [|a l IH]; simpl; intros Hnd; [constructor|].
  inversion Hnd as [|? ? Hnotin Hnd']; subst.
  destruct (p a); simpl; [|apply IH, Hnd'].
  constructor; [|apply IH, Hnd'].
  intros Hin. apply Hnotin. apply in_map_iff in Hin.
  destruct Hin as [x [Hfx Hx]]. apply filter_In in Hx.
  apply in_map_iff. exists x. tauto.
Qed.

Lemma NoDup_map_injective {A B} (f : A -> B) (l : list A) (x y : A) :
  List.NoDup (List.map f l) -> In x l -> In y l -> f x = f y -> x = y.
Proof.
  induction l as [|a l IH]; simpl; intros Hnd Hx Hy Hf; [tauto|].
  inversion Hnd as [|? ? Hnotin Hnd']; subst.
  destruct Hx as [-> | Hx], Hy as [-> | Hy].
  - reflexivity.
  - exfalso. apply Hnotin. rewrite Hf. apply in_map, Hy.
  - exfalso. apply Hnotin. rewrite <- Hf. apply in_map, Hx.
  - apply IH; assumption.
Qed.

Section Prune.

Variable rows : list Sql.history.
Hypothesis key : List.NoDup (List.map Sql.h_id rows).

Let kept : list Sql.history := Sql.limit 100 (Sql.newest_first rows).
Let pruned : list Sql.history :=
  List.filter (fun h => existsb (Nat.eqb (Sql.h_id h)) (List.map Sql.h_id kept))
    rows.

Lemma kept_in_rows (r : Sql.history) : In r kept -> In r rows.
Proof.
  intros Hr. apply limit_In in Hr.
  apply (proj1 (order_by_In Sql.newer rows r)). exact Hr.
Qed.

Lemma pruned_iff_kept (r : Sql.history) : In r pruned <-> In r kept.
Proof.
  unfold pruned. rewrite filter_In, existsb_exists. split.
  - intros [Hr [i [Hi Heq]]]. apply Nat.eqb_eq in Heq. subst i.
    apply in_map_iff in Hi. destruct Hi as [k [Hk Hkin]].
    assert (k = r) as ->; [|exact Hkin].
    apply (NoDup_map_injective Sql.h_id rows); auto using kept_in_rows.
  - intros Hr. split; [apply kept_in_rows, Hr|].
    exists (Sql.h_id r). split; [apply in_map, Hr|apply Nat.eqb_refl].
Qed.

Lemma rows_NoDup : List.NoDup rows.
Proof. eapply List.NoDup_map_inv. exact key. Qed.

Lemma kept_length : List.length kept = Nat.min 100 (List.length rows).
Proof.
  unfold kept. rewrite limit_nonneg by lia. rewrite length_take.
  unfold Sql.newest_first. rewrite order_by_length. reflexivity.
Qed.

Lemma pruned_length : List.length pruned = Nat.min 100 (List.length rows).
Proof.
  rewrite <- kept_length. apply Permutation_length.
  apply Permutation.NoDup_Permutation.
  - apply List.NoDup_filter, rows_NoDup.
  - unfold kept. rewrite limit_nonneg by lia.
    assert (Hs : List.NoDup (Sql.newest_first rows)).
    { eapply Permutation.Permutation_NoDup; [|apply rows_NoDup].
      symmetry. apply order_by_perm. }
    rewrite <- (take_drop (Z.to_nat 100) (Sql.newest_first rows)) in Hs.
    apply List.NoDup_app_remove_r in Hs. exact Hs.
  - apply pruned_iff_kept.
Qed.

(** Whatever is pruned is no newer than whatever stays. *)
Lemma pruned_are_newest (stays goes : Sql.history) :
  In stays pruned -> In goes rows -> ~ In goes pruned ->
  (Sql.h_searched_at goes <= Sql.h_searched_at stays)%Z.
Proof.
  rewrite !pruned_iff_kept. unfold kept. rewrite limit_nonneg by lia.
  intros Hs Hg Hng.
  pose proof (newest_first_sorted rows) as Hsorted.
  rewrite <- (take_drop (Z.to_nat 100) (Sql.newest_first rows)) in Hsorted.
  apply StronglySorted_app in Hsorted. destruct Hsorted as [Hcross _].
  apply (proj2 (order_by_In Sql.newer rows goes)) in Hg.
  change (In goes (Sql.newest_first rows)) in Hg.
  rewrite <- (take_drop (Z.to_nat 100) (Sql.newest_first rows)) in Hg.
  apply in_app_or in Hg. destruct Hg as [Hg|Hg]; [contradiction|].
  specialize (Hcross stays goes).
  apply Z.leb_le. apply Hcross; apply list_elem_of_In; assumption.
Qed.

End Prune.

Lemma truthy_false (s : string) : Text.truthy s = false <-> s = EmptyString.
Proof. destruct s; simpl; split; congruence. Qed.

Lemma add_to_history_blank `{Env} (w : Manager.world) (now : Z) (q : string) :
  Text.strip q = EmptyString -> Manager.add_to_history now q w = (tt, w).
Proof. intros Hq. unfold Manager.add_to_history. rewrite Hq. reflexivity. Qed.

Lemma add_to_history_rows `{Env} (w : Manager.world) (now : Z) (q : string) :
  Text.strip q <> EmptyString ->
  Sql.search_history
    (Manager.w_db (Manager.after (Manager.add_to_history now q) w)) =
  List.filter
    (fun h =>
       existsb (Nat.eqb (Sql.h_id h))
         (List.map Sql.h_id
            (Sql.limit 100
               (Sql.newest_first
                  (Sql.search_history (Manager.w_db w)
                   ++ [Sql.new_history (Manager.w_db w) (Text.strip q)
                         (Manager.current_dict_id w) now])))))
    (Sql.search_history (Manager.w_db w)
     ++ [Sql.new_history (Manager.w_db w) (Text.strip q)
           (Manager.current_dict_id w) now]).
Proof.
  intros Hq. unfold Manager.add_to_history.
  destruct (Text.truthy (Text.strip q)) eqn:Ht.
  - run. reflexivity.
  - apply truthy_false in Ht. contradiction.
Qed.

Lemma new_history_key (db : Sql.database) (q : string) (cur : option nat)
    (now : Z) :
  List.NoDup (List.map Sql.h_id (Sql.search_history db)) ->
  List.NoDup
    (List.map Sql.h_id
       (Sql.search_history db ++ [Sql.new_history db q cur now])).
Proof.
  intros Hk. rewrite List.map_app. simpl.
  apply List.NoDup_app; [exact Hk|repeat constructor; simpl; tauto|].
  intros i Hi [<- | []]. revert Hi. apply next_rowid_fresh.
Qed.

Lemma add_to_history_ledger `{Env} (w : Manager.world) (now : Z) (q : string) :
  Spec.ledger_ok (Manager.w_db w) ->
  Spec.ledger_ok
    (Manager.w_db (Manager.after (Manager.add_to_history now q) w)).
Proof.
  intros [Hk Hlen].
  destruct (String.string_dec (Text.strip q) EmptyString) as [Hq|Hq].
  - unfold Manager.after. rewrite add_to_history_blank by exact Hq.
    split; assumption.
  - unfold Spec.ledger_ok. rewrite add_to_history_rows by exact Hq. split.
    + apply NoDup_map_filter, new_history_key, Hk.
    + rewrite pruned_length by apply new_history_key, Hk. lia.
Qed.

Lemma record_all_ledger `{Env} (calls : list (Z * string)) (w : Manager.world) :
  Spec.ledger_ok (Manager.w_db w) ->
  Spec.ledger_ok (Manager.w_db (Manager.after (Spec.record_all calls) w)).
Proof.
  revert w. induction calls as [|[now q] calls IH]; intros w Hok.
  - exact Hok.
  - simpl. run.
    pose proof (add_to_history_ledger w now q Hok) as Hstep.
    unfold Manager.after in Hstep.
    destruct (Manager.add_to_history now q w) as [[] w1]. cbn [snd] in *.
    apply IH, Hstep.
Qed.

Lemma StronglySorted_weaken {A} (R S : A -> A -> Prop) (l : list A) :
  (forall a b, R a b -> S a b) -> StronglySorted R l -> StronglySorted S l.
Proof.
  intros HRS. induction 1 as [|a l Hs IH Hall]; constructor; [exact IH|].
  eapply List.Forall_impl; [|exact Hall]. intros b. apply HRS.
Qed.

Lemma get_history_sorted (n : Z) (db : Sql.database) :
  StronglySorted Spec.newer_or_same (Sql.select_history n db).
Proof.
  unfold Sql.select_history. apply limit_strongly_sorted.
  apply StronglySorted_map.
  eapply StronglySorted_weaken; [|apply newest_first_sorted].
  intros a b Hab. unfold Spec.newer_or_same. simpl.
  apply Z.leb_le. exact Hab.
Qed.

(** C5. From a ledger that respects its key and its cap (a new store
    does), after any sequence of [add_to_history] calls the history table
    holds at most 100 records; [get_history(n)] answers newest first with
    at most 100 records, and with at most [min(n, 100)] of them for a
    count [n], which is not negative; a call with a query that is blank
    after trimming changes nothing; a call with any other query leaves the
    100 newest of the old records and the new one: as many as there were,
    up to 100, and none that goes is newer than one that stays. *)
Theorem C5_history_ledger `{Env} (w : Manager.world) (calls : list (Z * string)) :
  Spec.ledger_ok (Manager.w_db w) ->
  let w' := Manager.after (Spec.record_all calls) w in
  List.length (Sql.search_history (Manager.w_db w')) <= 100
  /\ (forall n : Z,
        let rows := Manager.answer (Manager.get_history n) w' in
        List.length rows <= 100
        /\ ((0 <= n)%Z -> (Z.of_nat (List.length rows) <= Z.min n 100)%Z)
        /\ StronglySorted Spec.newer_or_same rows)
  /\ (forall now q,
        Text.strip q = EmptyString ->
        Manager.add_to_history now q w' = (tt, w'))
  /\ (forall now q,
        Text.strip q <> EmptyString ->
        let before :=
          Sql.search_history (Manager.w_db w')
          ++ [Sql.new_history (Manager.w_db w') (Text.strip q)
                (Manager.current_dict_id w') now] in
        let rows :=
          Sql.search_history
            (Manager.w_db (Manager.after (Manager.add_to_history now q) w')) in
        List.length rows = Nat.min 100 (List.length before)
        /\ (forall r, In r rows -> In r before)
        /\ (forall stays goes,
              In stays rows -> In goes before -> ~ In goes rows ->
              (Sql.h_searched_at goes <= Sql.h_searched_at stays)%Z)).
Proof.
  intros Hok w'.
  pose proof (record_all_ledger calls w Hok) as [Hk Hlen]. fold w' in Hk, Hlen.
  split; [exact Hlen|]. split; [|split].
  - intros n rows.
    assert (Hrows : List.length rows <= 100).
    { subst rows. unfold Manager.get_history. run.
      unfold Sql.select_history.
      etransitivity; [apply limit_length|].
      rewrite List.length_map. unfold Sql.newest_first.
      rewrite order_by_length. exact Hlen. }
    split; [exact Hrows|]. split.
    + intros Hn.
      assert (List.length rows <= Z.to_nat n).
      { subst rows. unfold Manager.get_history. run.
        apply limit_length_bound, Hn. }
      lia.
    + subst rows. unfold Manager.get_history. run. apply get_history_sorted.
  - intros now q Hq. apply add_to_history_blank, Hq.
  - intros now q Hq before rows. subst rows.
    rewrite add_to_history_rows by exact Hq. fold before.
    assert (Hkey : List.NoDup (List.map Sql.h_id before))
      by apply new_history_key, Hk.
    split; [apply pruned_length, Hkey|]. split.
    + intros r Hr. apply filter_In in Hr. tauto.
    + intros stays goes. apply pruned_are_newest, Hkey.
Qed.

Lemma C5_history_ledger_witness :
  Spec.ledger_ok (Manager.w_db Machine.w0)
  /\ List.length
       (Sql.search_history
          (Manager.w_db
             (Manager.after (Spec.record_all (H := Machine.E1) Machine.calls101)
                Machine.w0))) <= 100
  /\ (Z.of_nat
        (List.length
           (Manager.answer (Manager.get_history 5)
              (Manager.after
                 (Spec.record_all (H := Machine.E1) Machine.calls101)
                 Machine.w0)))
      <= Z.min 5 100)%Z.
Proof.
  assert (Hok : Spec.ledger_ok (Manager.w_db Machine.w0)).
  { split; [constructor | cbn; lia]. }
  split; [exact Hok|].
  pose proof (C5_history_ledger (H := Machine.E1) Machine.w0
                Machine.calls101 Hok) as [Hlen [Hget _]].
  split; [exact Hlen|].
  apply (proj1 (proj2 (Hget 5%Z))). lia.
Defined.

(** A negative [limit] is no count of records: SQLite reads it as no
    limit, and [get_history(-1)] answers with the whole ledger. *)
Example get_history_negative_limit :
  Manager.answer (Manager.get_history (H := Machine.E1) (-1)) Machine.w_searched
  = [("salam", 1%Z)].
Proof. reflexivity. Qed.

(** Of 101 searches a second apart, one of them blank, 100 are recorded;
    of 102, the oldest is pruned. *)
Example history_run :
  List.length
    (Sql.search_history
       (Manager.w_db
          (Manager.after (Spec.record_all (H := Machine.E1) Machine.calls101)
             Machine.w0))) = 100
  /\ List.map Sql.h_id
       (take 2
          (Sql.search_history
             (Manager.w_db
                (Manager.after
                   (Spec.record_all (H := Machine.E1)
                      (Machine.calls101 ++ [(200%Z, "ab")]))
                   Machine.w0)))) = [2; 3].
Proof. split; vm_compute; reflexivity. Qed.

(** ** Ingestion: what a successful run leaves *)

Lemma text_map_map (f g : ascii -> ascii) (s : string) :
  Text.map g (Text.map f s) = Text.map (fun c => g (f c)) s.
Proof. induction s as [|c s IH]; simpl; [reflexivity|]. rewrite IH. reflexivity. Qed.

Lemma text_map_ext (f g : ascii -> ascii) (s : string) :
  (forall c, f c = g c) -> Text.map f s = Text.map g s.
Proof.
  intros Hfg. induction s as [|c s IH]; simpl; [reflexivity|].
  rewrite Hfg, IH. reflexivity.
Qed.

(** The three [replace] calls amount to the separator rule, character by
    character. *)
Lemma derive_name_separator (p : string) :
  Manager.derive_name p = Text.map Spec.separator (Path.stem p).
Proof.
  unfold Manager.derive_name, Text.replace. rewrite !text_map_map.
  apply text_map_ext. intros c.
  destruct c as [[] [] [] [] [] [] [] []]; reflexivity.
Qed.

Lemma existsb_eqb_in (i : nat) (l : list nat) :
  existsb (Nat.eqb i) l = true <-> In i l.
Proof.
  rewrite existsb_exists. split.
  - intros [j [Hj Heq]]. apply Nat.eqb_eq in Heq. subst. exact Hj.
  - intros Hi. exists i. split; [exact Hi|apply Nat.eqb_refl].
Qed.

(** After the REPLACE no older row carries the name. *)
Lemma replace_clears_name (fk : bool) (name : string) (db : Sql.database) :
  List.filter (fun d => String.eqb (Sql.d_name d) name)
    (Sql.dictionaries
       (Sql.delete_dictionaries fk
          (List.map Sql.d_id
             (List.filter (fun d => String.eqb (Sql.d_name d) name)
                (Sql.dictionaries db)))
          db)) = [].
Proof.
  cbn [Sql.delete_dictionaries Sql.dictionaries].
  apply filter_none. intros d Hd. apply filter_In in Hd.
  destruct Hd as [Hd Hkeep].
  destruct (String.eqb (Sql.d_name d) name) eqn:Hn; [|reflexivity].
  exfalso. apply negb_true_iff in Hkeep.
  assert (Hin : existsb (Nat.eqb (Sql.d_id d))
            (List.map Sql.d_id
               (List.filter (fun d => String.eqb (Sql.d_name d) name)
                  (Sql.dictionaries db))) = true).
  { apply existsb_eqb_in, in_map, filter_In. split; assumption. }
  congruence.
Qed.

Lemma select_after_replace (fk : bool) (name path : string) (n : nat)
    (db : Sql.database) :
  Sql.select_dictionary_id name (Sql.replace_dictionary fk name path n db)
  = Some (Sql.new_dictionary_id db).
Proof.
  unfold Sql.select_dictionary_id, Sql.replace_dictionary.
  cbn [Sql.dictionaries]. rewrite List.filter_app, replace_clears_name.
  cbn. rewrite String.eqb_refl. reflexivity.
Qed.

(** The calls on the connection, one by one. *)
Lemma statement_run `{Env} (n : nat) (stmt : Sql.database -> Sql.database)
    (w : Manager.world) :
  Manager.statement n stmt w =
    match sqlite_fault (Manager.w_fs w) (Manager.w_db w) n with
    | Some e => (Some e, w)
    | None => (None, Manager.with_db (stmt (Manager.w_db w)) w)
    end.
Proof.
  unfold Manager.statement. run.
  destruct (sqlite_fault _ _ _); reflexivity.
Qed.

Lemma with_db_same `{Env} (w : Manager.world) :
  Manager.with_db (Manager.w_db w) w = w.
Proof. destruct w; reflexivity. Qed.

Lemma with_db_twice `{Env} (a b : Sql.database) (w : Manager.world) :
  Manager.with_db a (Manager.with_db b w) = Manager.with_db a w.
Proof. reflexivity. Qed.

(** [executemany] stops at the first row that raises, with the rows before
    it written, or writes them all. *)
Lemma executemany_run `{Env} {A} (stmt : A -> Sql.database -> Sql.database)
    (rows : list A) (n : nat) (w : Manager.world) :
  (exists e db',
     Manager.executemany n stmt rows w = (Some e, Manager.with_db db' w))
  \/ Manager.executemany n stmt rows w
     = (None,
        Manager.with_db
          (fold_left (fun acc row => stmt row acc) rows (Manager.w_db w)) w).
Proof.
  revert n w. induction rows as [|row rows IH]; intros n w.
  - right. cbn. rewrite with_db_same. reflexivity.
  - cbn [Manager.executemany fold_left]. unfold Manager.bind.
    rewrite statement_run.
    destruct (sqlite_fault _ _ _) as [e|].
    + left. exists e, (Manager.w_db w). rewrite with_db_same. reflexivity.
    + destruct (IH (S n) (Manager.with_db (stmt row (Manager.w_db w)) w))
        as [[e [db' Hr]] | Hr]; rewrite Hr.
      * left. exists e, db'. reflexivity.
      * right. reflexivity.
Qed.

Ltac store_step Hr :=
  cbv beta iota in Hr;
  cbn [Manager.w_db Manager.w_fs Manager.with_db Manager.current_dict_id
       Manager.decoder_calls] in Hr.

Ltac store_fails Hr e :=
  left; exists e; rewrite Hr; cbv beta iota;
  cbn [Manager.w_db Manager.w_fs Manager.with_db Manager.current_dict_id
       Manager.decoder_calls];
  rewrite world_eta; reflexivity.

(** [store] ends in one of two ways: a call on the connection raised, the
    connection rolled back and the world is as it was, the answer being the
    import-failed message; or every call went through and the store is as
    [Spec.ingested_db] makes it, the new dictionary active. *)
Lemma store_outcome `{Env} (name source : string)
    (cleaned : list (string * string)) (w : Manager.world) :
  (exists e,
     Manager.store name source cleaned w
     = ((false, Manager.msg_import_failed e), w))
  \/ Manager.store name source cleaned w =
       ((true, Manager.msg_imported (List.length cleaned) name),
        {| Manager.w_fs := Manager.w_fs w;
           Manager.w_db :=
             Spec.ingested_db name source cleaned (Manager.w_db w);
           Manager.current_dict_id :=
             Some (Sql.new_dictionary_id (Manager.w_db w));
           Manager.decoder_calls := Manager.decoder_calls w |}).
Proof.
  set (r := Manager.store name source cleaned w).
  assert (Hr : r = Manager.store name source cleaned w) by reflexivity.
  clearbody r. unfold Manager.store, Manager.or_else in Hr. run.
  rewrite statement_run in Hr.
  destruct (sqlite_fault _ _ 0) as [e|]; [store_fails Hr e|].
  store_step Hr. rewrite statement_run in Hr. store_step Hr.
  destruct (sqlite_fault _ _ 1) as [e|]; [store_fails Hr e|].
  store_step Hr. rewrite statement_run in Hr. store_step Hr.
  destruct (sqlite_fault _ _ 2) as [e|]; [store_fails Hr e|].
  store_step Hr. rewrite select_after_replace in Hr.
  rewrite statement_run in Hr. store_step Hr.
  destruct (sqlite_fault _ _ 3) as [e|]; [store_fails Hr e|].
  store_step Hr.
  match type of Hr with
  | context [Manager.executemany ?n ?f ?rows ?v] =>
      destruct (executemany_run f rows n v) as [[e [db' Hx]] | Hx];
      rewrite Hx in Hr
  end; [store_fails Hr e|].
  store_step Hr. rewrite statement_run in Hr. store_step Hr.
  destruct (sqlite_fault _ _ _) as [e|]; [store_fails Hr e|].
  store_step Hr. right. rewrite Hr. reflexivity.
Qed.

(** In a goal about a run of [store]: the two ways it can end. *)
Ltac store_cases e :=
  match goal with
  | |- context [Manager.store ?n ?s ?c ?v] =>
      let Hs := fresh "Hs" in
      destruct (store_outcome n s c v) as [[e Hs] | Hs]; rewrite Hs; clear Hs
  end.

(** The path [normalize_extension] hands on, and the store and the session
    pointer it leaves alone. *)
Lemma normalize_extension_keeps `{Env} (p : string) (w : Manager.world) :
  Manager.w_db (snd (Manager.normalize_extension p w)) = Manager.w_db w
  /\ Manager.current_dict_id (snd (Manager.normalize_extension p w))
     = Manager.current_dict_id w
  /\ Manager.decoder_calls (snd (Manager.normalize_extension p w))
     = Manager.decoder_calls w.
Proof.
  unfold Manager.normalize_extension.
  destruct (negb (String.eqb p (Text.lower p))); [|tauto].
  run.
  destruct (negb (os_path_exists _ _)); [|tauto].
  destruct (shutil_copy2 _ _ _); cbn; tauto.
Qed.

(** A successful [import_bgl], read backwards: a non-empty cleaned batch
    went into the store under the derived name, the new dictionary is the
    active one, and the decoder was called once. *)
Lemma import_bgl_success `{Env} (path : string) (w w' : Manager.world)
    (msg : string) :
  Manager.import_bgl path w = ((true, msg), w') ->
  exists (source : string) (cleaned : list (string * string)),
    cleaned <> []
    /\ msg = Manager.msg_imported (List.length cleaned)
               (Manager.derive_name (os_path_abspath path))
    /\ Manager.w_db w' =
         Spec.ingested_db (Manager.derive_name (os_path_abspath path)) source
           cleaned (Manager.w_db w)
    /\ Manager.current_dict_id w'
       = Some (Sql.new_dictionary_id (Manager.w_db w))
    /\ Manager.decoder_calls w' = Manager.decoder_calls w ++ [source].
Proof.
  unfold Manager.import_bgl. run.
  destruct (negb (os_path_exists _ _)); [discriminate|].
  destruct (negb (Text.endswith _ _)); [discriminate|].
  destruct (Sniffer._is_encrypted_bgl _ _) as [[|] hint]; [discriminate|].
  pose proof (normalize_extension_keeps (os_path_abspath path) w)
    as [Hdb [Hcur Hcalls]].
  destruct (Manager.normalize_extension (os_path_abspath path) w)
    as [source wn].
  cbn [fst snd] in *.
  destruct (glossary_read (Manager.w_fs wn) source) as [e | items [e|]].
  - destruct (existsb _ _); discriminate.
  - discriminate.
  - destruct (Manager.collect items) as [|pair pairs]; [discriminate|].
    destruct (Manager.clean (pair :: pairs)) as [|c cleaned] eqn:Hclean;
      [discriminate|].
    store_cases e; [discriminate|].
    cbn [Manager.w_db Manager.w_fs Manager.current_dict_id
         Manager.decoder_calls].
    intros Heq. injection Heq as <- <-.
    exists source, (c :: cleaned).
    cbn [Manager.w_db Manager.w_fs Manager.current_dict_id
         Manager.decoder_calls].
    rewrite Hdb, Hcalls. repeat split. discriminate.
Qed.

(** [executemany] appends one row per pair of the batch, in order, under
    the given dictionary, and touches no other table. *)
Lemma insert_entries_appends (id : nat) (batch : list (string * string))
    (db : Sql.database) :
  exists rows,
    Sql.entries (Sql.insert_entries id batch db) = Sql.entries db ++ rows
    /\ List.map Spec.entry_content rows = List.map (fun wd => (id, wd)) batch
    /\ Sql.dictionaries (Sql.insert_entries id batch db) = Sql.dictionaries db.
Proof.
  unfold Sql.insert_entries. revert db.
  induction batch as [|[w d] batch IH]; intros db; simpl.
  - exists []. rewrite app_nil_r. repeat split.
  - destruct (IH (Sql.insert_entry id (w, d) db)) as [rows [He [Hc Hd]]].
    cbn [Sql.insert_entry Sql.with_entries Sql.entries Sql.dictionaries] in He, Hd.
    eexists (_ :: rows). rewrite He, Hd, <- app_assoc. cbn.
    rewrite Hc. repeat split.
Qed.

(** After a successful ingestion exactly one row of [dictionaries] carries
    the name: the new one. *)
Lemma ingested_db_named (name source : string)
    (cleaned : list (string * string)) (db : Sql.database) :
  List.filter (fun d => String.eqb (Sql.d_name d) name)
    (Sql.dictionaries (Spec.ingested_db name source cleaned db)) =
  [ {| Sql.d_id := Sql.new_dictionary_id db; Sql.d_name := name;
       Sql.d_source_path := source;
       Sql.d_word_count := List.length cleaned;
       Sql.d_is_encrypted := false |} ].
Proof.
  unfold Spec.ingested_db.
  destruct (insert_entries_appends (Sql.new_dictionary_id db) cleaned
              (Sql.delete_entries (Sql.new_dictionary_id db)
                 (Sql.replace_dictionary Sql.foreign_keys name source
                    (List.length cleaned) db))) as [rows [_ [_ Hd]]].
  rewrite Hd.
  cbn [Sql.delete_entries Sql.with_entries Sql.replace_dictionary
       Sql.dictionaries].
  rewrite List.filter_app, replace_clears_name.
  cbn. rewrite String.eqb_refl. reflexivity.
Qed.

(** ... and the entries under the new dictionary are the batch, no more and
    no less. *)
Lemma ingested_db_batch (name source : string)
    (cleaned : list (string * string)) (db : Sql.database) :
  List.map Spec.entry_content
    (List.filter
       (fun e => Nat.eqb (Sql.e_dictionary_id e) (Sql.new_dictionary_id db))
       (Sql.entries (Spec.ingested_db name source cleaned db)))
  = List.map (fun wd => (Sql.new_dictionary_id db, wd)) cleaned.
Proof.
  unfold Spec.ingested_db.
  destruct (insert_entries_appends (Sql.new_dictionary_id db) cleaned
              (Sql.delete_entries (Sql.new_dictionary_id db)
                 (Sql.replace_dictionary Sql.foreign_keys name source
                    (List.length cleaned) db))) as [rows [He [Hc _]]].
  rewrite He, List.filter_app.
  cbn [Sql.delete_entries Sql.with_entries Sql.entries].
  rewrite (filter_none _ (List.filter _ _)).
  - cbn [app]. rewrite filter_all; [exact Hc|].
    intros e Hin.
    assert (Hm : In (Spec.entry_content e) (List.map Spec.entry_content rows))
      by apply in_map, Hin.
    rewrite Hc in Hm. apply in_map_iff in Hm.
    destruct Hm as [wd [Heq _]]. unfold Spec.entry_content in Heq.
    injection Heq as Hid _. rewrite <- Hid. apply Nat.eqb_refl.
  - intros e Hin. apply filter_In in Hin. destruct Hin as [_ Hne].
    apply negb_true_iff in Hne. exact Hne.
Qed.

(** C9. When [import_bgl] succeeds, the dictionary is named after the stem
    of the file name with each [.], [-] and space turned into the one
    separator [_]; the dictionary stored under that name is the active one
    and carries the number of ingested entries, which are the entries found
    under it; and the message is the success text with that count and that
    name in it. *)
Theorem C9_successful_ingestion `{Env} (path : string) (w w' : Manager.world)
    (msg : string) :
  Manager.import_bgl path w = ((true, msg), w') ->
  let name := Manager.derive_name (os_path_abspath path) in
  name = Text.map Spec.separator (Path.stem (os_path_abspath path))
  /\ exists (id count : nat) (source : string),
       0 < count
       /\ msg = String.concat EmptyString
                  [ "✅ Imported "; Manager.format_thousands count;
                    " entries from '"; name; "'" ]
       /\ Manager.current_dict_id w' = Some id
       /\ List.filter (fun d => String.eqb (Sql.d_name d) name)
            (Sql.dictionaries (Manager.w_db w'))
          = [ {| Sql.d_id := id; Sql.d_name := name;
                 Sql.d_source_path := source; Sql.d_word_count := count;
                 Sql.d_is_encrypted := false |} ]
       /\ List.length
            (List.filter (fun e => Nat.eqb (Sql.e_dictionary_id e) id)
               (Sql.entries (Manager.w_db w'))) = count.
Proof.
  intros Himp name. split; [apply derive_name_separator|].
  apply import_bgl_success in Himp.
  destruct Himp as [source [cleaned [Hne [Hmsg [Hdb [Hcur _]]]]]].
  exists (Sql.new_dictionary_id (Manager.w_db w)), (List.length cleaned), source.
  split; [destruct cleaned; [congruence|cbn; lia]|].
  split; [exact Hmsg|]. split; [exact Hcur|]. rewrite Hdb. split.
  - apply ingested_db_named.
  - rewrite <- (List.length_map Spec.entry_content), ingested_db_batch.
    apply List.length_map.
Qed.

Lemma C9_successful_ingestion_witness :
  Manager.answer (Manager.import_bgl (H := Machine.E1) "/d/farsi-basic.bgl")
    Machine.w0 = (true, "✅ Imported 2 entries from 'farsi_basic'")
  /\ Manager.derive_name "/d/farsi-basic.bgl"
     = Text.map Spec.separator (Path.stem "/d/farsi-basic.bgl")
  /\ Manager.derive_name "/d/farsi-basic.bgl" = "farsi_basic".
Proof.
  split; [reflexivity|]. split; [|reflexivity].
  exact (proj1 (C9_successful_ingestion (H := Machine.E1)
                  "/d/farsi-basic.bgl" Machine.w0 Machine.w1
                  "✅ Imported 2 entries from 'farsi_basic'" eq_refl)).
Defined.

(** The count is written with a comma between groups of three digits, and
    a file name of the specification's scenario gives its name. *)
Example format_thousands_run :
  Manager.format_thousands 500 = "500"
  /\ Manager.format_thousands 1500 = "1,500"
  /\ Manager.derive_name "/home/u/sources/farsi-basic.bgl" = "farsi_basic"
  /\ Manager.derive_name "/d/My Dict.v2.BGL" = "My_Dict_v2".
Proof. repeat split. Qed.

(** ** The directory scanner *)

Lemma recorded_path (recorded : list string) (p : string) :
  p ∈ (list_to_set recorded : gset string) <-> In p recorded.
Proof. rewrite elem_of_list_to_set. apply list_elem_of_In. Qed.

(** The loop of the scanner is a scan in the sense of the specification. *)
Lemma scan_files_scan `{Env} (recorded files : list string)
    (w : Manager.world) :
  Spec.scan recorded files w
    (fst (Manager.scan_files (list_to_set recorded) files w))
    (snd (Manager.scan_files (list_to_set recorded) files w)).
Proof.
  revert w. induction files as [|f files IH]; intros w.
  - constructor.
  - cbn [Manager.scan_files]. unfold Manager.scan_file. run.
    destruct (decide (path_absolute f ∈ (list_to_set recorded : gset string)))
      as [Hin|Hnin].
    + apply recorded_path in Hin. specialize (IH w).
      destruct (Manager.scan_files (list_to_set recorded) files w) as [rs w'].
      cbn [fst snd] in *. apply Spec.scan_skip; assumption.
    + rewrite recorded_path in Hnin.
      pose proof (Spec.scan_ingest recorded f files w) as Hstep.
      unfold Manager.answer, Manager.after in Hstep.
      destruct (Manager.import_bgl f w) as [r w1]. cbn [fst snd] in *.
      specialize (IH w1).
      destruct (Manager.scan_files (list_to_set recorded) files w1) as [rs w'].
      cbn [fst snd] in *. apply Hstep; assumption.
Qed.

(** In a scan every file has its record, in order, and the record says
    skip exactly for the recorded paths. *)
Lemma scan_one_to_one `{Env} (recorded files : list string)
    (w w' : Manager.world) (rs : list Manager.scan_result) :
  Spec.scan recorded files w rs w' ->
  Forall2
    (fun f r =>
       Manager.r_file r = Some (Path.name f)
       /\ (Manager.r_status r = Manager.StSkip
           <-> In (path_absolute f) recorded))
    files rs.
Proof.
  induction 1 as [w | f files w rs w' Hin _ IH | f files w rs w' Hnin _ IH].
  - constructor.
  - constructor; [|exact IH]. cbn. tauto.
  - constructor; [|exact IH]. cbn. split; [reflexivity|].
    destruct (fst (Manager.answer (Manager.import_bgl f) w));
      split; (discriminate || contradiction).
Qed.

(** C8. [scan_and_import] answers with the single error record when the
    directory does not exist.  Otherwise, over the eligible files of the
    directory, its answer is a scan in the sense of the specification: a
    file is skipped, the world left as it is and [import_bgl] not run,
    exactly when its absolute path is the [source_path] of a row that
    [dictionaries] holds when the scan starts; every other file goes
    through [import_bgl] and its outcome, success or error, is its record;
    there is one record per file, in order, whatever the outcomes of the
    files before it. *)
Theorem C8_scan_and_import `{Env} (w : Manager.world) (directory : string) :
  (os_path_exists (Manager.w_fs w) directory = false ->
     Manager.scan_and_import directory w =
       (Some [ {| Manager.r_file := None; Manager.r_status := Manager.StError;
                  Manager.r_message := Manager.msg_dir_not_found directory |} ],
        w))
  /\ (forall listing,
        os_path_exists (Manager.w_fs w) directory = true ->
        path_iterdir (Manager.w_fs w) directory = Some listing ->
        let files := List.filter (Manager.eligible (Manager.w_fs w)) listing in
        let recorded :=
          List.map Sql.d_source_path (Sql.dictionaries (Manager.w_db w)) in
        files <> [] ->
        exists rs w',
          Manager.scan_and_import directory w = (Some rs, w')
          /\ Spec.scan recorded files w rs w'
          /\ List.length rs = List.length files
          /\ Forall2
               (fun f r =>
                  Manager.r_file r = Some (Path.name f)
                  /\ (Manager.r_status r = Manager.StSkip
                      <-> In (path_absolute f) recorded))
               files rs).
Proof.
  split.
  - intros Hex. unfold Manager.scan_and_import. run. rewrite Hex. reflexivity.
  - intros listing Hex Hls files recorded Hne.
    pose proof (scan_files_scan recorded files w) as Hscan.
    exists (fst (Manager.scan_files (list_to_set recorded) files w)),
           (snd (Manager.scan_files (list_to_set recorded) files w)).
    split; [|split; [exact Hscan|split]].
    + unfold Manager.scan_and_import. run. rewrite Hex, Hls. cbn [negb].
      fold files. destruct files as [|f files']; [congruence|].
      unfold Sql.select_source_paths. fold recorded.
      destruct (Manager.scan_files (list_to_set recorded) (f :: files') w).
      reflexivity.
    + apply scan_one_to_one in Hscan. symmetry.
      eapply Forall2_length. exact Hscan.
    + eapply scan_one_to_one. exact Hscan.
Qed.

Lemma C8_scan_and_import_witness :
  Manager.scan_and_import (H := Machine.E1) "/nope" Machine.w1 =
    (Some [ {| Manager.r_file := None; Manager.r_status := Manager.StError;
               Manager.r_message := "Directory not found: /nope" |} ],
     Machine.w1)
  /\ List.map Sql.d_source_path (Sql.dictionaries (Manager.w_db Machine.w1))
     = [ "/d/farsi-basic.bgl" ]
  /\ exists rs w',
       Manager.scan_and_import (H := Machine.E1) "/d" Machine.w1 = (Some rs, w')
       /\ List.map (fun r => (Manager.r_file r, Manager.r_status r)) rs
          = [ (Some "farsi-basic.bgl", Manager.StSkip);
              (Some "locked.bgl", Manager.StError);
              (Some "new.bgl", Manager.StSuccess) ]
       /\ Manager.decoder_calls w' = [ "/d/farsi-basic.bgl"; "/d/new.bgl" ].
Proof.
  split; [|split; [reflexivity|]].
  - exact (proj1 (C8_scan_and_import (H := Machine.E1) Machine.w1 "/nope")
             eq_refl).
  - destruct (proj2 (C8_scan_and_import (H := Machine.E1) Machine.w1 "/d")
                [ "/d/farsi-basic.bgl"; "/d/locked.bgl"; "/d/locked.txt";
                  "/d/new.bgl" ]
                eq_refl eq_refl)
      as [rs [w' [Hrun _]]].
    + discriminate.
    + exists rs, w'. split; [exact Hrun|].
      assert (Hc : Manager.scan_and_import (H := Machine.E1) "/d" Machine.w1
                   = (Some rs, w')) by exact Hrun.
      vm_compute in Hc. injection Hc as <- <-. split; reflexivity.
Defined.

(** A scan of a directory with one file already ingested, one that the
    sniffer rejects and one new file: skipped, failed, ingested, in that
    order; the failure in the middle does not stop the scan, and the file
    that is not a [.bgl] is not looked at. *)
Example scan_run :
  List.map (fun r => (Manager.r_file r, Manager.r_status r))
    (default []
       (Manager.answer (Manager.scan_and_import (H := Machine.E1) "/d")
          Machine.w1))
  = [ (Some "farsi-basic.bgl", Manager.StSkip);
      (Some "locked.bgl", Manager.StError);
      (Some "new.bgl", Manager.StSuccess) ]
  /\ Manager.decoder_calls
       (Manager.after (Manager.scan_and_import (H := Machine.E1) "/d")
          Machine.w1)
     = [ "/d/farsi-basic.bgl"; "/d/new.bgl" ].
Proof. split; vm_compute; reflexivity. Qed.

(** ** Re-ingestion *)

(** C1, on the code.  A new manager ingests [/d/farsi-basic.bgl] twice, the
    file unchanged in between.  Both runs succeed with the same message,
    one row of [dictionaries] carries the name, and a search answers the
    same after the second run as after the first.  But the REPLACE gave the
    dictionary a new rowid, 2 for 1, so the DELETE that follows, keyed by
    the new id, removed nothing: the two entries of the first run are still
    in [entries] under dictionary 1, which no longer exists, next to the
    two of the second run, and the table has doubled. *)
Theorem C1_reingestion_keeps_old_entries :
  Manager.answer (Manager.import_bgl (H := Machine.E1) "/d/farsi-basic.bgl")
    Machine.w0 = (true, "✅ Imported 2 entries from 'farsi_basic'")
  /\ Manager.answer (Manager.import_bgl (H := Machine.E1) "/d/farsi-basic.bgl")
       Machine.w1 = (true, "✅ Imported 2 entries from 'farsi_basic'")
  /\ List.map (fun d => (Sql.d_id d, Sql.d_name d, Sql.d_word_count d))
       (Sql.dictionaries (Manager.w_db Machine.w1)) = [(1, "farsi_basic", 2)]
  /\ List.map (fun d => (Sql.d_id d, Sql.d_name d, Sql.d_word_count d))
       (Sql.dictionaries (Manager.w_db Machine.w2)) = [(2, "farsi_basic", 2)]
  /\ Manager.answer (Manager.search (H := Machine.E1) "a" 20) Machine.w2
     = Manager.answer (Manager.search (H := Machine.E1) "a" 20) Machine.w1
  /\ List.map Spec.entry_content (Sql.entries (Manager.w_db Machine.w1))
     = [ (1, ("salam", "hello")); (1, ("ab", "water")) ]
  /\ List.map Spec.entry_content (Sql.entries (Manager.w_db Machine.w2))
     = [ (1, ("salam", "hello")); (1, ("ab", "water"));
         (2, ("salam", "hello")); (2, ("ab", "water")) ].
Proof. repeat split. Qed.

Lemma insert_entries_seq (id : nat) (batch : list (string * string))
    (db : Sql.database) :
  Sql.seq_dictionaries (Sql.insert_entries id batch db)
  = Sql.seq_dictionaries db.
Proof.
  unfold Sql.insert_entries. revert db.
  induction batch as [|wd batch IH]; intros db; simpl; [reflexivity|].
  rewrite IH. reflexivity.
Qed.

(** On a store that only the manager has written to, an ingestion appends
    its batch to [entries] and removes no row. *)
Lemma ingested_db_appends (name source : string)
    (cleaned : list (string * string)) (db : Sql.database) :
  Spec.entries_refer_back db ->
  exists rows,
    Sql.entries (Spec.ingested_db name source cleaned db)
    = Sql.entries db ++ rows
    /\ List.map Spec.entry_content rows
       = List.map (fun wd => (Sql.new_dictionary_id db, wd)) cleaned.
Proof.
  intros Hback. unfold Spec.ingested_db.
  destruct (insert_entries_appends (Sql.new_dictionary_id db) cleaned
              (Sql.delete_entries (Sql.new_dictionary_id db)
                 (Sql.replace_dictionary Sql.foreign_keys name source
                    (List.length cleaned) db))) as [rows [He [Hc _]]].
  exists rows. split; [|exact Hc]. rewrite He. f_equal.
  cbn [Sql.delete_entries Sql.with_entries Sql.entries Sql.replace_dictionary
       Sql.delete_dictionaries Sql.foreign_keys].
  apply filter_all. intros e Hin.
  unfold Spec.entries_refer_back in Hback.
  rewrite List.Forall_forall in Hback. specialize (Hback e Hin).
  apply negb_true_iff, Nat.eqb_neq. lia.
Qed.

(** AUTOINCREMENT does not hand out an id twice. *)
Lemma ingested_db_next_id (name source : string)
    (cleaned : list (string * string)) (db : Sql.database) :
  Sql.new_dictionary_id db
  < Sql.new_dictionary_id (Spec.ingested_db name source cleaned db).
Proof.
  unfold Sql.new_dictionary_id at 2, Sql.next_rowid.
  unfold Spec.ingested_db. rewrite insert_entries_seq.
  cbn [Sql.delete_entries Sql.with_entries Sql.seq_dictionaries
       Sql.replace_dictionary]. lia.
Qed.

Lemma ingested_db_refers_back (name source : string)
    (cleaned : list (string * string)) (db : Sql.database) :
  Spec.entries_refer_back db ->
  Spec.entries_refer_back (Spec.ingested_db name source cleaned db).
Proof.
  intros Hback.
  destruct (ingested_db_appends name source cleaned db Hback)
    as [rows [He Hc]].
  pose proof (ingested_db_next_id name source cleaned db) as Hnext.
  unfold Spec.entries_refer_back. rewrite He.
  apply List.Forall_app. split.
  - eapply List.Forall_impl; [|exact Hback]. cbn. intros e He'. lia.
  - apply List.Forall_forall. intros e Hin.
    assert (Hm : In (Spec.entry_content e) (List.map Spec.entry_content rows))
      by apply in_map, Hin.
    rewrite Hc in Hm. apply in_map_iff in Hm.
    destruct Hm as [wd [Heq _]]. unfold Spec.entry_content in Heq.
    injection Heq as Hid _. lia.
Qed.

(** The defect behind C1, in general: on a store that only the manager has
    written to, whenever two successive runs of [import_bgl] on a path
    succeed, every row the table held after the first run is still there
    after the second, which only added its own batch under a new
    dictionary id. *)
Lemma reingestion_appends `{Env} (path : string) (w w1 w2 : Manager.world)
    (msg1 msg2 : string) :
  Spec.entries_refer_back (Manager.w_db w) ->
  Manager.import_bgl path w = ((true, msg1), w1) ->
  Manager.import_bgl path w1 = ((true, msg2), w2) ->
  exists rows,
    rows <> []
    /\ Sql.entries (Manager.w_db w2) = Sql.entries (Manager.w_db w1) ++ rows
    /\ Forall (fun e => Sql.e_dictionary_id e
                        = Sql.new_dictionary_id (Manager.w_db w1)) rows
    /\ Manager.current_dict_id w1 <> Manager.current_dict_id w2.
Proof.
  intros Hback H1 H2.
  apply import_bgl_success in H1.
  destruct H1 as [s1 [c1 [_ [_ [Hdb1 [Hcur1 _]]]]]].
  apply import_bgl_success in H2.
  destruct H2 as [s2 [c2 [Hne2 [_ [Hdb2 [Hcur2 _]]]]]].
  assert (Hback1 : Spec.entries_refer_back (Manager.w_db w1))
    by (rewrite Hdb1; apply ingested_db_refers_back, Hback).
  destruct (ingested_db_appends
              (Manager.derive_name (os_path_abspath path)) s2 c2
              (Manager.w_db w1) Hback1) as [rows [He Hc]].
  exists rows. split; [|split; [|split]].
  - intros ->. destruct c2; [congruence|discriminate Hc].
  - rewrite Hdb2. exact He.
  - apply List.Forall_forall. intros e Hin.
    assert (Hm : In (Spec.entry_content e) (List.map Spec.entry_content rows))
      by apply in_map, Hin.
    rewrite Hc in Hm. apply in_map_iff in Hm.
    destruct Hm as [wd [Heq _]]. unfold Spec.entry_content in Heq.
    injection Heq as Hid _. symmetry. exact Hid.
  - rewrite Hcur1, Hcur2. intros Heq. injection Heq as Heq.
    pose proof (ingested_db_next_id
                  (Manager.derive_name (os_path_abspath path)) s1 c1
                  (Manager.w_db w)) as Hnext.
    rewrite <- Hdb1 in Hnext.
    unfold Sql.new_dictionary_id, Sql.next_rowid in Hnext. lia.
Qed.

(** Had the connection enforced foreign keys, the REPLACE would have taken
    the entries of the replaced dictionary with it. *)
Lemma replace_dictionary_cascades (name source : string) (n : nat)
    (db : Sql.database) (d : Sql.dictionary) (e : Sql.entry) :
  In d (Sql.dictionaries db) -> Sql.d_name d = name ->
  Sql.e_dictionary_id e = Sql.d_id d ->
  ~ In e (Sql.entries (Sql.replace_dictionary true name source n db)).
Proof.
  intros Hd Hn He Hin.
  cbn [Sql.replace_dictionary Sql.delete_dictionaries Sql.entries] in Hin.
  apply filter_In in Hin. destruct Hin as [_ Hkeep].
  apply negb_true_iff in Hkeep.
  assert (Hgone : existsb (Nat.eqb (Sql.e_dictionary_id e))
            (List.map Sql.d_id
               (List.filter (fun d => String.eqb (Sql.d_name d) name)
                  (Sql.dictionaries db))) = true).
  { apply existsb_eqb_in. rewrite He. apply in_map, filter_In.
    split; [exact Hd|]. apply String.eqb_eq, Hn. }
  congruence.
Qed.

(** ** Search *)

(** C2, on the code.  Dictionary 1 is active and holds the words [salam]
    and [ab].  The query [_a] is not blank, yet [search] answers with
    [salam], and [get_suggestions] too, although [salam] does not start
    with [_a]; the query [%] brings every entry.  The query goes into the
    LIKE pattern as it is, and LIKE reads [_] and [%] as wildcards. *)
Theorem C2_wildcards_in_query :
  Manager.current_dict_id Machine.w1 = Some 1
  /\ Manager.answer (Manager.search (H := Machine.E1) "_a" 20) Machine.w1
     = [("salam", "hello")]
  /\ Manager.answer (Manager.get_suggestions (H := Machine.E1) "_a" 10)
       Machine.w1 = ["salam"]
  /\ Spec.prefix_match "_a" "salam" = false
  /\ Manager.answer (Manager.search (H := Machine.E1) "%" 20) Machine.w1
     = [("ab", "water"); ("salam", "hello")]
  /\ Spec.prefix_match "%" "ab" = false
  /\ Spec.prefix_match "%" "salam" = false.
Proof. repeat split. Qed.

(** What is right in C2: the answers of [search] come ascending by word,
    there are at most [limit] of them when [limit] is not negative, and
    for a query without [_] and [%] each answer starts with the query, up
    to case. *)

Lemma lower_char_not_upper (c : ascii) :
  Text.sql_lower_char (Text.lower_char c) = Text.lower_char c.
Proof. destruct c as [[] [] [] [] [] [] [] []]; reflexivity. Qed.

Lemma lower_char_sql_lower_char (c : ascii) :
  Text.lower_char (Text.sql_lower_char c) = Text.lower_char c.
Proof. destruct c as [[] [] [] [] [] [] [] []]; reflexivity. Qed.

Lemma lower_char_idempotent (c : ascii) :
  Text.lower_char (Text.lower_char c) = Text.lower_char c.
Proof. destruct c as [[] [] [] [] [] [] [] []]; reflexivity. Qed.

Lemma lower_char_wildcard (c : ascii) :
  Ascii.eqb (Text.lower_char c) Sql.percent = Ascii.eqb c Sql.percent
  /\ Ascii.eqb (Text.lower_char c) Sql.underscore = Ascii.eqb c Sql.underscore.
Proof. destruct c as [[] [] [] [] [] [] [] []]; split; reflexivity. Qed.

Lemma wildcard_free_lower (s : string) :
  Spec.wildcard_free (Text.lower s) = Spec.wildcard_free s.
Proof.
  induction s as [|c s IH]; simpl; [reflexivity|].
  destruct (lower_char_wildcard c) as [-> ->].
  unfold Text.lower in IH. rewrite IH. reflexivity.
Qed.

Lemma lower_char_zero (c : ascii) :
  Ascii.eqb (Text.lower_char c) Ascii.zero = Ascii.eqb c Ascii.zero
  /\ Ascii.eqb (Text.sql_lower_char c) Ascii.zero = Ascii.eqb c Ascii.zero.
Proof. destruct c as [[] [] [] [] [] [] [] []]; split; reflexivity. Qed.

Lemma like_unfold (p s : string) :
  Sql.like p s = Sql.pattern_compare (Sql.c_string p) (Sql.c_string s).
Proof. reflexivity. Qed.

(** A LIKE pattern made of a lower-cased text without [%], [_] and U+0000
    and a final [%] matches [LOWER(word)] only if the lower-cased word
    starts with the text. *)
Lemma like_prefix (q word : string) :
  Spec.wildcard_free q = true ->
  Spec.nul_free q = true ->
  Sql.like (String.app (Text.lower q) "%") (Text.sql_lower word) = true ->
  Text.startswith (Text.lower q) (Text.lower word) = true.
Proof.
  revert word. induction q as [|c q IH]; intros word Hfree Hnul Hlike.
  - reflexivity.
  - simpl in Hfree. apply andb_true_iff in Hfree. destruct Hfree as [Hc Hfree].
    apply andb_true_iff in Hc. destruct Hc as [Hp Hu].
    simpl in Hnul. apply andb_true_iff in Hnul. destruct Hnul as [Hz Hnul].
    apply negb_true_iff in Hp, Hu, Hz.
    change (Text.lower (String c q))
      with (String (Text.lower_char c) (Text.lower q)) in *.
    change (String.app (String (Text.lower_char c) (Text.lower q)) "%")
      with (String (Text.lower_char c) (String.app (Text.lower q) "%"))
      in Hlike.
    rewrite like_unfold in Hlike. cbn [Sql.c_string] in Hlike.
    destruct (lower_char_zero c) as [Ez _]. rewrite Ez, Hz in Hlike.
    cbn [Sql.pattern_compare] in Hlike.
    destruct (lower_char_wildcard c) as [Ep Eu].
    rewrite Ep, Eu, Hp, Hu in Hlike.
    destruct word as [|d word]; [discriminate Hlike|].
    cbn [Text.sql_lower Text.map Sql.c_string] in Hlike.
    destruct (Ascii.eqb (Text.sql_lower_char d) Ascii.zero);
      [discriminate Hlike|].
    apply andb_true_iff in Hlike. destruct Hlike as [Hcd Hlike].
    apply Ascii.eqb_eq in Hcd.
    rewrite lower_char_not_upper in Hcd.
    assert (Hsame : Text.lower_char d = Text.lower_char c).
    { rewrite <- (lower_char_sql_lower_char d).
      replace (Text.sql_lower_char d) with (Text.lower_char c).
      - apply lower_char_idempotent.
      - rewrite Hcd.
        destruct d as [[] [] [] [] [] [] [] []]; reflexivity. }
    cbn [Text.lower Text.map Text.startswith]. rewrite Hsame, Ascii.eqb_refl.
    cbn [andb]. apply IH; assumption.
Qed.

Lemma select_entries_In (cur : option nat) (pattern : string) (lim : Z)
    (db : Sql.database) (word d : string) :
  In (word, d) (Sql.select_entries cur pattern lim db) ->
  exists e,
    In e (Sql.entries db)
    /\ Sql.e_word e = word /\ Sql.e_definition e = d
    /\ cur = Some (Sql.e_dictionary_id e)
    /\ Sql.like pattern (Text.sql_lower word) = true.
Proof.
  unfold Sql.select_entries, Sql.matching_entries. intros Hin.
  apply limit_In, in_map_iff in Hin. destruct Hin as [e [Heq Hin]].
  injection Heq as Hw Hd.
  apply (proj1 (order_by_In _ _ e)), filter_In in Hin.
  destruct Hin as [Hin Hp]. apply andb_true_iff in Hp.
  destruct Hp as [Hid Hlike].
  exists e. subst word d. repeat split; try assumption.
  destruct cur as [i|]; [|discriminate Hid].
  apply Nat.eqb_eq in Hid. congruence.
Qed.

Lemma Sorted_take {A} (R : A -> A -> Prop) (k : nat) (l : list A) :
  Sorted R l -> Sorted R (take k l).
Proof.
  intros Hs. revert k. induction Hs as [|a l Hs IH Hhd]; intros k.
  - destruct k; constructor.
  - destruct k as [|k]; [constructor|]. cbn. constructor; [apply IH|].
    destruct Hhd as [|b l' Hab]; [destruct k; constructor|].
    destruct k; constructor. exact Hab.
Qed.

Lemma Sorted_map {A B} (f : A -> B) (R : B -> B -> Prop) (l : list A) :
  Sorted (fun a b => R (f a) (f b)) l -> Sorted R (List.map f l).
Proof.
  induction 1 as [|a l Hs IH Hhd]; cbn; constructor; [exact IH|].
  destruct Hhd; constructor. assumption.
Qed.

Lemma select_entries_sorted (cur : option nat) (pattern : string) (lim : Z)
    (db : Sql.database) :
  Sorted Spec.word_le (Sql.select_entries cur pattern lim db).
Proof.
  unfold Sql.select_entries, Sql.limit.
  assert (Hs : Sorted Spec.word_le
            (List.map (fun e => (Sql.e_word e, Sql.e_definition e))
               (Sql.matching_entries cur pattern db))).
  { apply Sorted_map. unfold Sql.matching_entries.
    apply (order_by_sorted
             (fun a b => String.leb (Sql.e_word a) (Sql.e_word b))).
    intros a b. apply String.leb_total. }
  destruct (lim <? 0)%Z; [exact Hs|]. apply Sorted_take, Hs.
Qed.

(** X8. The part of the claim on [search] that the code keeps: the answers
    come ascending by word; there are at most [limit] of them when [limit]
    is not negative; and when the trimmed query holds no [_], no [%] and no
    U+0000, every answer is an entry of the active dictionary whose
    lower-cased word starts with the lower-cased trimmed query. *)
Lemma search_sound `{Env} (w : Manager.world) (q : string) (limit : Z) :
  Sorted Spec.word_le (Manager.answer (Manager.search q limit) w)
  /\ ((0 <= limit)%Z ->
      (Z.of_nat (List.length (Manager.answer (Manager.search q limit) w))
       <= limit)%Z)
  /\ (Spec.wildcard_free (Text.strip q) = true ->
      Spec.nul_free (Text.strip q) = true ->
      forall word d,
        In (word, d) (Manager.answer (Manager.search q limit) w) ->
        Spec.prefix_match q word = true
        /\ exists e, In e (Sql.entries (Manager.w_db w))
                     /\ Sql.e_word e = word /\ Sql.e_definition e = d
                     /\ Manager.current_dict_id w
                        = Some (Sql.e_dictionary_id e)).
Proof.
  unfold Manager.search. run.
  destruct (negb (Manager.id_truthy (Manager.current_dict_id w))
            || negb (Text.truthy (Text.strip q))).
  - split; [constructor|]. split; [cbn; lia|]. intros _ _ word d [].
  - split; [apply select_entries_sorted|]. split.
    + intros Hl. unfold Sql.select_entries. apply limit_length_Z, Hl.
    + intros Hfree Hnul word d Hin. apply select_entries_In in Hin.
      destruct Hin as [e [Hin [Hw [Hd [Hcur Hlike]]]]].
      split.
      * unfold Spec.prefix_match. apply like_prefix; assumption.
      * exists e. repeat split; assumption.
Qed.

(** The query [a], U+0000, [zzz] holds no [_] and no [%]; LIKE reads its
    pattern up to the U+0000, as [a] without a final [%], and the text of
    a word up to its first U+0000: the answers are the words that read
    [a], and neither starts with the query. *)
Example search_reads_c_strings :
  let q := String "a" (String Ascii.zero "zzz") in
  let a0b := String "a" (String Ascii.zero "b") in
  let db := Sql.insert_entries 1
              [ ("a", "one"); (a0b, "two"); ("ab", "three") ] Sql.empty in
  Sql.select_entries (Some 1) (String.app (Text.lower q) "%") 20 db
  = [ ("a", "one"); (a0b, "two") ]
  /\ Spec.wildcard_free q = true
  /\ Spec.prefix_match q "a" = false
  /\ Spec.prefix_match q a0b = false.
Proof. repeat split. Qed.

(** The part of the claim on [get_suggestions] that the code keeps: no word
    twice, and at most [limit] words when [limit] is not negative. *)
Lemma get_suggestions_distinct `{Env} (w : Manager.world) (q : string)
    (limit : Z) :
  List.NoDup (Manager.answer (Manager.get_suggestions q limit) w)
  /\ ((0 <= limit)%Z ->
      (Z.of_nat
         (List.length (Manager.answer (Manager.get_suggestions q limit) w))
       <= limit)%Z).
Proof.
  unfold Manager.get_suggestions. run.
  destruct (negb (Manager.id_truthy (Manager.current_dict_id w))
            || negb (Text.truthy (Text.strip q))).
  - split; [constructor|cbn; lia].
  - unfold Sql.select_distinct_words. split.
    + apply NoDup_ListNoDup. unfold Sql.limit.
      destruct (limit <? 0)%Z.
      * apply NoDup_remove_dups.
      * unfold Sql.distinct. cbn [fst].
        match goal with
        | |- NoDup (take ?k (remove_dups ?l)) =>
            pose proof (NoDup_remove_dups l) as Hn;
            rewrite <- (take_drop k (remove_dups l)) in Hn;
            apply NoDup_app in Hn; apply Hn
        end.
    + intros Hl. apply limit_length_Z, Hl.
Qed.

(** * Further properties *)

(** ** Text: reversal and trimming *)

Lemma app_cons_text (x : ascii) (a b : string) :
  String.app (String x a) b = String x (String.app a b).
Proof. reflexivity. Qed.

Lemma app_nil_text (b : string) : String.app EmptyString b = b.
Proof. reflexivity. Qed.

Lemma app_assoc_text (a b c : string) :
  String.app (String.app a b) c = String.app a (String.app b c).
Proof.
  induction a as [|x a IH]; [reflexivity|].
  rewrite !app_cons_text, IH. reflexivity.
Qed.

Lemma app_empty_text (a : string) : String.app a EmptyString = a.
Proof.
  induction a as [|x a IH]; [reflexivity|].
  rewrite app_cons_text, IH. reflexivity.
Qed.

Lemma rev_app_text (s t : string) :
  String.rev_app s t = String.app (String.rev s) t.
Proof.
  unfold String.rev. revert t. induction s as [|a s IH]; intros t.
  - reflexivity.
  - cbn [String.rev_app].
    rewrite (IH (String a t)), (IH (String a EmptyString)), app_assoc_text.
    reflexivity.
Qed.

Lemma rev_cons_text (a : ascii) (s : string) :
  String.rev (String a s) = String.app (String.rev s) (String a EmptyString).
Proof. unfold String.rev at 1. cbn [String.rev_app]. apply rev_app_text. Qed.

Lemma rev_app_distr_text (s t : string) :
  String.rev (String.app s t) = String.app (String.rev t) (String.rev s).
Proof.
  induction s as [|a s IH].
  - rewrite app_nil_text. change (String.rev EmptyString) with EmptyString.
    rewrite app_empty_text. reflexivity.
  - rewrite app_cons_text, !rev_cons_text, IH, app_assoc_text. reflexivity.
Qed.

Lemma rev_involutive_text (s : string) : String.rev (String.rev s) = s.
Proof.
  induction s as [|a s IH]; [reflexivity|].
  rewrite rev_cons_text, rev_app_distr_text, IH. reflexivity.
Qed.

Lemma lstrip_fixed (s : string) : Text.lstrip (Text.lstrip s) = Text.lstrip s.
Proof.
  induction s as [|c s IH]; cbn; [reflexivity|].
  destruct (Text.isspace c) eqn:Hc; [exact IH|]. cbn. rewrite Hc. reflexivity.
Qed.

Lemma lstrip_head (s : string) (c : ascii) (t : string) :
  Text.lstrip s = String c t -> Text.isspace c = false.
Proof.
  induction s as [|a s IH]; cbn; [discriminate|].
  destruct (Text.isspace a) eqn:Ha; [exact IH|].
  intros Heq. injection Heq as <- _. exact Ha.
Qed.

Lemma lstrip_keeps_last (x : string) (c : ascii) :
  Text.isspace c = false ->
  exists y, Text.lstrip (String.app x (String c EmptyString))
            = String.app y (String c EmptyString).
Proof.
  intros Hc. induction x as [|a x IH].
  - rewrite app_nil_text. cbn [Text.lstrip]. rewrite Hc.
    exists EmptyString. reflexivity.
  - rewrite app_cons_text. cbn [Text.lstrip].
    destruct (Text.isspace a); [exact IH|].
    exists (String a x). reflexivity.
Qed.

(** [strip] is idempotent: a trimmed text has nothing left to trim. *)
Lemma strip_fixed (s : string) : Text.strip (Text.strip s) = Text.strip s.
Proof.
  unfold Text.strip, Text.rstrip.
  destruct (Text.lstrip s) as [|c a] eqn:Hl; [reflexivity|].
  pose proof (lstrip_head s c a Hl) as Hc.
  rewrite rev_cons_text.
  destruct (lstrip_keeps_last (String.rev a) c Hc) as [y Hy].
  pose proof (lstrip_fixed (String.app (String.rev a) (String c EmptyString)))
    as Hfix.
  rewrite Hy in *.
  rewrite rev_app_distr_text.
  change (String.rev (String c EmptyString)) with (String c EmptyString).
  rewrite app_cons_text, app_nil_text. cbn [Text.lstrip]. rewrite Hc.
  rewrite rev_cons_text, rev_involutive_text, Hfix.
  rewrite rev_app_distr_text. reflexivity.
Qed.

(** ** Ingestion: failures, the decoder, the stored entries *)

(** Every run of [import_bgl] either fails and leaves the store and the
    pointer alone, or succeeds and leaves the store as [Spec.ingested_db]
    makes it, the new dictionary active. *)
Lemma import_bgl_outcome `{Env} (path : string) (w : Manager.world) :
  (fst (Manager.answer (Manager.import_bgl path) w) = false
   /\ Manager.w_db (Manager.after (Manager.import_bgl path) w) = Manager.w_db w
   /\ Manager.current_dict_id (Manager.after (Manager.import_bgl path) w)
      = Manager.current_dict_id w)
  \/ (fst (Manager.answer (Manager.import_bgl path) w) = true
      /\ exists source cleaned,
           cleaned <> []
           /\ Manager.w_db (Manager.after (Manager.import_bgl path) w)
              = Spec.ingested_db (Manager.derive_name (os_path_abspath path))
                  source cleaned (Manager.w_db w)
           /\ Manager.current_dict_id
                (Manager.after (Manager.import_bgl path) w)
              = Some (Sql.new_dictionary_id (Manager.w_db w))).
Proof.
  unfold Manager.import_bgl. run.
  destruct (negb (os_path_exists _ _)); [left; tauto|].
  destruct (negb (Text.endswith _ _)); [left; tauto|].
  destruct (Sniffer._is_encrypted_bgl _ _) as [[|] hint]; [left; tauto|].
  pose proof (normalize_extension_keeps (os_path_abspath path) w)
    as [Hdb [Hcur _]].
  destruct (Manager.normalize_extension (os_path_abspath path) w)
    as [source wn].
  cbn [fst snd] in *.
  destruct (glossary_read (Manager.w_fs wn) source) as [e | items [e|]].
  - destruct (existsb _ _); cbn; left; tauto.
  - cbn. left. tauto.
  - destruct (Manager.collect items) as [|pair pairs]; [cbn; left; tauto|].
    destruct (Manager.clean (pair :: pairs)) as [|c cleaned];
      [cbn; left; tauto|].
    store_cases e; [cbn; left; tauto|].
    cbn. right. split; [reflexivity|].
    exists source, (c :: cleaned). rewrite Hdb. repeat split. discriminate.
Qed.

(** X1. An ingestion that fails, for whatever reason, leaves the store and
    the active-dictionary pointer as they were: no partial dictionary is
    ever written.  This holds also when SQLite raises in the middle of the
    transaction, the dictionary row and some of the entries written: the
    connection rolls back. *)
Theorem import_bgl_failure_atomic `{Env} (path : string) (w : Manager.world) :
  fst (Manager.answer (Manager.import_bgl path) w) = false ->
  Manager.w_db (Manager.after (Manager.import_bgl path) w) = Manager.w_db w
  /\ Manager.current_dict_id (Manager.after (Manager.import_bgl path) w)
     = Manager.current_dict_id w.
Proof.
  intros Hfail.
  destruct (import_bgl_outcome path w) as [[_ Hsame] | [Hok _]].
  - exact Hsame.
  - rewrite Hok in Hfail. discriminate Hfail.
Qed.

Lemma import_bgl_failure_atomic_witness :
  Manager.answer (Manager.import_bgl (H := Machine.F1 5) "/d/new.bgl")
    (Machine.f1 5)
  = (false, "Import failed: OperationalError: database or disk is full")
  /\ Manager.w_db
       (Manager.after (Manager.import_bgl (H := Machine.F1 5) "/d/new.bgl")
          (Machine.f1 5)) = Manager.w_db Machine.w1
  /\ Manager.current_dict_id
       (Manager.after (Manager.import_bgl (H := Machine.F1 5) "/d/new.bgl")
          (Machine.f1 5)) = Some 1.
Proof.
  split; [reflexivity|].
  exact (import_bgl_failure_atomic (H := Machine.F1 5) "/d/new.bgl"
           (Machine.f1 5) eq_refl).
Defined.

(** On that machine the disk is full at the second row of the batch: when
    [executemany] raises, the connection has written the first row and,
    before it, the new dictionary row; where no call raises, the same
    ingestion succeeds. *)
Example executemany_stops_midway :
  let started :=
    Manager.with_db
      (Sql.replace_dictionary Sql.foreign_keys "new" "/d/new.bgl" 2
         (Manager.w_db Machine.w1)) (Machine.f1 5) in
  let stopped :=
    Manager.executemany (H := Machine.F1 5) 4 (Sql.insert_entry 2)
      [ ("salam", "hello"); ("ab", "water") ] started in
  fst stopped = Some Machine.disk_full
  /\ List.map Sql.d_name (Sql.dictionaries (Manager.w_db (snd stopped)))
     = [ "farsi_basic"; "new" ]
  /\ List.map Spec.entry_content (Sql.entries (Manager.w_db (snd stopped)))
     = [ (1, ("salam", "hello")); (1, ("ab", "water"));
         (2, ("salam", "hello")) ]
  /\ fst (Manager.answer (Manager.import_bgl (H := Machine.E1) "/d/new.bgl")
            Machine.w1) = true.
Proof. repeat split. Qed.

(** X2. One ingestion hands at most one path to the decoder, the absolute
    path of the file or the path of its lower-case-extension copy; and for
    a missing file or a name that does not end in [.bgl] it leaves the
    whole world as it is, the decoder not called. *)
Theorem import_bgl_decoder_calls `{Env} (path : string) (w : Manager.world) :
  let w' := Manager.after (Manager.import_bgl path) w in
  let p := os_path_abspath path in
  (Manager.decoder_calls w' = Manager.decoder_calls w
   \/ Manager.decoder_calls w' = Manager.decoder_calls w ++ [p]
   \/ Manager.decoder_calls w'
      = Manager.decoder_calls w
        ++ [path_resolve (Manager.w_fs w) (Path.with_suffix p ".bgl")])
  /\ (os_path_exists (Manager.w_fs w) p = false ->
      Manager.import_bgl path w = ((false, Manager.msg_not_found p), w))
  /\ (os_path_exists (Manager.w_fs w) p = true ->
      Text.endswith ".bgl" (Text.lower p) = false ->
      Manager.import_bgl path w = ((false, Manager.msg_extension), w)).
Proof.
  intros w' p. subst w'. split; [|split].
  - unfold Manager.import_bgl. run. fold p.
    destruct (negb (os_path_exists _ _)); [left; reflexivity|].
    destruct (negb (Text.endswith _ _)); [left; reflexivity|].
    destruct (Sniffer._is_encrypted_bgl _ _) as [[|] hint]; [left; reflexivity|].
    assert (Hsrc : (fst (Manager.normalize_extension p w) = p
                    \/ fst (Manager.normalize_extension p w)
                       = path_resolve (Manager.w_fs w)
                           (Path.with_suffix p ".bgl"))).
    { unfold Manager.normalize_extension.
      destruct (negb (String.eqb p (Text.lower p))); [|left; reflexivity].
      run. destruct (negb (os_path_exists _ _)); [|left; reflexivity].
      destruct (shutil_copy2 _ _ _); [right|left]; reflexivity. }
    pose proof (normalize_extension_keeps p w) as [_ [_ Hcalls]].
    destruct (Manager.normalize_extension p w) as [source wn].
    cbn [fst snd] in *.
    assert (Hout : forall (r : bool * string) v,
              Manager.decoder_calls v = Manager.decoder_calls wn ++ [source] ->
              Manager.decoder_calls (snd (r, v)) = Manager.decoder_calls w
              \/ Manager.decoder_calls (snd (r, v))
                 = Manager.decoder_calls w ++ [p]
              \/ Manager.decoder_calls (snd (r, v))
                 = Manager.decoder_calls w
                   ++ [path_resolve (Manager.w_fs w)
                         (Path.with_suffix p ".bgl")]).
    { intros r v Hv. cbn [snd]. rewrite Hv, Hcalls.
      destruct Hsrc as [-> | ->]; auto. }
    destruct (glossary_read (Manager.w_fs wn) source) as [e | items [e|]].
    + destruct (existsb _ _); apply Hout; reflexivity.
    + apply Hout. reflexivity.
    + destruct (Manager.collect items) as [|pair pairs];
        [apply Hout; reflexivity|].
      destruct (Manager.clean (pair :: pairs)) as [|c cleaned];
        [apply Hout; reflexivity|].
      store_cases e; apply Hout; reflexivity.
  - intros Hex. unfold Manager.import_bgl. run. fold p. rewrite Hex.
    reflexivity.
  - intros Hex Hext. unfold Manager.import_bgl. run. fold p.
    rewrite Hex, Hext. reflexivity.
Qed.

Lemma import_bgl_decoder_calls_witness :
  Manager.import_bgl (H := Machine.E1) "/d/missing.bgl" Machine.w1
  = ((false, "File not found: /d/missing.bgl"), Machine.w1)
  /\ Manager.import_bgl (H := Machine.E1) "/d/locked.txt" Machine.w1
     = ((false, Manager.msg_extension), Machine.w1).
Proof.
  pose proof (import_bgl_decoder_calls (H := Machine.E1) "/d/missing.bgl"
                Machine.w1) as Hm.
  pose proof (import_bgl_decoder_calls (H := Machine.E1) "/d/locked.txt"
                Machine.w1) as Ht.
  cbv zeta in Hm, Ht. split.
  - exact (proj1 (proj2 Hm) eq_refl).
  - exact (proj2 (proj2 Ht) eq_refl eq_refl).
Defined.

Lemma text_startswith_spec (p s : string) :
  Text.startswith p s = true <-> exists t, s = String.app p t.
Proof.
  revert s. induction p as [|a p IH]; intros s; cbn [Text.startswith].
  - split; [intros _; exists s; reflexivity|reflexivity].
  - destruct s as [|b s].
    + split; [discriminate|intros [t Ht]; discriminate Ht].
    + rewrite andb_true_iff, IH, Ascii.eqb_eq. split.
      * intros [-> [t ->]]. exists t. reflexivity.
      * intros [t Ht]. rewrite app_cons_text in Ht. injection Ht as -> ->.
        split; [reflexivity|]. exists t. reflexivity.
Qed.

Lemma text_contains_spec (k s : string) :
  Text.contains k s = true <-> Inv.occurs k s.
Proof.
  unfold Inv.occurs. induction s as [|b s IH]; cbn [Text.contains].
  - rewrite orb_false_r, text_startswith_spec. split.
    + intros [t Ht]. exists EmptyString, t. exact Ht.
    + intros [h [t Ht]]. destruct h as [|x h]; [|discriminate Ht].
      exists t. exact Ht.
  - rewrite orb_true_iff, text_startswith_spec, IH. split.
    + intros [[t Ht] | [h [t Ht]]].
      * exists EmptyString, t. exact Ht.
      * exists (String b h), t. rewrite app_cons_text, Ht. reflexivity.
    + intros [h [t Ht]]. destruct h as [|x h].
      * left. exists t. exact Ht.
      * right. rewrite app_cons_text in Ht. injection Ht as _ Ht.
        exists h, t. exact Ht.
Qed.

(** What [import_bgl] answers once the file has passed the three checks, by
    what the decoder does. *)
Lemma import_bgl_decoding `{Env} (path : string) (w : Manager.world) :
  os_path_exists (Manager.w_fs w) (os_path_abspath path) = true ->
  Text.endswith ".bgl" (Text.lower (os_path_abspath path)) = true ->
  fst (Sniffer._is_encrypted_bgl (Manager.w_fs w) (os_path_abspath path))
    = false ->
  let source := fst (Manager.normalize_extension (os_path_abspath path) w) in
  let wn := snd (Manager.normalize_extension (os_path_abspath path) w) in
  Manager.answer (Manager.import_bgl path) w =
    match glossary_read (Manager.w_fs wn) source with
    | DirectReadRaises e =>
        if existsb (fun k => Text.contains k (Text.lower e))
             Manager.encryption_keywords
        then (false, Manager.msg_decryption_failed)
        else (false, Manager.msg_parsing e)
    | Decoded _ (Some e) => (false, Manager.msg_reading e)
    | Decoded items None =>
        match Manager.clean (Manager.collect items) with
        | [] => if Nat.eqb (List.length (Manager.collect items)) 0
                then (false, Manager.msg_no_entries)
                else (false, Manager.msg_no_valid)
        | _ :: _ => Manager.answer (Manager.import_bgl path) w
        end
    end.
Proof.
  intros Hex Hext Hsniff source wn. subst source wn.
  unfold Manager.import_bgl. run. rewrite Hex, Hext. cbn [negb].
  destruct (Sniffer._is_encrypted_bgl _ _) as [b hint]. cbn [fst] in Hsniff.
  subst b.
  destruct (Manager.normalize_extension (os_path_abspath path) w)
    as [source wn].
  cbn [fst snd].
  destruct (glossary_read (Manager.w_fs wn) source) as [e | items [e|]].
  - destruct (existsb _ _); reflexivity.
  - reflexivity.
  - destruct (Manager.collect items) as [|pair pairs]; [reflexivity|].
    destruct (Manager.clean (pair :: pairs)) as [|c cleaned]; reflexivity.
Qed.

(** X3. When the decoder refuses a file that passed the checks, the error
    text decides the answer: if one of the words encrypt, password, drm,
    protected occurs in it, in any letter case, the answer is the
    decryption-failed message; otherwise it is the parsing error with the
    decoder's own text.  A failure in the middle of the entries gives the
    reading error. *)
Theorem import_bgl_decoder_errors `{Env} (path : string) (w : Manager.world)
    (e : string) :
  os_path_exists (Manager.w_fs w) (os_path_abspath path) = true ->
  Text.endswith ".bgl" (Text.lower (os_path_abspath path)) = true ->
  fst (Sniffer._is_encrypted_bgl (Manager.w_fs w) (os_path_abspath path))
    = false ->
  let source := fst (Manager.normalize_extension (os_path_abspath path) w) in
  let wn := snd (Manager.normalize_extension (os_path_abspath path) w) in
  (glossary_read (Manager.w_fs wn) source = DirectReadRaises e ->
   (exists k, In k ["encrypt"; "password"; "drm"; "protected"]
              /\ Inv.occurs k (Text.lower e)) ->
   Manager.answer (Manager.import_bgl path) w
   = (false, Manager.msg_decryption_failed))
  /\ (glossary_read (Manager.w_fs wn) source = DirectReadRaises e ->
      (forall k, In k ["encrypt"; "password"; "drm"; "protected"] ->
                 ~ Inv.occurs k (Text.lower e)) ->
      Manager.answer (Manager.import_bgl path) w
      = (false, String.app "BGL parsing error: " e))
  /\ (forall items,
        glossary_read (Manager.w_fs wn) source = Decoded items (Some e) ->
        Manager.answer (Manager.import_bgl path) w
        = (false, String.app "Error reading entries: " e)).
Proof.
  intros Hex Hext Hsniff source wn.
  pose proof (import_bgl_decoding path w Hex Hext Hsniff) as Hd.
  cbv zeta in Hd. fold source wn in Hd. rewrite Hd.
  split; [|split].
  - intros -> [k [Hk Hocc]].
    assert (Hb : existsb (fun k => Text.contains k (Text.lower e))
              Manager.encryption_keywords = true).
    { apply existsb_exists. exists k. split; [exact Hk|].
      apply text_contains_spec, Hocc. }
    rewrite Hb. reflexivity.
  - intros -> Hnone.
    destruct (existsb (fun k => Text.contains k (Text.lower e))
                Manager.encryption_keywords) eqn:Hb; [|reflexivity].
    apply existsb_exists in Hb. destruct Hb as [k [Hk Hc]].
    exfalso. apply (Hnone k Hk). apply text_contains_spec, Hc.
  - intros items ->. reflexivity.
Qed.

Lemma import_bgl_decoder_errors_witness :
  Manager.answer
    (Manager.import_bgl
       (H := Machine.stub (DirectReadRaises "File is DRM Protected"))
       "/d/new.bgl")
    (Machine.s0 (DirectReadRaises "File is DRM Protected"))
  = (false, Manager.msg_decryption_failed)
  /\ Manager.answer
       (Manager.import_bgl
          (H := Machine.stub (DirectReadRaises "Unexpected end of file"))
          "/d/new.bgl")
       (Machine.s0 (DirectReadRaises "Unexpected end of file"))
     = (false, "BGL parsing error: Unexpected end of file")
  /\ Manager.answer
       (Manager.import_bgl
          (H := Machine.stub (Decoded [Machine.item "a" "b"] (Some "cut")))
          "/d/new.bgl")
       (Machine.s0 (Decoded [Machine.item "a" "b"] (Some "cut")))
     = (false, "Error reading entries: cut").
Proof.
  split; [|split].
  - refine (proj1 (import_bgl_decoder_errors
                     (H := Machine.stub (DirectReadRaises "File is DRM Protected"))
                     "/d/new.bgl"
                     (Machine.s0 (DirectReadRaises "File is DRM Protected"))
                     "File is DRM Protected"
                     eq_refl eq_refl eq_refl) eq_refl _).
    exists "drm". split; [cbn; tauto|].
    exists "file is ", " protected". reflexivity.
  - refine (proj1 (proj2 (import_bgl_decoder_errors
                     (H := Machine.stub (DirectReadRaises "Unexpected end of file"))
                     "/d/new.bgl"
                     (Machine.s0 (DirectReadRaises "Unexpected end of file"))
                     "Unexpected end of file"
                     eq_refl eq_refl eq_refl)) eq_refl _).
    intros k Hk Hocc. apply (proj2 (text_contains_spec _ _)) in Hocc.
    cbn in Hk. destruct Hk as [<-|[<-|[<-|[<-|[]]]]]; vm_compute in Hocc;
      discriminate Hocc.
  - exact (proj2 (proj2 (import_bgl_decoder_errors
                     (H := Machine.stub
                             (Decoded [Machine.item "a" "b"] (Some "cut")))
                     "/d/new.bgl"
                     (Machine.s0 (Decoded [Machine.item "a" "b"] (Some "cut")))
                     "cut" eq_refl eq_refl eq_refl))
             [Machine.item "a" "b"] eq_refl).
Defined.

Lemma collect_empty (items : list glossary_entry) :
  Manager.collect items = []
  <-> Forall (fun it => isData it = true \/ s_word it = EmptyString
                        \/ defi it = EmptyString) items.
Proof.
  unfold Manager.collect. induction items as [|it items IH]; cbn.
  - split; [constructor|reflexivity].
  - destruct (isData it) eqn:Hd; cbn.
    + rewrite IH. split; [intros Hf; constructor; auto|].
      intros Hf. inversion Hf; assumption.
    + destruct (s_word it) as [|a ws] eqn:Hw; cbn.
      * rewrite IH. split; [intros Hf; constructor; auto|].
        intros Hf. inversion Hf; assumption.
      * destruct (defi it) as [|b ds] eqn:Hdf; cbn.
        -- rewrite IH. split; [intros Hf; constructor; auto|].
           intros Hf. inversion Hf; assumption.
        -- split; [discriminate|]. intros Hf. inversion Hf as [|? ? Hit _].
           destruct Hit as [Hc|[Hc|Hc]]; congruence.
Qed.

Lemma clean_empty (pairs : list (string * string)) :
  Manager.clean pairs = []
  <-> Forall (fun wd => Text.strip (fst wd) = EmptyString
                        \/ Text.strip (snd wd) = EmptyString) pairs.
Proof.
  unfold Manager.clean. induction pairs as [|[w d] pairs IH].
  - split; [constructor|reflexivity].
  - cbn [List.map List.filter fst snd].
    destruct (Text.strip w) as [|a ws] eqn:Hw; cbn [Text.truthy andb].
    + split.
      * intros Hf. constructor; [left; exact Hw|apply IH, Hf].
      * intros Hf. inversion Hf; subst. apply IH. assumption.
    + destruct (Text.strip d) as [|b ds] eqn:Hd; cbn [Text.truthy andb].
      * split.
        -- intros Hf. constructor; [right; exact Hd|apply IH, Hf].
        -- intros Hf. inversion Hf; subst. apply IH. assumption.
      * split; [discriminate|]. intros Hf. inversion Hf as [|? ? Hit _].
        cbn [fst snd] in Hit. destruct Hit as [Hc|Hc]; congruence.
Qed.

Lemma clean_collect_blank (items : list glossary_entry) :
  Forall (fun it => isData it = true
                    \/ Text.strip (s_word it) = EmptyString
                    \/ Text.strip (defi it) = EmptyString) items ->
  Manager.clean (Manager.collect items) = [].
Proof.
  intros Hall. apply clean_empty. unfold Manager.collect.
  apply List.Forall_forall. intros [w d] Hin.
  apply in_map_iff in Hin. destruct Hin as [it [Heq Hin]].
  injection Heq as <- <-. apply filter_In in Hin. destruct Hin as [Hin Hkeep].
  rewrite List.Forall_forall in Hall. specialize (Hall it Hin).
  apply andb_true_iff in Hkeep. destruct Hkeep as [Hkeep _].
  apply andb_true_iff in Hkeep. destruct Hkeep as [Hd _].
  apply negb_true_iff in Hd. cbn [fst snd].
  destruct Hall as [Hc|[Hc|Hc]]; [congruence|left|right]; exact Hc.
Qed.

(** X4. A glossary that decodes without error but yields nothing usable is
    rejected: when every record is a data record or has an empty word or
    definition, with the no-entries message; when some record is not, but
    every record is a data record or has a word or definition that is blank
    after trimming, with the no-valid-entries message. *)
Theorem import_bgl_empty_results `{Env} (path : string) (w : Manager.world)
    (items : list glossary_entry) :
  os_path_exists (Manager.w_fs w) (os_path_abspath path) = true ->
  Text.endswith ".bgl" (Text.lower (os_path_abspath path)) = true ->
  fst (Sniffer._is_encrypted_bgl (Manager.w_fs w) (os_path_abspath path))
    = false ->
  glossary_read
    (Manager.w_fs (snd (Manager.normalize_extension (os_path_abspath path) w)))
    (fst (Manager.normalize_extension (os_path_abspath path) w))
  = Decoded items None ->
  (Forall (fun it => isData it = true \/ s_word it = EmptyString
                     \/ defi it = EmptyString) items ->
   Manager.answer (Manager.import_bgl path) w
   = (false, "Dictionary contains no entries (likely encrypted or corrupted)"))
  /\ (~ Forall (fun it => isData it = true \/ s_word it = EmptyString
                          \/ defi it = EmptyString) items ->
      Forall (fun it => isData it = true
                        \/ Text.strip (s_word it) = EmptyString
                        \/ Text.strip (defi it) = EmptyString) items ->
      Manager.answer (Manager.import_bgl path) w
      = (false, "No valid entries after cleaning (encoding issues)")).
Proof.
  intros Hex Hext Hsniff Hread.
  pose proof (import_bgl_decoding path w Hex Hext Hsniff) as Hd.
  cbv zeta in Hd. rewrite Hread in Hd. rewrite Hd. split.
  - intros Hall. apply collect_empty in Hall. rewrite Hall. reflexivity.
  - intros Hsome Hblank. rewrite (clean_collect_blank items Hblank).
    destruct (Manager.collect items) as [|pair pairs] eqn:Hc; [|reflexivity].
    exfalso. apply Hsome, collect_empty, Hc.
Qed.

Lemma import_bgl_empty_results_witness :
  Manager.answer
    (Manager.import_bgl
       (H := Machine.stub
               (Decoded [ {| isData := true; s_word := "img.png"; defi := "x" |};
                          Machine.item "" "lost" ] None))
       "/d/new.bgl")
    (Machine.s0
       (Decoded [ {| isData := true; s_word := "img.png"; defi := "x" |};
                  Machine.item "" "lost" ] None))
  = (false, Manager.msg_no_entries)
  /\ Manager.answer
       (Manager.import_bgl
          (H := Machine.stub (Decoded [ Machine.item "  " "lost" ] None))
          "/d/new.bgl")
       (Machine.s0 (Decoded [ Machine.item "  " "lost" ] None))
     = (false, Manager.msg_no_valid).
Proof.
  split.
  - refine (proj1 (import_bgl_empty_results
                     (H := Machine.stub
                             (Decoded [ {| isData := true; s_word := "img.png";
                                           defi := "x" |};
                                        Machine.item "" "lost" ] None))
                     "/d/new.bgl"
                     (Machine.s0
                        (Decoded [ {| isData := true; s_word := "img.png";
                                      defi := "x" |};
                                   Machine.item "" "lost" ] None))
                     _ eq_refl eq_refl eq_refl eq_refl) _).
    apply List.Forall_cons; [left; reflexivity|].
    apply List.Forall_cons; [right; left; reflexivity|].
    apply List.Forall_nil.
  - refine (proj2 (import_bgl_empty_results
                     (H := Machine.stub
                             (Decoded [ Machine.item "  " "lost" ] None))
                     "/d/new.bgl"
                     (Machine.s0 (Decoded [ Machine.item "  " "lost" ] None))
                     _ eq_refl eq_refl eq_refl eq_refl) _ _).
    + intros Hf. inversion Hf as [|? ? Hit _].
      destruct Hit as [Hc|[Hc|Hc]]; discriminate Hc.
    + apply List.Forall_cons; [right; left; reflexivity|].
      apply List.Forall_nil.
Defined.

(** A successful [import_bgl], with the batch it stored. *)
Lemma import_bgl_success_batch `{Env} (path : string) (w w' : Manager.world)
    (msg : string) :
  Manager.import_bgl path w = ((true, msg), w') ->
  exists (source : string) (items : list glossary_entry),
    Manager.w_db w' =
      Spec.ingested_db (Manager.derive_name (os_path_abspath path)) source
        (Manager.clean (Manager.collect items)) (Manager.w_db w)
    /\ Manager.current_dict_id w'
       = Some (Sql.new_dictionary_id (Manager.w_db w))
    /\ source = fst (Manager.normalize_extension (os_path_abspath path) w).
Proof.
  unfold Manager.import_bgl. run.
  destruct (negb (os_path_exists _ _)); [discriminate|].
  destruct (negb (Text.endswith _ _)); [discriminate|].
  destruct (Sniffer._is_encrypted_bgl _ _) as [[|] hint]; [discriminate|].
  pose proof (normalize_extension_keeps (os_path_abspath path) w)
    as [Hdb [Hcur Hcalls]].
  destruct (Manager.normalize_extension (os_path_abspath path) w)
    as [source wn].
  cbn [fst snd] in *.
  destruct (glossary_read (Manager.w_fs wn) source) as [e | items [e|]].
  - destruct (existsb _ _); discriminate.
  - discriminate.
  - destruct (Manager.collect items) as [|pair pairs] eqn:Hcol; [discriminate|].
    destruct (Manager.clean (pair :: pairs)) as [|c cleaned] eqn:Hclean;
      [discriminate|].
    store_cases e; [discriminate|].
    cbn [Manager.w_db Manager.w_fs Manager.current_dict_id
         Manager.decoder_calls].
    intros Heq. injection Heq as <- <-.
    exists source, items.
    cbn [Manager.w_db Manager.current_dict_id].
    rewrite Hcol, Hclean, Hdb. repeat split.
Qed.

Lemma clean_trimmed (pairs : list (string * string)) (w d : string) :
  In (w, d) (Manager.clean pairs) -> Inv.trimmed w /\ Inv.trimmed d.
Proof.
  unfold Manager.clean. intros Hin. apply filter_In in Hin.
  destruct Hin as [Hin Hne]. apply in_map_iff in Hin.
  destruct Hin as [[w0 d0] [Heq _]]. cbn [fst snd] in *.
  injection Heq as <- <-. apply andb_true_iff in Hne. destruct Hne as [Hw Hd].
  unfold Inv.trimmed. rewrite !strip_fixed. repeat split.
  - intros Hc. rewrite Hc in Hw. discriminate Hw.
  - intros Hc. rewrite Hc in Hd. discriminate Hd.
Qed.

(** X5. After a successful ingestion every entry of the dictionary that is
    now active has a word and a definition that are not empty and carry no
    whitespace at either end. *)
Theorem import_bgl_entries_trimmed `{Env} (path : string)
    (w w' : Manager.world) (msg : string) (e : Sql.entry) :
  Manager.import_bgl path w = ((true, msg), w') ->
  In e (Sql.entries (Manager.w_db w')) ->
  Manager.current_dict_id w' = Some (Sql.e_dictionary_id e) ->
  Inv.trimmed (Sql.e_word e) /\ Inv.trimmed (Sql.e_definition e).
Proof.
  intros Himp Hin Hcur.
  apply import_bgl_success_batch in Himp.
  destruct Himp as [source [items [Hdb [Hcur' _]]]].
  rewrite Hcur' in Hcur. injection Hcur as Hid.
  pose proof (ingested_db_batch (Manager.derive_name (os_path_abspath path))
                source (Manager.clean (Manager.collect items))
                (Manager.w_db w)) as Hbatch.
  rewrite <- Hdb in Hbatch.
  assert (Hmem : In (Spec.entry_content e)
            (List.map Spec.entry_content
               (List.filter
                  (fun e0 => Nat.eqb (Sql.e_dictionary_id e0)
                               (Sql.new_dictionary_id (Manager.w_db w)))
                  (Sql.entries (Manager.w_db w'))))).
  { apply in_map, filter_In. split; [exact Hin|].
    apply Nat.eqb_eq. symmetry. exact Hid. }
  rewrite Hbatch in Hmem. apply in_map_iff in Hmem.
  destruct Hmem as [[wd dd] [Heq Hclean]]. unfold Spec.entry_content in Heq.
  injection Heq as _ Hw Hd. subst wd dd.
  eapply clean_trimmed. exact Hclean.
Qed.

Lemma import_bgl_entries_trimmed_witness :
  Inv.trimmed "ab" /\ Inv.trimmed "water".
Proof.
  exact (import_bgl_entries_trimmed (H := Machine.E1) "/d/farsi-basic.bgl"
           Machine.w0 Machine.w1 "✅ Imported 2 entries from 'farsi_basic'"
           {| Sql.e_id := 2; Sql.e_dictionary_id := 1; Sql.e_word := "ab";
              Sql.e_definition := "water" |}
           eq_refl (or_intror (or_introl eq_refl)) eq_refl).
Defined.

(** ** Ingestion: what it keeps *)

Lemma NoDup_snoc {A} (l : list A) (x : A) :
  List.NoDup l -> ~ In x l -> List.NoDup (l ++ [x]).
Proof.
  intros Hl Hx. apply List.NoDup_app; [exact Hl|repeat constructor; cbn; tauto|].
  intros y Hy [<- | []]. exact (Hx Hy).
Qed.

Lemma insert_entries_key (id : nat) (batch : list (string * string))
    (db : Sql.database) :
  List.NoDup (List.map Sql.e_id (Sql.entries db)) ->
  List.NoDup (List.map Sql.e_id (Sql.entries (Sql.insert_entries id batch db))).
Proof.
  unfold Sql.insert_entries. revert db.
  induction batch as [|wd batch IH]; intros db Hk; cbn [fold_left];
    [exact Hk|].
  apply IH. cbn [Sql.insert_entry Sql.with_entries Sql.entries].
  rewrite List.map_app. cbn [List.map Sql.e_id].
  apply NoDup_snoc; [exact Hk|apply next_rowid_fresh].
Qed.

Lemma ingested_db_dictionaries (name source : string)
    (cleaned : list (string * string)) (db : Sql.database) :
  Sql.dictionaries (Spec.ingested_db name source cleaned db) =
    List.filter
      (fun d =>
         negb (existsb (Nat.eqb (Sql.d_id d))
                 (List.map Sql.d_id
                    (List.filter (fun d => String.eqb (Sql.d_name d) name)
                       (Sql.dictionaries db)))))
      (Sql.dictionaries db)
    ++ [ {| Sql.d_id := Sql.new_dictionary_id db; Sql.d_name := name;
            Sql.d_source_path := source;
            Sql.d_word_count := List.length cleaned;
            Sql.d_is_encrypted := false |} ].
Proof.
  unfold Spec.ingested_db.
  destruct (insert_entries_appends (Sql.new_dictionary_id db) cleaned
              (Sql.delete_entries (Sql.new_dictionary_id db)
                 (Sql.replace_dictionary Sql.foreign_keys name source
                    (List.length cleaned) db))) as [rows [_ [_ Hd]]].
  rewrite Hd. reflexivity.
Qed.

Lemma ingested_db_ok (name source : string)
    (cleaned : list (string * string)) (db : Sql.database) :
  Inv.store_ok db -> Inv.store_ok (Spec.ingested_db name source cleaned db).
Proof.
  intros [Hnames [Hids Heids]]. unfold Inv.store_ok.
  rewrite ingested_db_dictionaries, !List.map_app. cbn [List.map].
  split; [|split].
  - apply NoDup_snoc; [apply NoDup_map_filter, Hnames|].
    cbn [Sql.d_name]. intros Hin. apply in_map_iff in Hin.
    destruct Hin as [d [Hn Hd]].
    pose proof (replace_clears_name Sql.foreign_keys name db) as Hclear.
    cbn [Sql.delete_dictionaries Sql.dictionaries] in Hclear.
    assert (Hd' : In d (List.filter
                          (fun d => String.eqb (Sql.d_name d) name)
                          (List.filter
                             (fun d =>
                                negb (existsb (Nat.eqb (Sql.d_id d))
                                        (List.map Sql.d_id
                                           (List.filter
                                              (fun d => String.eqb (Sql.d_name d) name)
                                              (Sql.dictionaries db)))))
                             (Sql.dictionaries db)))).
    { apply filter_In. split; [exact Hd|]. apply String.eqb_eq, Hn. }
    rewrite Hclear in Hd'. exact Hd'.
  - apply NoDup_snoc; [apply NoDup_map_filter, Hids|].
    cbn [Sql.d_id]. intros Hin. apply in_map_iff in Hin.
    destruct Hin as [d [Hi Hd]]. apply filter_In in Hd. destruct Hd as [Hd _].
    apply (next_rowid_fresh (Sql.seq_dictionaries db)
             (List.map Sql.d_id (Sql.dictionaries db))).
    fold (Sql.new_dictionary_id db). rewrite <- Hi. apply in_map, Hd.
  - unfold Spec.ingested_db. apply insert_entries_key.
    cbn [Sql.delete_entries Sql.with_entries Sql.entries
         Sql.replace_dictionary Sql.delete_dictionaries Sql.foreign_keys].
    apply NoDup_map_filter, Heids.
Qed.

(** Every run of [import_bgl] leaves the store as it was or as
    [Spec.ingested_db] makes it. *)
Lemma import_bgl_db `{Env} (path : string) (w : Manager.world) :
  Manager.w_db (Manager.after (Manager.import_bgl path) w) = Manager.w_db w
  \/ exists source cleaned,
       Manager.w_db (Manager.after (Manager.import_bgl path) w)
       = Spec.ingested_db (Manager.derive_name (os_path_abspath path)) source
           cleaned (Manager.w_db w).
Proof.
  destruct (import_bgl_outcome path w)
    as [[_ [Hdb _]] | [_ [source [cleaned [_ [Hdb _]]]]]].
  - left. exact Hdb.
  - right. exists source, cleaned. exact Hdb.
Qed.

(** X6. [import_bgl] keeps the constraints of the schema, whether it
    succeeds or fails: dictionary names stay unique, and the ids of
    dictionaries and of entries stay keys. *)
Theorem import_bgl_keeps_schema `{Env} (path : string) (w : Manager.world) :
  Inv.store_ok (Manager.w_db w) ->
  Inv.store_ok (Manager.w_db (Manager.after (Manager.import_bgl path) w)).
Proof.
  intros Hok. destruct (import_bgl_db path w) as [-> | [source [cleaned ->]]].
  - exact Hok.
  - apply ingested_db_ok, Hok.
Qed.

Lemma import_bgl_keeps_schema_witness :
  Inv.store_ok (Manager.w_db Machine.w0)
  /\ Inv.store_ok (Manager.w_db Machine.w2).
Proof.
  assert (H0 : Inv.store_ok (Manager.w_db Machine.w0))
    by (repeat split; constructor).
  split; [exact H0|].
  apply (import_bgl_keeps_schema (H := Machine.E1) "/d/farsi-basic.bgl"
           Machine.w1).
  apply (import_bgl_keeps_schema (H := Machine.E1) "/d/farsi-basic.bgl"
           Machine.w0).
  exact H0.
Defined.

(** X7. On a store that only the manager has written to, [import_bgl]
    removes and changes no row of [entries]: what was there stays, in
    place, and a successful run appends its batch behind it; and the store
    is again one that only the manager has written to. *)
Theorem import_bgl_appends `{Env} (path : string) (w : Manager.world) :
  Spec.entries_refer_back (Manager.w_db w) ->
  Spec.entries_refer_back
    (Manager.w_db (Manager.after (Manager.import_bgl path) w))
  /\ exists rows,
       Sql.entries (Manager.w_db (Manager.after (Manager.import_bgl path) w))
       = Sql.entries (Manager.w_db w) ++ rows
       /\ (fst (Manager.answer (Manager.import_bgl path) w) = true ->
           rows <> []
           /\ Forall (fun e => Some (Sql.e_dictionary_id e)
                               = Manager.current_dict_id
                                   (Manager.after (Manager.import_bgl path) w))
                rows).
Proof.
  intros Hback.
  destruct (import_bgl_outcome path w)
    as [[Hfail [Hdb _]] | [_ [source [cleaned [Hne [Hdb Hcur]]]]]].
  - rewrite Hdb. split; [exact Hback|]. exists []. rewrite app_nil_r.
    split; [reflexivity|]. rewrite Hfail. discriminate.
  - rewrite Hdb. split; [apply ingested_db_refers_back, Hback|].
    destruct (ingested_db_appends
                (Manager.derive_name (os_path_abspath path)) source cleaned
                (Manager.w_db w) Hback) as [rows [He Hc]].
    exists rows. split; [exact He|]. intros _. split.
    + intros ->. destruct cleaned; [congruence|discriminate Hc].
    + apply List.Forall_forall. intros e Hin. rewrite Hcur. f_equal.
      assert (Hm : In (Spec.entry_content e)
                (List.map Spec.entry_content rows)) by apply in_map, Hin.
      rewrite Hc in Hm. apply in_map_iff in Hm.
      destruct Hm as [wd [Heq _]]. unfold Spec.entry_content in Heq.
      injection Heq as Hid _. symmetry. exact Hid.
Qed.

Lemma import_bgl_appends_witness :
  Spec.entries_refer_back (Manager.w_db Machine.w1)
  /\ exists rows,
       Sql.entries (Manager.w_db Machine.w2)
       = Sql.entries (Manager.w_db Machine.w1) ++ rows.
Proof.
  assert (H0 : Spec.entries_refer_back (Manager.w_db Machine.w0))
    by constructor.
  pose proof (import_bgl_appends (H := Machine.E1) "/d/farsi-basic.bgl"
                Machine.w0 H0) as [H1 _].
  split; [exact H1|].
  destruct (import_bgl_appends (H := Machine.E1) "/d/farsi-basic.bgl"
              Machine.w1 H1) as [_ [rows [He _]]].
  exists rows. exact He.
Defined.

(** ** Search: what it finds *)

Lemma search_sound_witness :
  Spec.prefix_match "SA" "salam" = true
  /\ (Z.of_nat
        (List.length
           (Manager.answer (Manager.search (H := Machine.E1) "SA" 20)
              Machine.w1)) <= 20)%Z.
Proof.
  pose proof (search_sound (H := Machine.E1) Machine.w1 "SA" 20)
    as [_ [Hlen Hpre]].
  split.
  - exact (proj1 (Hpre eq_refl eq_refl "salam" "hello" (or_introl eq_refl))).
  - apply Hlen. lia.
Defined.

Lemma pattern_compare_any (s : string) : Sql.pattern_compare "%" s = true.
Proof.
  induction s as [|c s IH]; [reflexivity|].
  change (Sql.pattern_compare "%" (String c s))
    with (Sql.pattern_compare EmptyString (String c s)
          || Sql.pattern_compare "%" s).
  rewrite IH. apply orb_true_r.
Qed.

(** A text that starts with [p] matches the pattern [p%], also when a
    U+0000 is in [p]: the pattern and the text are then cut at the same
    place. *)
Lemma like_complete (p s : string) :
  Spec.wildcard_free p = true ->
  Text.startswith p s = true ->
  Sql.like (String.app p "%") s = true.
Proof.
  revert s. induction p as [|c p IH]; intros s Hfree Hpre.
  - rewrite app_nil_text. apply pattern_compare_any.
  - cbn [Spec.wildcard_free] in Hfree.
    apply andb_true_iff in Hfree. destruct Hfree as [Hc Hfree].
    apply andb_true_iff in Hc. destruct Hc as [Hp Hu].
    apply negb_true_iff in Hp, Hu.
    destruct s as [|d s]; [discriminate Hpre|].
    cbn [Text.startswith] in Hpre. apply andb_true_iff in Hpre.
    destruct Hpre as [Hcd Hpre]. apply Ascii.eqb_eq in Hcd. subst d.
    rewrite like_unfold, app_cons_text. cbn [Sql.c_string].
    destruct (Ascii.eqb c Ascii.zero); [reflexivity|].
    cbn [Sql.pattern_compare]. rewrite Hp, Hu.
    rewrite Ascii.eqb_refl. cbn [andb]. apply IH; assumption.
Qed.

(** X9. [search] finds what is there: with a dictionary active and no limit
    (a negative [limit]), every entry of that dictionary whose word, its
    ASCII capitals folded, starts with the lower-cased trimmed query is
    among the answers, provided the trimmed query is not empty and holds no
    [_] and no [%]. *)
Theorem search_complete `{Env} (w : Manager.world) (q : string) (limit : Z)
    (e : Sql.entry) :
  Manager.id_truthy (Manager.current_dict_id w) = true ->
  Manager.current_dict_id w = Some (Sql.e_dictionary_id e) ->
  In e (Sql.entries (Manager.w_db w)) ->
  Text.strip q <> EmptyString ->
  Spec.wildcard_free (Text.strip q) = true ->
  Text.startswith (Text.lower (Text.strip q)) (Text.sql_lower (Sql.e_word e))
    = true ->
  (limit < 0)%Z ->
  In (Sql.e_word e, Sql.e_definition e)
    (Manager.answer (Manager.search q limit) w).
Proof.
  intros Hact Hcur Hin Hq Hfree Hpre Hlim.
  unfold Manager.search. run. rewrite Hact.
  destruct (Text.strip q) as [|c qs] eqn:Hs; [congruence|].
  cbn [Text.truthy negb orb]. unfold Sql.select_entries, Sql.limit.
  destruct (Z.ltb_spec limit 0) as [_|Hge]; [|lia].
  apply in_map_iff. exists e. split; [reflexivity|].
  unfold Sql.matching_entries.
  apply (proj2 (order_by_In _ _ e)). apply filter_In. split; [exact Hin|].
  apply andb_true_iff. split.
  - rewrite Hcur. cbn. apply Nat.eqb_refl.
  - apply like_complete; [|exact Hpre].
    rewrite wildcard_free_lower. exact Hfree.
Qed.

Lemma search_complete_witness :
  In ("salam", "hello")
    (Manager.answer (Manager.search (H := Machine.E1) " Sal " (-1)) Machine.w1).
Proof.
  refine (search_complete (H := Machine.E1) Machine.w1 " Sal " (-1)
            {| Sql.e_id := 1; Sql.e_dictionary_id := 1; Sql.e_word := "salam";
               Sql.e_definition := "hello" |}
            eq_refl eq_refl (or_introl eq_refl) _ eq_refl eq_refl _).
  - discriminate.
  - lia.
Defined.

(** [LOWER] folds ASCII only: an entry whose word begins with a capital
    above U+007F is not found by that very word. *)
Example search_misses_latin_capital :
  let db := Sql.insert_entries 1 [ (String "192"%char "propos", "by the way") ]
              Sql.empty in
  Sql.select_entries (Some 1)
    (String.app (Text.lower (String "192"%char "propos")) "%") (-1) db = []
  /\ Spec.prefix_match (String "192"%char "propos")
       (String "192"%char "propos") = true.
Proof. split; reflexivity. Qed.

(** X10. The suggestions are the words of the search answers, each once:
    whatever the limit, no suggestion comes twice and each is the word of
    an answer of the unlimited [search] for the same text; and without a
    limit they are exactly the distinct words of those answers. *)
Theorem get_suggestions_of_search `{Env} (w : Manager.world) (q : string)
    (limit : Z) :
  List.NoDup (Manager.answer (Manager.get_suggestions q limit) w)
  /\ (forall word,
        In word (Manager.answer (Manager.get_suggestions q limit) w) ->
        exists d, In (word, d) (Manager.answer (Manager.search q (-1)) w))
  /\ ((limit < 0)%Z ->
      Manager.answer (Manager.get_suggestions q limit) w
      = remove_dups
          (List.map fst (Manager.answer (Manager.search q (-1)) w))).
Proof.
  split; [apply get_suggestions_distinct|].
  unfold Manager.get_suggestions, Manager.search. run.
  destruct (negb (Manager.id_truthy (Manager.current_dict_id w))
            || negb (Text.truthy (Text.strip q))).
  - split; [intros word []|reflexivity].
  - cbn [fst]. unfold Sql.select_distinct_words, Sql.select_entries,
      Sql.distinct.
    change (Sql.limit (-1) ?l) with l.
    rewrite List.map_map. cbn [fst]. split.
    + intros word Hin. apply limit_In in Hin.
      apply (proj2 (list_elem_of_In _ _)) in Hin.
      apply (proj1 (elem_of_remove_dups _ _)) in Hin.
      apply (proj1 (list_elem_of_In _ _)) in Hin.
      apply in_map_iff in Hin. destruct Hin as [e [<- Hin]].
      exists (Sql.e_definition e). apply in_map_iff. exists e.
      split; [reflexivity|exact Hin].
    + intros Hlim. unfold Sql.limit.
      destruct (Z.ltb_spec limit 0) as [_|Hge]; [reflexivity|lia].
Qed.

Lemma get_suggestions_of_search_witness :
  Manager.answer (Manager.get_suggestions (H := Machine.E1) "s" (-5)) Machine.w1
  = remove_dups
      (List.map fst
         (Manager.answer (Manager.search (H := Machine.E1) "s" (-1))
            Machine.w1)).
Proof.
  apply (get_suggestions_of_search (H := Machine.E1) Machine.w1 "s" (-5)).
  lia.
Defined.

(** ** The dictionaries and the active pointer *)

(** X11. [get_dictionaries] lists every stored dictionary once, as its id,
    name and word count, ascending by name, and changes nothing. *)
Theorem get_dictionaries_lists `{Env} (w : Manager.world) :
  Manager.after Manager.get_dictionaries w = w
  /\ Permutation (Manager.answer Manager.get_dictionaries w)
       (List.map (fun d => (Sql.d_id d, Sql.d_name d, Sql.d_word_count d))
          (Sql.dictionaries (Manager.w_db w)))
  /\ Sorted Inv.name_le (Manager.answer Manager.get_dictionaries w).
Proof.
  unfold Manager.get_dictionaries. run. unfold Sql.select_dictionaries.
  split; [reflexivity|]. split.
  - apply Permutation_map, order_by_perm.
  - apply Sorted_map.
    apply (order_by_sorted
             (fun a b => String.leb (Sql.d_name a) (Sql.d_name b))).
    intros a b. apply String.leb_total.
Qed.

(** X12. [set_active_dictionary(id)] answers [True] exactly when a
    dictionary with that id is stored; then the pointer is that id; when it
    answers [False] the pointer stays where it was.  The store is never
    touched. *)
Theorem set_active_dictionary_known `{Env} (w : Manager.world) (id : nat) :
  let w' := Manager.after (Manager.set_active_dictionary id) w in
  (Manager.answer (Manager.set_active_dictionary id) w = true
   <-> exists d, In d (Sql.dictionaries (Manager.w_db w)) /\ Sql.d_id d = id)
  /\ (Manager.answer (Manager.set_active_dictionary id) w = true ->
      Manager.current_dict_id w' = Some id)
  /\ (Manager.answer (Manager.set_active_dictionary id) w = false -> w' = w)
  /\ Manager.w_db w' = Manager.w_db w.
Proof.
  unfold Manager.set_active_dictionary. run.
  unfold Sql.exists_dictionary.
  destruct (existsb (fun d => Nat.eqb (Sql.d_id d) id)
              (Sql.dictionaries (Manager.w_db w))) eqn:Hex; cbn.
  - apply existsb_exists in Hex. destruct Hex as [d [Hd Hid]].
    apply Nat.eqb_eq in Hid.
    split; [split; [intros _; exists d; tauto|reflexivity]|].
    split; [reflexivity|]. split; [discriminate|reflexivity].
  - split.
    + split; [discriminate|]. intros [d [Hd Hid]].
      assert (Ht : existsb (fun d => Nat.eqb (Sql.d_id d) id)
                (Sql.dictionaries (Manager.w_db w)) = true).
      { apply existsb_exists. exists d. split; [exact Hd|].
        apply Nat.eqb_eq, Hid. }
      congruence.
    + split; [discriminate|]. split; reflexivity.
Qed.

Lemma set_active_dictionary_known_witness :
  Manager.answer (Manager.set_active_dictionary (H := Machine.E1) 2) Machine.w2
  = true
  /\ Manager.after (Manager.set_active_dictionary (H := Machine.E1) 1)
       Machine.w2 = Machine.w2.
Proof.
  pose proof (set_active_dictionary_known (H := Machine.E1) Machine.w2 2) as H2.
  pose proof (set_active_dictionary_known (H := Machine.E1) Machine.w2 1) as H1.
  cbv zeta in H1, H2. split.
  - apply (proj1 H2).
    exists {| Sql.d_id := 2; Sql.d_name := "farsi_basic";
              Sql.d_source_path := "/d/farsi-basic.bgl";
              Sql.d_word_count := 2; Sql.d_is_encrypted := false |}.
    split; [left; reflexivity|reflexivity].
  - apply (proj1 (proj2 (proj2 H1))). reflexivity.
Defined.

Lemma import_bgl_pointer `{Env} (path : string) (w : Manager.world) :
  Inv.pointer_ok w -> Inv.pointer_ok (Manager.after (Manager.import_bgl path) w).
Proof.
  intros Hok. unfold Inv.pointer_ok in *.
  destruct (import_bgl_outcome path w)
    as [[_ [Hdb Hcur]] | [_ [source [cleaned [_ [Hdb Hcur]]]]]].
  - rewrite Hcur, Hdb. exact Hok.
  - rewrite Hcur, Hdb, ingested_db_dictionaries.
    eexists. split; [apply in_or_app; right; left; reflexivity|reflexivity].
Qed.

Lemma scan_files_pointer `{Env} (existing : gset string) (files : list string)
    (w : Manager.world) :
  Inv.pointer_ok w ->
  Inv.pointer_ok (snd (Manager.scan_files existing files w)).
Proof.
  revert w. induction files as [|f files IH]; intros w Hok; [exact Hok|].
  cbn [Manager.scan_files]. unfold Manager.scan_file. run.
  destruct (decide (path_absolute f ∈ existing)).
  - specialize (IH w Hok).
    destruct (Manager.scan_files existing files w) as [rs w']. exact IH.
  - pose proof (import_bgl_pointer f w Hok) as Hstep.
    unfold Manager.after in Hstep.
    destruct (Manager.import_bgl f w) as [r w1]. cbn [fst snd] in *.
    specialize (IH w1 Hstep).
    destruct (Manager.scan_files existing files w1) as [rs w']. exact IH.
Qed.

(** X13. The active-dictionary pointer never dangles: if it is unset or
    refers to a stored dictionary, it still does after [import_bgl], after
    [scan_and_import] and after [set_active_dictionary], whatever their
    outcome. *)
Theorem pointer_never_dangles `{Env} (w : Manager.world) (path : string)
    (id : nat) :
  Inv.pointer_ok w ->
  Inv.pointer_ok (Manager.after (Manager.import_bgl path) w)
  /\ Inv.pointer_ok (Manager.after (Manager.scan_and_import path) w)
  /\ Inv.pointer_ok (Manager.after (Manager.set_active_dictionary id) w).
Proof.
  intros Hok. split; [apply import_bgl_pointer, Hok|]. split.
  - unfold Manager.scan_and_import. run.
    destruct (negb (os_path_exists _ _)); [exact Hok|].
    destruct (path_iterdir _ _) as [listing|]; [|exact Hok].
    destruct (List.filter _ listing) as [|f files]; [exact Hok|].
    pose proof (scan_files_pointer
                  (list_to_set (Sql.select_source_paths (Manager.w_db w)))
                  (f :: files) w Hok) as Hs.
    destruct (Manager.scan_files _ (f :: files) w) as [rs w']. exact Hs.
  - unfold Manager.set_active_dictionary. run. unfold Sql.exists_dictionary.
    destruct (existsb (fun d => Nat.eqb (Sql.d_id d) id)
                (Sql.dictionaries (Manager.w_db w))) eqn:Hex; [|exact Hok].
    apply existsb_exists in Hex. destruct Hex as [d [Hd Hid]].
    apply Nat.eqb_eq in Hid. unfold Inv.pointer_ok. cbn.
    exists d. split; assumption.
Qed.

Lemma pointer_never_dangles_witness :
  Inv.pointer_ok Machine.w0
  /\ Inv.pointer_ok
       (Manager.after (Manager.scan_and_import (H := Machine.E1) "/d")
          Machine.w0).
Proof.
  assert (H0 : Inv.pointer_ok Machine.w0) by exact I.
  split; [exact H0|].
  exact (proj1 (proj2 (pointer_never_dangles (H := Machine.E1) Machine.w0
                         "/d" 1 H0))).
Defined.

(** ** The history ledger: what a call leaves *)

Lemma order_by_head {A} (le : A -> A -> bool) (l : list A) (x : A) :
  (forall a b, le a b = true \/ le b a = true) ->
  In x l ->
  (forall y, In y l -> y = x \/ le y x = false) ->
  exists rest, Sql.order_by le l = x :: rest.
Proof.
  intros Htot. induction l as [|a l IH]; intros Hin Hstrict; [destruct Hin|].
  cbn [Sql.order_by foldr]. fold (Sql.order_by le l).
  assert (Hl : forall y, In y l -> y = x \/ le y x = false)
    by (intros y Hy; apply Hstrict; right; exact Hy).
  destruct (Hstrict a (or_introl eq_refl)) as [-> | Hax].
  - destruct (Sql.order_by le l) as [|y s] eqn:Hs; [exists []; reflexivity|].
    cbn [Sql.insert_by].
    assert (Hy : In y l).
    { apply (order_by_In le). rewrite Hs. left. reflexivity. }
    destruct (Hl y Hy) as [-> | Hyx].
    + destruct (le x x); eexists; reflexivity.
    + destruct (Htot x y) as [Hxy|Hc]; [|congruence].
      rewrite Hxy. eexists. reflexivity.
  - destruct Hin as [Heq | Hin].
    { subst a. destruct (Htot x x) as [Hc|Hc]; rewrite Hc in Hax;
        discriminate Hax. }
    destruct (IH Hin Hl) as [rest Hrest]. rewrite Hrest.
    cbn [Sql.insert_by]. rewrite Hax. eexists. reflexivity.
Qed.

(** X14. A search recorded at a time later than every record of the ledger
    is what [get_history] shows first, with the query trimmed: the new
    record survives the pruning and heads the answer for every limit other
    than 0. *)
Theorem add_to_history_shows_first `{Env} (w : Manager.world) (now : Z)
    (q : string) (n : Z) :
  Text.strip q <> EmptyString ->
  Forall (fun h => (Sql.h_searched_at h < now)%Z)
    (Sql.search_history (Manager.w_db w)) ->
  n <> 0%Z ->
  exists rest,
    Manager.answer (Manager.get_history n)
      (Manager.after (Manager.add_to_history now q) w)
    = (Text.strip q, now) :: rest.
Proof.
  intros Hq Hold Hn.
  pose proof (add_to_history_rows w now q Hq) as Hrows.
  set (row := Sql.new_history (Manager.w_db w) (Text.strip q)
                (Manager.current_dict_id w) now) in *.
  set (all := Sql.search_history (Manager.w_db w) ++ [row]) in *.
  assert (Hall : forall y, In y all -> y = row \/ Sql.newer y row = false).
  { intros y Hy. apply in_app_or in Hy. destruct Hy as [Hy|[<-|[]]]; [|auto].
    right. rewrite List.Forall_forall in Hold. specialize (Hold y Hy).
    unfold Sql.newer. apply Z.leb_gt. exact Hold. }
  assert (Hrow : In row all) by (apply in_or_app; right; left; reflexivity).
  destruct (order_by_head Sql.newer all row newer_total Hrow Hall)
    as [rest Hsorted].
  assert (Hkept : In row
            (Sql.search_history
               (Manager.w_db (Manager.after (Manager.add_to_history now q) w)))).
  { rewrite Hrows. apply filter_In. split; [exact Hrow|].
    apply existsb_eqb_in. unfold Sql.newest_first. rewrite Hsorted.
    left. reflexivity. }
  assert (Hsub : forall y,
            In y (Sql.search_history
                    (Manager.w_db
                       (Manager.after (Manager.add_to_history now q) w))) ->
            y = row \/ Sql.newer y row = false).
  { intros y Hy. rewrite Hrows in Hy. apply filter_In in Hy.
    apply Hall. tauto. }
  destruct (order_by_head Sql.newer _ row newer_total Hkept Hsub)
    as [rest' Hsorted'].
  unfold Manager.get_history. run. unfold Sql.select_history, Sql.newest_first.
  rewrite Hsorted'. cbn [List.map]. unfold Sql.limit.
  destruct (Z.ltb_spec n 0) as [_|Hge]; [eexists; reflexivity|].
  destruct (Z.to_nat n) as [|k] eqn:Hk; [lia|].
  cbn. eexists. reflexivity.
Qed.

Lemma add_to_history_shows_first_witness :
  exists rest,
    Manager.answer (Manager.get_history (H := Machine.E1) 5)
      (Manager.after (Manager.add_to_history (H := Machine.E1) 7%Z " ab ")
         Machine.w_searched)
    = ("ab", 7%Z) :: rest.
Proof.
  refine (add_to_history_shows_first (H := Machine.E1) Machine.w_searched 7%Z
            " ab " 5 _ _ _).
  - discriminate.
  - apply List.Forall_cons; [cbn; lia|apply List.Forall_nil].
  - discriminate.
Defined.

(** X15. The history calls touch the history table only: [add_to_history]
    and [clear_history] leave the dictionaries, the entries, the favorites,
    the active pointer, the file system and the decoder trace as they
    were, and after [clear_history] the answer of [get_history] is empty
    for every limit. *)
Theorem history_calls_frame `{Env} (w : Manager.world) (now : Z) (q : string)
    (n : Z) :
  let same (v : Manager.world) :=
    Sql.dictionaries (Manager.w_db v) = Sql.dictionaries (Manager.w_db w)
    /\ Sql.entries (Manager.w_db v) = Sql.entries (Manager.w_db w)
    /\ Sql.favorites (Manager.w_db v) = Sql.favorites (Manager.w_db w)
    /\ Manager.current_dict_id v = Manager.current_dict_id w
    /\ Manager.w_fs v = Manager.w_fs w
    /\ Manager.decoder_calls v = Manager.decoder_calls w in
  same (Manager.after (Manager.add_to_history now q) w)
  /\ same (Manager.after Manager.clear_history w)
  /\ Manager.answer (Manager.get_history n)
       (Manager.after Manager.clear_history w) = [].
Proof.
  intros same. subst same. cbv beta. split; [|split].
  - unfold Manager.add_to_history.
    destruct (negb (Text.truthy (Text.strip q))); run; repeat split.
  - unfold Manager.clear_history. run. repeat split.
  - unfold Manager.clear_history, Manager.get_history. run.
    unfold Sql.select_history, Sql.limit. cbn.
    destruct (n <? 0)%Z; [reflexivity|apply take_nil].
Qed.

(** ** Favorites with a dictionary active *)

Lemma is_favorite_row_spec (word : string) (id : nat) (f : Sql.favorite) :
  Sql.is_favorite_row word (Some id) f = true
  <-> Sql.f_word f = word /\ Sql.f_dictionary_id f = Some id.
Proof.
  unfold Sql.is_favorite_row. rewrite andb_true_iff, String.eqb_eq.
  destruct (Sql.f_dictionary_id f) as [a|]; cbn.
  - rewrite Nat.eqb_eq. split; intros [Hw Ha]; split; congruence.
  - split; intros [_ Hc]; discriminate Hc.
Qed.

(** X16. [is_favorite(word)] answers [True] exactly when a favorites row
    holds that word under the dictionary that is active now; a favorite
    kept under another dictionary, or kept while none was active, does not
    count.  The call changes nothing. *)
Theorem is_favorite_scoped `{Env} (w : Manager.world) (word : string) :
  (Manager.answer (Manager.is_favorite word) w = true
   <-> exists f id,
         In f (Sql.favorites (Manager.w_db w))
         /\ Sql.f_word f = word
         /\ Sql.f_dictionary_id f = Some id
         /\ Manager.current_dict_id w = Some id)
  /\ Manager.after (Manager.is_favorite word) w = w.
Proof.
  unfold Manager.is_favorite. run. split; [|reflexivity].
  unfold Sql.exists_favorite. rewrite existsb_exists. split.
  - intros [f [Hin Hrow]].
    destruct (Manager.current_dict_id w) as [id|] eqn:Hcur.
    + apply is_favorite_row_spec in Hrow. exists f, id. tauto.
    + rewrite is_favorite_row_null in Hrow. discriminate Hrow.
  - intros [f [id [Hin [Hw [Hd Hcur]]]]]. exists f. split; [exact Hin|].
    rewrite Hcur. apply is_favorite_row_spec. tauto.
Qed.

(** X17. With a dictionary active, a word is a favorite right after
    [add_to_favorites], whether the call added it or found it there. *)
Theorem add_then_is_favorite `{Env} (w : Manager.world) (id : nat) (now : Z)
    (word definition : string) :
  Manager.current_dict_id w = Some id ->
  Manager.answer (Manager.is_favorite word)
    (Manager.after (Manager.add_to_favorites now word definition) w) = true.
Proof.
  intros Hcur. unfold Manager.add_to_favorites, Manager.is_favorite. run.
  rewrite Hcur.
  destruct (Sql.exists_favorite word (Some id) (Manager.w_db w)) eqn:Hex.
  - cbn. rewrite Hcur. exact Hex.
  - cbn. rewrite Hcur. unfold Sql.exists_favorite. cbn.
    rewrite existsb_app. cbn. unfold Sql.is_favorite_row at 2. cbn.
    rewrite String.eqb_refl, Nat.eqb_refl. cbn. apply orb_true_r.
Qed.

Lemma add_then_is_favorite_witness :
  Manager.answer (Manager.is_favorite (H := Machine.E1) "salam")
    (Manager.after
       (Manager.add_to_favorites (H := Machine.E1) 3%Z "salam" "hello")
       Machine.w1) = true.
Proof.
  exact (add_then_is_favorite (H := Machine.E1) Machine.w1 1 3%Z "salam"
           "hello" eq_refl).
Defined.

(** X18. With a dictionary active, [remove_from_favorites(word)] answers
    whether the word was a favorite under it; afterwards it is not, and
    the favorites are the rows that were there less those of this word
    under this dictionary, in the order they had. *)
Theorem remove_from_favorites_scoped `{Env} (w : Manager.world) (id : nat)
    (word : string) :
  Manager.current_dict_id w = Some id ->
  let w' := Manager.after (Manager.remove_from_favorites word) w in
  Manager.answer (Manager.remove_from_favorites word) w
  = Manager.answer (Manager.is_favorite word) w
  /\ Manager.answer (Manager.is_favorite word) w' = false
  /\ Sql.favorites (Manager.w_db w')
     = List.filter
         (fun f => negb (String.eqb (Sql.f_word f) word
                         && Sql.eq_param (Sql.f_dictionary_id f) (Some id)))
         (Sql.favorites (Manager.w_db w))
  /\ (forall f, In f (Sql.favorites (Manager.w_db w')) <->
                In f (Sql.favorites (Manager.w_db w))
                /\ ~ (Sql.f_word f = word /\ Sql.f_dictionary_id f = Some id)).
Proof.
  intros Hcur w'. subst w'.
  unfold Manager.remove_from_favorites, Manager.is_favorite. run.
  rewrite Hcur. cbn [Sql.delete_favorite fst snd Manager.w_db
                     Manager.current_dict_id Sql.with_favorites Sql.favorites].
  split; [|split; [|split]].
  - unfold Sql.exists_favorite.
    induction (Sql.favorites (Manager.w_db w)) as [|f l IH]; [reflexivity|].
    cbn [List.filter existsb].
    destruct (Sql.is_favorite_row word (Some id) f); [reflexivity|exact IH].
  - unfold Sql.exists_favorite. cbn [Sql.favorites].
    apply not_true_is_false. intros Hex. apply existsb_exists in Hex.
    destruct Hex as [f [Hin Hrow]]. apply filter_In in Hin.
    destruct Hin as [_ Hn]. rewrite Hrow in Hn. discriminate Hn.
  - reflexivity.
  - intros f. rewrite filter_In, negb_true_iff.
    rewrite <- is_favorite_row_spec.
    destruct (Sql.is_favorite_row word (Some id) f); split; intros [Hin Hb];
      split; try exact Hin; congruence.
Qed.

Lemma remove_from_favorites_scoped_witness :
  Manager.answer (Manager.remove_from_favorites (H := Machine.E1) "salam")
    (Manager.after
       (Manager.add_to_favorites (H := Machine.E1) 3%Z "salam" "hello")
       Machine.w1) = true
  /\ Manager.answer (Manager.remove_from_favorites (H := Machine.E1) "salam")
       Machine.w1 = false.
Proof.
  pose proof (remove_from_favorites_scoped (H := Machine.E1)
                (Manager.after
                   (Manager.add_to_favorites (H := Machine.E1) 3%Z "salam"
                      "hello") Machine.w1) 1 "salam" eq_refl) as Ha.
  pose proof (remove_from_favorites_scoped (H := Machine.E1) Machine.w1 1
                "salam" eq_refl) as Hb.
  cbv zeta in Ha, Hb. destruct Ha as [Ha _]. destruct Hb as [Hb _].
  split; [rewrite Ha|rewrite Hb]; reflexivity.
Defined.

Lemma favorite_keys_app (a b : list Sql.favorite) :
  Inv.favorite_keys (a ++ b) = Inv.favorite_keys a ++ Inv.favorite_keys b.
Proof.
  induction a as [|f a IH]; [reflexivity|]. cbn.
  destruct (Sql.f_dictionary_id f); cbn; rewrite IH; reflexivity.
Qed.

Lemma favorite_keys_In (rows : list Sql.favorite) (word : string) (id : nat) :
  In (word, id) (Inv.favorite_keys rows)
  <-> existsb (Sql.is_favorite_row word (Some id)) rows = true.
Proof.
  rewrite existsb_exists. induction rows as [|f rows IH]; cbn.
  - split; [tauto|intros [f [[] _]]].
  - destruct (Sql.f_dictionary_id f) as [i|] eqn:Hd; cbn; rewrite IH; split.
    + intros [Heq | [g [Hg Hrow]]].
      * injection Heq as Hw Hi. exists f. split; [left; reflexivity|].
        apply is_favorite_row_spec. split; congruence.
      * exists g. tauto.
    + intros [g [[<- | Hg] Hrow]].
      * apply is_favorite_row_spec in Hrow. left.
        destruct Hrow as [Hw Hi]. rewrite Hd in Hi. congruence.
      * right. exists g. tauto.
    + intros [g [Hg Hrow]]. exists g. tauto.
    + intros [g [[<- | Hg] Hrow]].
      * apply is_favorite_row_spec in Hrow. destruct Hrow as [_ Hi].
        congruence.
      * exists g. tauto.
Qed.

Lemma favorite_keys_filter (p : Sql.favorite -> bool)
    (rows : list Sql.favorite) :
  List.NoDup (Inv.favorite_keys rows) ->
  List.NoDup (Inv.favorite_keys (List.filter p rows))
  /\ (forall k, In k (Inv.favorite_keys (List.filter p rows)) ->
                In k (Inv.favorite_keys rows)).
Proof.
  induction rows as [|f rows IH]; intros Hnd; [split; [constructor|tauto]|].
  cbn in Hnd. cbn [List.filter].
  destruct (Sql.f_dictionary_id f) as [i|] eqn:Hd.
  - inversion Hnd as [|? ? Hnotin Hnd']; subst.
    destruct (IH Hnd') as [Hk Hsub].
    destruct (p f); cbn; rewrite ?Hd.
    + split.
      * constructor; [|exact Hk]. intros Hin. apply Hnotin, Hsub, Hin.
      * intros k [<- | Hin]; [left; reflexivity|right; apply Hsub, Hin].
    + split; [exact Hk|]. intros k Hin. right. apply Hsub, Hin.
  - destruct (IH Hnd) as [Hk Hsub].
    destruct (p f); cbn; rewrite ?Hd; split; assumption.
Qed.

Lemma run_call_unique `{Env} (c : Inv.favorite_call) (w : Manager.world) :
  Inv.favorites_unique (Manager.w_db w) ->
  Inv.favorites_unique (Manager.w_db (Manager.after (Inv.run_call c) w)).
Proof.
  unfold Inv.favorites_unique. intros Hu. destruct c as [i | now word d | word].
  - unfold Inv.run_call, Manager.set_active_dictionary. run.
    destruct (Sql.exists_dictionary i (Manager.w_db w)); exact Hu.
  - unfold Inv.run_call, Manager.add_to_favorites. run.
    destruct (Sql.exists_favorite word (Manager.current_dict_id w)
                (Manager.w_db w)) eqn:Hex; [exact Hu|].
    cbn [snd Manager.w_db]. unfold Sql.insert_favorite.
    cbn [Sql.with_favorites Sql.favorites].
    rewrite favorite_keys_app.
    cbn [Inv.favorite_keys Sql.new_favorite Sql.f_dictionary_id Sql.f_word].
    destruct (Manager.current_dict_id w) as [id|].
    + apply NoDup_snoc; [exact Hu|]. intros Hin.
      apply favorite_keys_In in Hin. unfold Sql.exists_favorite in Hex.
      congruence.
    + rewrite app_nil_r. exact Hu.
  - unfold Inv.run_call, Manager.remove_from_favorites. run.
    cbn [snd Manager.w_db]. unfold Sql.delete_favorite.
    cbn [snd Sql.with_favorites Sql.favorites].
    apply favorite_keys_filter, Hu.
Qed.

(** X19. No word becomes a favorite twice under one dictionary: if the
    favorites hold every (word, dictionary) pair at most once, they still
    do after any sequence of choosing a dictionary, adding and removing
    favorites. *)
Theorem favorites_stay_unique `{Env} (cs : list Inv.favorite_call)
    (w : Manager.world) :
  Inv.favorites_unique (Manager.w_db w) ->
  Inv.favorites_unique (Manager.w_db (Manager.after (Inv.run_calls cs) w)).
Proof.
  revert w. induction cs as [|c cs IH]; intros w Hu; [exact Hu|].
  cbn [Inv.run_calls]. run.
  pose proof (run_call_unique c w Hu) as Hstep. unfold Manager.after in Hstep.
  destruct (Inv.run_call c w) as [[] w1]. cbn [snd] in Hstep.
  apply IH, Hstep.
Qed.

Lemma favorites_stay_unique_witness :
  Inv.favorites_unique (Manager.w_db Machine.w2)
  /\ Inv.favorites_unique
       (Manager.w_db
          (Manager.after
             (Inv.run_calls (H := Machine.E1)
                [ Inv.Add 1%Z "salam" "hello"; Inv.Add 2%Z "salam" "hi";
                  Inv.Choose 2; Inv.Remove "ab"; Inv.Add 3%Z "salam" "hello" ])
             Machine.w2)).
Proof.
  assert (H0 : Inv.favorites_unique (Manager.w_db Machine.w2))
    by constructor.
  split; [exact H0|].
  apply (favorites_stay_unique (H := Machine.E1)). exact H0.
Defined.

(** X20. [get_favorites] reads the favorites of all dictionaries, not only
    of the active one: it answers newest first, with at most [limit] rows
    when [limit] is not negative and with every row of the table when it
    is negative, and changes nothing. *)
Theorem get_favorites_lists `{Env} (w : Manager.world) (limit : Z) :
  Manager.after (Manager.get_favorites limit) w = w
  /\ StronglySorted (fun a b => (snd b <= snd a)%Z)
       (Manager.answer (Manager.get_favorites limit) w)
  /\ ((0 <= limit)%Z ->
      (Z.of_nat (List.length (Manager.answer (Manager.get_favorites limit) w))
       <= limit)%Z)
  /\ ((limit < 0)%Z ->
      Permutation (Manager.answer (Manager.get_favorites limit) w)
        (List.map (fun f => (Sql.f_word f, Sql.f_definition f, Sql.f_added_at f))
           (Sql.favorites (Manager.w_db w)))).
Proof.
  unfold Manager.get_favorites. run. unfold Sql.select_favorites.
  split; [reflexivity|]. split; [|split].
  - apply limit_strongly_sorted, StronglySorted_map.
    eapply StronglySorted_weaken;
      [|apply (order_by_strongly_sorted
                 (fun a b => (Sql.f_added_at b <=? Sql.f_added_at a)%Z))].
    + intros a b Hab. cbn. apply Z.leb_le. exact Hab.
    + intros a b. rewrite !Z.leb_le. lia.
    + intros a b c. rewrite !Z.leb_le. lia.
  - apply limit_length_Z.
  - intros Hneg. unfold Sql.limit.
    destruct (Z.ltb_spec limit 0) as [_|Hge]; [|lia].
    apply Permutation_map, order_by_perm.
Qed.

Lemma get_favorites_lists_witness :
  (Z.of_nat
     (List.length
        (Manager.answer (Manager.get_favorites (H := Machine.E1) 50)
           Machine.w1)) <= 50)%Z.
Proof.
  apply (get_favorites_lists (H := Machine.E1) Machine.w1 50). lia.
Defined.

(** ** The scanner: nothing new, and what was just ingested *)

Lemma scan_files_all_recorded `{Env} (recorded : list string)
    (files : list string) (w : Manager.world) :
  Forall (fun f => In (path_absolute f) recorded) files ->
  Manager.scan_files (list_to_set recorded) files w
  = (List.map Spec.skipped files, w).
Proof.
  induction 1 as [|f files Hf _ IH]; [reflexivity|].
  cbn [Manager.scan_files]. unfold Manager.scan_file. run.
  destruct (decide (path_absolute f ∈ (list_to_set recorded : gset string)))
    as [_|Hnin].
  - rewrite IH. reflexivity.
  - exfalso. apply Hnin, recorded_path, Hf.
Qed.

(** X21. A scan that finds nothing new changes nothing: when every
    eligible file of the directory has its absolute path among the recorded
    source paths, [scan_and_import] leaves the world as it is, the decoder
    not called, and answers with one skip record per file, or with the
    single info record when no file is eligible. *)
Theorem scan_nothing_new `{Env} (w : Manager.world) (directory : string)
    (listing : list string) :
  os_path_exists (Manager.w_fs w) directory = true ->
  path_iterdir (Manager.w_fs w) directory = Some listing ->
  Forall (fun f => In (path_absolute f)
                     (Sql.select_source_paths (Manager.w_db w)))
    (List.filter (Manager.eligible (Manager.w_fs w)) listing) ->
  Manager.scan_and_import directory w =
    (Some
       match List.filter (Manager.eligible (Manager.w_fs w)) listing with
       | [] => [ {| Manager.r_file := None; Manager.r_status := Manager.StInfo;
                    Manager.r_message := "No BGL files found in directory" |} ]
       | files => List.map Spec.skipped files
       end,
     w).
Proof.
  intros Hex Hls Hall. unfold Manager.scan_and_import. run.
  rewrite Hex, Hls. cbn [negb].
  destruct (List.filter (Manager.eligible (Manager.w_fs w)) listing)
    as [|f files]; [reflexivity|].
  rewrite (scan_files_all_recorded _ (f :: files) w Hall). reflexivity.
Qed.

Lemma scan_nothing_new_witness :
  Manager.scan_and_import (H := Machine.E1) "/d" Machine.u1
  = (Some [ Spec.skipped "/d/farsi-basic.bgl" ], Machine.u1).
Proof.
  refine (scan_nothing_new (H := Machine.E1) Machine.u1 "/d"
            [ "/d/farsi-basic.bgl"; "/d/notes.txt" ] eq_refl eq_refl _).
  apply List.Forall_cons; [left; reflexivity|apply List.Forall_nil].
Defined.

Lemma normalize_extension_lower `{Env} (p : string) (w : Manager.world) :
  String.eqb p (Text.lower p) = true ->
  Manager.normalize_extension p w = (p, w).
Proof.
  intros Hlow. unfold Manager.normalize_extension. rewrite Hlow. reflexivity.
Qed.

(** X22. What has just been ingested is skipped by the next scan: after a
    successful [import_bgl] of a file whose absolute path is in lower case
    and is what [Path.absolute] gives for it, that path is among the
    recorded source paths, and the scanner's step for the file answers
    skip and leaves the world alone. *)
Theorem import_then_scan_skips `{Env} (f : string) (w w' : Manager.world)
    (msg : string) :
  Manager.import_bgl f w = ((true, msg), w') ->
  String.eqb (os_path_abspath f) (Text.lower (os_path_abspath f)) = true ->
  path_absolute f = os_path_abspath f ->
  In (path_absolute f) (Sql.select_source_paths (Manager.w_db w'))
  /\ Manager.scan_file
       (list_to_set (Sql.select_source_paths (Manager.w_db w'))) f w'
     = (Spec.skipped f, w').
Proof.
  intros Himp Hlow Habs.
  apply import_bgl_success_batch in Himp.
  destruct Himp as [source [items [Hdb [_ Hsrc]]]].
  rewrite (normalize_extension_lower _ w Hlow) in Hsrc. cbn [fst] in Hsrc.
  assert (Hin : In (path_absolute f)
            (Sql.select_source_paths (Manager.w_db w'))).
  { unfold Sql.select_source_paths.
    rewrite Hdb, ingested_db_dictionaries, List.map_app. cbn [List.map].
    apply in_or_app. right. left. cbn. congruence. }
  split; [exact Hin|].
  unfold Manager.scan_file. run.
  destruct (decide (path_absolute f
                    ∈ (list_to_set (Sql.select_source_paths (Manager.w_db w'))
                       : gset string))) as [_|Hnin]; [reflexivity|].
  exfalso. apply Hnin, recorded_path, Hin.
Qed.

Lemma import_then_scan_skips_witness :
  In "/d/farsi-basic.bgl" (Sql.select_source_paths (Manager.w_db Machine.w1)).
Proof.
  exact (proj1 (import_then_scan_skips (H := Machine.E1) "/d/farsi-basic.bgl"
                  Machine.w0 Machine.w1
                  "✅ Imported 2 entries from 'farsi_basic'"
                  eq_refl eq_refl eq_refl)).
Defined.

(** A file with a capital in its name is copied under a lower-case
    extension and recorded under the copy's path, so the next scan takes
    the original for new and ingests it again. *)
Example mixed_case_is_rescanned :
  let E := Machine.env
             (fun _ => Decoded [Machine.item "salam" "hello"] None) in
  let w := @Manager.init E [ ("/d/Farsi.BGL", Machine.clear_bytes) ] in
  let once := Manager.after (Manager.scan_and_import (H := E) "/d") w in
  Sql.select_source_paths (Manager.w_db once) = [ "/d/Farsi.bgl" ]
  /\ List.map (fun r => (Manager.r_file r, Manager.r_status r))
       (default []
          (Manager.answer (Manager.scan_and_import (H := E) "/d") once))
     = [ (Some "Farsi.bgl", Manager.StSkip);
         (Some "Farsi.BGL", Manager.StSuccess) ].
Proof. split; vm_compute; reflexivity. Qed.

(** ** The derived name and the file system *)

Lemma separator_never (c : ascii) :
  Spec.separator c <> "."%char /\ Spec.separator c <> "-"%char
  /\ Spec.separator c <> " "%char.
Proof.
  destruct c as [[] [] [] [] [] [] [] []]; repeat split; discriminate.
Qed.

Lemma text_map_char (f : ascii -> ascii) (s h t : string) (c : ascii) :
  Text.map f s = String.app h (String c t) -> exists a, f a = c.
Proof.
  revert h. induction s as [|a s IH]; intros h Heq; cbn in Heq.
  - destruct h; discriminate Heq.
  - destruct h as [|b h].
    + rewrite app_nil_text in Heq. injection Heq as Hc _. exists a. exact Hc.
    + rewrite app_cons_text in Heq. injection Heq as _ Heq.
      apply (IH h). exact Heq.
Qed.

Lemma text_map_length (f : ascii -> ascii) (s : string) :
  String.length (Text.map f s) = String.length s.
Proof. induction s as [|a s IH]; cbn; [reflexivity|]. rewrite IH. reflexivity. Qed.

(** X23. The name derived for a dictionary holds no [.], no [-] and no
    space, wherever they stood in the file name, and is as long as the
    stem of the file name. *)
Theorem derive_name_no_separators (p : string) :
  (forall h t c,
     Manager.derive_name p = String.app h (String c t) ->
     c <> "."%char /\ c <> "-"%char /\ c <> " "%char)
  /\ String.length (Manager.derive_name p) = String.length (Path.stem p).
Proof.
  rewrite derive_name_separator. split.
  - intros h t c Heq. apply text_map_char in Heq. destruct Heq as [a <-].
    apply separator_never.
  - apply text_map_length.
Qed.

Lemma derive_name_no_separators_witness :
  Manager.derive_name "/d/My Dict.v2.BGL" = "My_Dict_v2"
  /\ "_"%char <> "."%char /\ "_"%char <> "-"%char /\ "_"%char <> " "%char.
Proof.
  split; [reflexivity|].
  exact (proj1 (derive_name_no_separators "/d/My Dict.v2.BGL")
           "My" "Dict_v2" "_"%char eq_refl).
Defined.



(** ** Ingestion and the ledgers *)

Lemma insert_entries_ledgers (id : nat) (batch : list (string * string))
    (db : Sql.database) :
  Sql.favorites (Sql.insert_entries id batch db) = Sql.favorites db
  /\ Sql.search_history (Sql.insert_entries id batch db)
     = Sql.search_history db.
Proof.
  unfold Sql.insert_entries. revert db.
  induction batch as [|wd batch IH]; intros db; simpl; [tauto|].
  destruct (IH (Sql.insert_entry id wd db)) as [Hf Hh].
  rewrite Hf, Hh. split; reflexivity.
Qed.

Lemma ingested_db_ledgers (name source : string)
    (cleaned : list (string * string)) (db : Sql.database) :
  Sql.favorites (Spec.ingested_db name source cleaned db) = Sql.favorites db
  /\ Sql.search_history (Spec.ingested_db name source cleaned db)
     = Sql.search_history db.
Proof.
  unfold Spec.ingested_db.
  destruct (insert_entries_ledgers (Sql.new_dictionary_id db) cleaned
              (Sql.delete_entries (Sql.new_dictionary_id db)
                 (Sql.replace_dictionary Sql.foreign_keys name source
                    (List.length cleaned) db))) as [Hf Hh].
  rewrite Hf, Hh. split; reflexivity.
Qed.

(** X26. [import_bgl] never touches the two ledgers: the rows of
    [favorites] and of [search_history] are the same after it, whatever its
    outcome.  On a store that only the manager has written to, no word is
    a favorite right after a successful ingestion, also when the file had
    been ingested before and words of it were favorites then: the
    dictionary is active under a new id, and the rows go on referring to
    the old one. *)
Theorem import_bgl_forgets_favorites `{Env} (path : string)
    (w : Manager.world) :
  let w' := Manager.after (Manager.import_bgl path) w in
  Sql.favorites (Manager.w_db w') = Sql.favorites (Manager.w_db w)
  /\ Sql.search_history (Manager.w_db w')
     = Sql.search_history (Manager.w_db w)
  /\ (Inv.favorites_refer_back (Manager.w_db w) ->
      Inv.favorites_refer_back (Manager.w_db w')
      /\ (fst (Manager.answer (Manager.import_bgl path) w) = true ->
          forall word,
            Manager.answer (Manager.is_favorite word) w' = false)).
Proof.
  intros w'. subst w'.
  destruct (import_bgl_outcome path w)
    as [[Hfail [Hdb _]] | [_ [source [cleaned [_ [Hdb Hcur]]]]]].
  - rewrite Hdb. repeat split; try assumption.
    rewrite Hfail. discriminate.
  - destruct (ingested_db_ledgers
                (Manager.derive_name (os_path_abspath path)) source cleaned
                (Manager.w_db w)) as [Hf Hh].
    pose proof (ingested_db_next_id
                  (Manager.derive_name (os_path_abspath path)) source cleaned
                  (Manager.w_db w)) as Hnext.
    rewrite Hdb. split; [exact Hf|]. split; [exact Hh|].
    intros Hback. split.
    + unfold Inv.favorites_refer_back. rewrite Hf.
      eapply List.Forall_impl; [|exact Hback].
      intros f. cbn. destruct (Sql.f_dictionary_id f); [lia|trivial].
    + intros _ word. unfold Manager.is_favorite. run.
      rewrite Hcur, Hdb. unfold Sql.exists_favorite. rewrite Hf.
      apply not_true_is_false. intros Hex.
      apply existsb_exists in Hex. destruct Hex as [f [Hin Hrow]].
      apply is_favorite_row_spec in Hrow. destruct Hrow as [_ Hid].
      unfold Inv.favorites_refer_back in Hback.
      rewrite List.Forall_forall in Hback. specialize (Hback f Hin).
      rewrite Hid in Hback. lia.
Qed.

Lemma import_bgl_forgets_favorites_witness :
  let w := Manager.after (Manager.add_to_favorites (H := Machine.E1) 5%Z
                            "salam" "hello") Machine.w1 in
  Manager.answer (Manager.is_favorite "salam") w = true
  /\ Manager.answer (Manager.is_favorite "salam")
       (Manager.after (Manager.import_bgl "/d/farsi-basic.bgl") w) = false
  /\ List.length
       (Manager.answer (Manager.get_favorites 50)
          (Manager.after (Manager.import_bgl "/d/farsi-basic.bgl") w)) = 1.
Proof.
  cbv zeta. split; [reflexivity|]. split; [|reflexivity].
  refine (proj2 (proj2 (proj2 (import_bgl_forgets_favorites
                                 (H := Machine.E1) "/d/farsi-basic.bgl"
                                 (Manager.after
                                    (Manager.add_to_favorites 5%Z "salam"
                                       "hello") Machine.w1)))
                   _) eq_refl "salam").
  unfold Inv.favorites_refer_back.
  apply List.Forall_cons; [vm_compute; lia|apply List.Forall_nil].
Defined.

(** ** The window's handler of a finished scan *)

Lemma lines_with_files (rs : list Manager.scan_result) :
  Forall (fun r => Manager.r_file r <> None) rs ->
  exists ls, Ui.lines rs = Some ls.
Proof.
  induction 1 as [|r rs Hr _ [ls IH]]; [exists []; reflexivity|].
  cbn. destruct (Manager.r_file r) as [file|]; [|congruence].
  rewrite IH. eexists. reflexivity.
Qed.

Lemma scan_files_named `{Env} (existing : gset string) (files : list string)
    (w : Manager.world) :
  Forall (fun r => Manager.r_file r <> None)
    (fst (Manager.scan_files existing files w)).
Proof.
  revert w. induction files as [|f files IH]; intros w; [constructor|].
  cbn [Manager.scan_files]. unfold Manager.scan_file. run.
  destruct (decide (path_absolute f ∈ existing)).
  - specialize (IH w).
    destruct (Manager.scan_files existing files w) as [rs w'].
    cbn [fst] in *. constructor; [discriminate|exact IH].
  - destruct (Manager.import_bgl f w) as [r w1]. specialize (IH w1).
    destruct (Manager.scan_files existing files w1) as [rs w'].
    cbn [fst] in *. constructor; [discriminate|exact IH].
Qed.

(** X25. The handler of a finished scan raises [KeyError] exactly when the
    scanned directory does not exist: the one record [scan_and_import]
    then answers with is an error record without a ["file"] key, which the
    handler subscripts.  On every other answer of the scanner the handler
    finds a file name in each error record. *)
Theorem on_scan_finished_raises `{Env} (w : Manager.world)
    (directory : string) (results : list Manager.scan_result) :
  Manager.answer (Manager.scan_and_import directory) w = Some results ->
  (snd (Ui.on_scan_finished results) = Ui.RaisesKeyError
   <-> os_path_exists (Manager.w_fs w) directory = false).
Proof.
  unfold Manager.scan_and_import. run.
  destruct (os_path_exists (Manager.w_fs w) directory) eqn:Hex; cbn [negb].
  - destruct (path_iterdir (Manager.w_fs w) directory) as [listing|];
      [|discriminate].
    destruct (List.filter (Manager.eligible (Manager.w_fs w)) listing)
      as [|f files].
    + cbn. intros Heq. injection Heq as <-. cbn. split; discriminate.
    + pose proof (scan_files_named
                    (list_to_set (Sql.select_source_paths (Manager.w_db w)))
                    (f :: files) w) as Hnamed.
      destruct (Manager.scan_files _ (f :: files) w) as [rs w'].
      cbn [fst] in *. intros Heq. injection Heq as <-.
      split; [|discriminate]. unfold Ui.on_scan_finished. cbn [snd].
      assert (Herr : Forall (fun r => Manager.r_file r <> None) (Ui.errors rs)).
      { apply List.Forall_forall. intros r Hr. unfold Ui.errors in Hr.
        apply filter_In in Hr. rewrite List.Forall_forall in Hnamed.
        apply Hnamed. tauto. }
      destruct (lines_with_files _ Herr) as [ls Hls].
      destruct (Ui.errors rs) as [|e rest]; [discriminate|].
      rewrite Hls. discriminate.
  - cbn. intros Heq. injection Heq as <-. cbn. split; reflexivity.
Qed.

Lemma on_scan_finished_raises_witness :
  snd (Ui.on_scan_finished
         [ {| Manager.r_file := None; Manager.r_status := Manager.StError;
              Manager.r_message := "Directory not found: sources" |} ])
  = Ui.RaisesKeyError.
Proof.
  apply (on_scan_finished_raises (H := Machine.E1) Machine.w0 "sources" _
           eq_refl).
  reflexivity.
Defined.
